(** * corrieneuch-sequelize: the resource collection over a Sequelize model

    A shallow embedding of [src/lib/index.ts]: the filter translator
    [translateFilter], the collection operations [list], [get], [create],
    [update] and [delete] of [DbResourceCollection] and the helpers they
    call, with the properties the specification states about them and
    further properties of the code.

    Conventions of the embedding.
    - JavaScript values are the trees of [value]; numbers are the integers
      (fractions, NaN and infinities are left out) and strings are byte
      strings, lower-cased on the ASCII letters.
    - An object is its list of own properties in enumeration order, each key
      once.
    - A call that throws yields [Throw]; a call whose recursion does not end
      yields [OutOfFuel] at every amount of fuel. *)

From Stdlib Require Import String Ascii List ZArith Bool Lia DecimalString.
Import ListNotations.

Set Warnings "-register-all".
Open Scope string_scope.

(** ** JavaScript values *)

(** JSON values, and the instances [Sequelize.col], [Sequelize.fn] and
    [Sequelize.where] build. [Sequelize.where (attribute, logic)] sets the
    fields [attribute], [comparator] (['='] when the call has two arguments)
    and [logic]. *)
Inductive value : Type :=
| VUndef
| VNull
| VBool (b : bool)
| VNum (n : Z)
| VStr (s : string)
| VArr (items : list value)
| VObj (props : list (string * value))
| VCol (col : string)
| VFn (fn : string) (args : list value)
| VWhere (attribute : value) (comparator : string) (logic : value).

(** A property list: the own enumerable properties of an object, in
    enumeration order. *)
Definition props : Type := list (string * value).

(** [if (v)]: the values JavaScript takes for true. *)
Definition truthy (v : value) : bool :=
  match v with
  | VUndef | VNull => false
  | VBool b => b
  | VNum n => negb (n =? 0)%Z
  | VStr s => negb (s =? "")
  | _ => true
  end.

(** [v == null]. *)
Definition nullish (v : value) : bool :=
  match v with
  | VUndef | VNull => true
  | _ => false
  end.

(** [_.isPlainObject]. *)
Definition isPlainObject (v : value) : bool :=
  match v with
  | VObj _ => true
  | _ => false
  end.

Fixpoint lookup {V : Type} (k : string) (ps : list (string * V)) : option V :=
  match ps with
  | [] => None
  | (k', v) :: rest => if k =? k' then Some v else lookup k rest
  end.

(** [o[k]] on a property list. *)
Definition prop (ps : props) (k : string) : value :=
  match lookup k ps with
  | Some v => v
  | None => VUndef
  end.

(** [o[k] = v] on a property list: an existing key keeps its place, a new
    one goes last. *)
Fixpoint assign {V : Type} (k : string) (v : V) (ps : list (string * V))
  : list (string * V) :=
  match ps with
  | [] => [(k, v)]
  | (k', v') :: rest =>
      if k =? k' then (k, v) :: rest else (k', v') :: assign k v rest
  end.

(** The key of the [i]-th element of an array or character of a string. *)
Definition index_key (i : nat) : string :=
  NilEmpty.string_of_uint (Nat.to_uint i).

Definition indexed {V : Type} (items : list V) : list (string * V) :=
  combine (map index_key (seq 0 (length items))) items.

Fixpoint chars (s : string) : list value :=
  match s with
  | EmptyString => []
  | String c rest => VStr (String c EmptyString) :: chars rest
  end.

(** The own enumerable properties of a value: what [for ... in] and the
    spread [{...v}] walk through. *)
Definition own_props (v : value) : props :=
  match v with
  | VObj ps => ps
  | VArr items => indexed items
  | VStr s => indexed (chars s)
  | VCol c => [("col", VStr c)]
  | VFn f args => [("fn", VStr f); ("args", VArr args)]
  | VWhere a c l => [("attribute", a); ("comparator", VStr c); ("logic", l)]
  | _ => []
  end.

(** [v.k] for a key [k] that is no index and not [length]: an array and a
    string own no other key. *)
Definition get_prop (v : value) (k : string) : value :=
  match v with
  | VArr _ | VStr _ => VUndef
  | _ => prop (own_props v) k
  end.

(** [v.k = x] on an object. *)
Definition set_prop (v : value) (k : string) (x : value) : value :=
  match v with
  | VObj ps => VObj (assign k x ps)
  | _ => v
  end.

(** The value [v] with the values of its properties replaced by those of
    [ps], position by position. *)
Definition with_props (v : value) (ps : props) : value :=
  match v with
  | VObj _ => VObj ps
  | VArr _ => VArr (map snd ps)
  | VWhere _ _ _ =>
      VWhere (prop ps "attribute")
             (match prop ps "comparator" with VStr c => c | _ => "" end)
             (prop ps "logic")
  | _ => v
  end.

(** [{...a, ...b}] onto the property list [target]. *)
Definition spread (target : props) (src : value) : props :=
  fold_left (fun acc kv => assign (fst kv) (snd kv) acc) (own_props src) target.

Definition lower_ascii (c : ascii) : ascii :=
  let n := nat_of_ascii c in
  if (65 <=? n)%nat && (n <=? 90)%nat then ascii_of_nat (n + 32) else c.

Fixpoint lower (s : string) : string :=
  match s with
  | EmptyString => EmptyString
  | String c rest => String (lower_ascii c) (lower rest)
  end.

(** ** Results of a call *)

Inductive error : Type :=
| TooComplex (k : string)       (* Error(`filter key ${k} query is too complex`) *)
| TypeError                     (* a call of something that is no function *)
| ConstraintViolation.          (* Error('constraint violation') *)

Inductive result (A : Type) : Type :=
| Ok (a : A)
| Throw (e : error)
| OutOfFuel.

Arguments Ok {A} a.
Arguments Throw {A} e.
Arguments OutOfFuel {A}.

Definition bind {A B : Type} (r : result A) (f : A -> result B) : result B :=
  match r with
  | Ok a => f a
  | Throw e => Throw e
  | OutOfFuel => OutOfFuel
  end.

Notation "x <- c ;; k" := (bind c (fun x => k))
  (at level 61, c at next level, right associativity).

(** [xs.map(f)] when [f] may throw: left to right, the first failure wins. *)
Fixpoint mapM {A B : Type} (f : A -> result B) (xs : list A) : result (list B) :=
  match xs with
  | [] => Ok []
  | x :: rest =>
      y <- f x ;;
      ys <- mapM f rest ;;
      Ok (y :: ys)
  end.

(** [v.map(f)]: only an array has [map]. *)
Definition array_map (f : value -> result value) (v : value) : result value :=
  match v with
  | VArr items => items' <- mapM f items ;; Ok (VArr items')
  | _ => Throw TypeError
  end.

(** [v.toLowerCase()]: only a string has it. *)
Definition toLowerCase (v : value) : result string :=
  match v with
  | VStr s => Ok (lower s)
  | _ => Throw TypeError
  end.

(** ** The filter translator *)

(** [Sequelize.where(Sequelize.fn('lower', Sequelize.col(k)), {$like: s})]. *)
Definition lower_like (k s : string) : value :=
  VWhere (VFn "lower" [VCol k]) "=" (VObj [("$like", VStr s)]).

(** The loop [for (let k in filter) { ... }] over the keys [ks], on the
    properties of [filter]. *)
Fixpoint for_in (ks : list string) (filter : props) : result props :=
  match ks with
  | [] => Ok filter
  | k :: ks' =>
      let value := prop filter k in
      if isPlainObject value then
        if (1 <? length (own_props value))%nat then Throw (TooComplex k)
        else if truthy (get_prop value "$like") then
          s <- toLowerCase (get_prop value "$like") ;;
          for_in ks' (assign k (lower_like k s) filter)
        else for_in ks' filter
      else for_in ks' filter
  end.

(** The loop on a value of any kind, through its own properties. *)
Definition rewrite_leaves (filter : value) : result value :=
  ps <- for_in (map fst (own_props filter)) (own_props filter) ;;
  Ok (with_props filter ps).

(** [if (filter.k) filter.k = filter.k.map((filter) => translateFilter(filter))]. *)
Definition rewrite_children (translate : value -> result value) (k : string)
    (filter : value) : result value :=
  if truthy (get_prop filter k) then
    children <- array_map translate (get_prop filter k) ;;
    Ok (set_prop filter k children)
  else Ok filter.

(** [translateFilter(filter, extra)]. The call under [if (filter.$not)] is
    [translateFilter(filter)], on the node itself as the source has it; it
    works on the object as rewritten so far and would hand that object back,
    so the tree holds the node once more under its own [$not]. *)
Fixpoint translateFilter (fuel : nat) (filter extra : value) : result value :=
  match fuel with
  | O => OutOfFuel
  | S fuel' =>
      if negb (truthy filter) then Ok extra
      else
        let translate := fun child => translateFilter fuel' child VUndef in
        filter <- rewrite_children translate "$and" filter ;;
        filter <- rewrite_children translate "$or" filter ;;
        filter <- (if truthy (get_prop filter "$not") then
                     r <- translateFilter fuel' filter VUndef ;;
                     Ok (set_prop r "$not" r)
                   else Ok filter) ;;
        filter <- rewrite_leaves filter ;;
        if truthy extra then Ok (VObj [("$and", VArr [filter; extra])])
        else Ok filter
  end.

(** Fuel that is enough for any filter without a truthy [$not]: the height
    of the tree. *)
Fixpoint depth (v : value) : nat :=
  match v with
  | VArr items => S (list_max (map depth items))
  | VObj ps => S (list_max (map (fun p => depth (snd p)) ps))
  | VFn _ args => S (list_max (map depth args))
  | VWhere a _ l => S (Nat.max (depth a) (depth l))
  | _ => O
  end.

(** ** The storage engine *)

(** A stored row, and what [instance.get()] hands out: field to value. *)
Definition row : Type := props.

(** What [_.pickBy(..., (v) => v != null)] leaves of the options of a find:
    an absent entry is [None]. *)
Record query : Type := {
  q_limit : option Z;
  q_offset : option Z;
  q_where : option value;
  q_attributes : option (list string);
  q_order : option (list (string * string));
  q_include : option (list value)
}.

(** The calls a collection makes on its model. *)
Inductive call : Type :=
| FindAndCountAll (q : query)
| FindOne (q : query)
| Create (attributes : props)
| Update (attributes : props) (where_ : value)
| Destroy (where_ : value).

(** The table behind the model, the next key of its sequence, whether
    [update] answers with the rows it wrote ([returning: true] is honoured)
    and the calls made so far, latest first. *)
Record db : Type := {
  rows : list row;
  next_id : Z;
  returning : bool;
  calls : list call
}.

Definition field (r : row) (k : string) : value :=
  match lookup k r with
  | Some v => v
  | None => VNull
  end.

Definition scalar_eqb (x y : value) : bool :=
  match x, y with
  | VBool a, VBool b => Bool.eqb a b
  | VNum a, VNum b => (a =? b)%Z
  | VStr a, VStr b => (a =? b)
  | _, _ => false
  end.

(** SQL [LIKE]: [%] stands for any run of characters, [_] for one. *)
Fixpoint like (pattern : string) : string -> bool :=
  match pattern with
  | EmptyString => fun s => (s =? "")
  | String p pattern' =>
      fix go (s : string) : bool :=
        if (p =? "%")%char then
          like pattern' s
          || match s with
             | EmptyString => false
             | String _ s' => go s'
             end
        else
          match s with
          | EmptyString => false
          | String c s' =>
              ((p =? "_")%char || (p =? c)%char) && like pattern' s'
          end
  end.

(** Modelled from the spec: the storage engine is outside the repository; this
    is its reading of one entry [k: c] of a where-object on a row, for
    the conditions this development meets. A scalar is an equality, [null] is
    [IS NULL], [{$like: p}] is [LIKE], and the node [lower_like col p] is
    [lower(col) LIKE p]. A condition outside these selects nothing. *)
Definition cond_sat (r : row) (k : string) (c : value) : bool :=
  match c with
  | VUndef | VNull => nullish (field r k)
  | VBool _ | VNum _ | VStr _ => scalar_eqb (field r k) c
  | VObj [(op, VStr p)] =>
      (op =? "$like")
      && match field r k with
         | VStr s => like p s
         | _ => false
         end
  | VWhere (VFn f [VCol col]) cmp (VObj [(op, VStr p)]) =>
      (f =? "lower") && (cmp =? "=") && (op =? "$like")
      && match field r col with
         | VStr s => like p (lower s)
         | _ => false
         end
  | _ => false
  end.

(** Modelled from the spec: the engine's reading of a where clause. An object
    is the conjunction of its entries; [$and] and [$or] take a list of
    clauses, [$not] one. *)
Fixpoint where_sat (r : row) (w : value) : bool :=
  match w with
  | VObj ps =>
      (fix all (ps : props) : bool :=
         match ps with
         | [] => true
         | (k, c) :: rest =>
             (if k =? "$and" then
                match c with
                | VArr ws => forallb (where_sat r) ws
                | _ => where_sat r c
                end
              else if k =? "$or" then
                match c with
                | VArr ws => existsb (where_sat r) ws
                | _ => where_sat r c
                end
              else if k =? "$not" then negb (where_sat r c)
              else cond_sat r k c)
             && all rest
         end) ps
  | _ => true
  end.

Definition matches (q : query) (r : row) : bool :=
  match q_where q with
  | Some w => where_sat r w
  | None => true
  end.

(** The projection of a row on the fields asked for. *)
Definition project (attributes : option (list string)) (r : row) : row :=
  match attributes with
  | Some fields => filter (fun kv => existsb (String.eqb (fst kv)) fields) r
  | None => r
  end.

Definition page_of (q : query) (rs : list row) : list row :=
  let rs := match q_offset q with
            | Some o => skipn (Z.to_nat o) rs
            | None => rs
            end in
  match q_limit q with
  | Some l => firstn (Z.to_nat l) rs
  | None => rs
  end.

(** A computation on a state: a result, and the state after it. *)
Definition stateful (St A : Type) : Type := St -> result A * St.

Definition ret {St A : Type} (a : A) : stateful St A := fun s => (Ok a, s).

Definition throw {St A : Type} (e : error) : stateful St A :=
  fun s => (Throw e, s).

Definition lift {St A : Type} (r : result A) : stateful St A :=
  fun s => (r, s).

Definition bind_io {St A B : Type} (m : stateful St A)
    (f : A -> stateful St B) : stateful St B :=
  fun s =>
    match m s with
    | (Ok a, s') => f a s'
    | (Throw e, s') => (Throw e, s')
    | (OutOfFuel, s') => (OutOfFuel, s')
    end.

Notation "x <~ c ;; k" := (bind_io c (fun x => k))
  (at level 61, c at next level, right associativity).

(** A call on the model: a result, and the table after it. *)
Definition io (A : Type) : Type := stateful db A.

Definition logged (c : call) (d : db) : db :=
  {| rows := rows d; next_id := next_id d; returning := returning d;
     calls := c :: calls d |}.

Definition with_rows (rs : list row) (d : db) : db :=
  {| rows := rs; next_id := next_id d; returning := returning d;
     calls := calls d |}.

(** Modelled from the spec: the order of two values of a field as the
    engine sorts them, as far as this development meets it: numbers by
    their value, strings by their bytes (the collation is the engine's).
    Values of another kind stay in the order they have. *)
Definition value_compare (x y : value) : comparison :=
  match x, y with
  | VNum a, VNum b => Z.compare a b
  | VStr a, VStr b => String.compare a b
  | _, _ => Eq
  end.

(** The order of two rows under the sort keys [order], the first key
    first: each key with ['ASC'] or ['DESC']. *)
Fixpoint row_compare (order : list (string * string)) (a b : row)
  : comparison :=
  match order with
  | [] => Eq
  | (k, direction) :: rest =>
      match value_compare (field a k) (field b k) with
      | Eq => row_compare rest a b
      | c => if direction =? "DESC" then CompOpp c else c
      end
  end.

(** The row [r] put into the sorted rows [rs], before the first row it does
    not come after. *)
Fixpoint insert_row (order : list (string * string)) (r : row)
    (rs : list row) : list row :=
  match rs with
  | [] => [r]
  | x :: rest =>
      match row_compare order r x with
      | Gt => x :: insert_row order r rest
      | _ => r :: x :: rest
      end
  end.

(** Modelled from the spec: the rows in the order asked for; rows that the
    sort keys do not tell apart keep their stored order, and without an
    order the rows come in stored order. *)
Definition order_rows (order : option (list (string * string)))
    (rs : list row) : list row :=
  match order with
  | Some keys => fold_right (insert_row keys) [] rs
  | None => rs
  end.

(** Modelled from the spec: [findMatching], the matching rows in the order
    asked for, cut to the page, and the count of all matching rows. The
    eager loads asked for are passed on. *)
Definition findAndCountAll (q : query) : io (list row * Z) :=
  fun d =>
    let found := filter (matches q) (rows d) in
    (Ok (map (project (q_attributes q))
             (page_of q (order_rows (q_order q) found)),
         Z.of_nat (length found)),
     logged (FindAndCountAll q) d).

(** Modelled from the spec: [findOne], the first matching row or none. *)
Definition findOne (q : query) : io (option row) :=
  fun d =>
    (Ok (option_map (project (q_attributes q)) (find (matches q) (rows d))),
     logged (FindOne q) d).

(** Modelled from the spec: [insert]; a row without [id] takes the next key
    of the sequence. *)
Definition model_create (attributes : props) : io row :=
  fun d =>
    let r := match lookup "id" attributes with
             | Some _ => attributes
             | None => ("id", VNum (next_id d)) :: attributes
             end in
    (Ok r,
     {| rows := (rows d ++ [r])%list; next_id := next_id d + 1;
        returning := returning d; calls := Create attributes :: calls d |}).

Definition write (attributes : props) (r : row) : row :=
  fold_left (fun acc kv => assign (fst kv) (snd kv) acc) attributes r.

(** What [model.update] answers: the pair [[affectedCount, rows]] where the
    engine returns the rows written, [[undefined, affectedCount]] where it
    does not. *)
Inductive update_answer : Type :=
| WithRows (affectedCount : Z) (written : list row)
| CountOnly (affectedCount : Z).

(** Modelled from the spec: [updateMatching]. *)
Definition model_update (attributes : props) (where_ : value)
  : io update_answer :=
  fun d =>
    let hit := fun r => where_sat r where_ in
    let rs := map (fun r => if hit r then write attributes r else r) (rows d) in
    let written := map (write attributes) (filter hit (rows d)) in
    let n := Z.of_nat (length written) in
    (Ok (if returning d then WithRows n written else CountOnly n),
     logged (Update attributes where_) (with_rows rs d)).

(** Modelled from the spec: [deleteMatching], the count of rows deleted. *)
Definition model_destroy (where_ : value) : io Z :=
  fun d =>
    let hit := fun r => where_sat r where_ in
    (Ok (Z.of_nat (length (filter hit (rows d)))),
     logged (Destroy where_) (with_rows (filter (fun r => negb (hit r)) (rows d)) d)).

(** ** Resources *)

(** [String(v)], as [+] on a string applies it. *)
Fixpoint to_string (v : value) : string :=
  match v with
  | VUndef => "undefined"
  | VNull => "null"
  | VBool true => "true"
  | VBool false => "false"
  | VNum n => NilZero.string_of_int (Z.to_int n)
  | VStr s => s
  | VArr items =>
      (fix join (vs : list value) : string :=
         match vs with
         | [] => ""
         | [v] => if nullish v then "" else to_string v
         | v :: rest =>
             (if nullish v then "" else to_string v) ++ "," ++ join rest
         end) items
  | _ => "[object Object]"
  end.

(** Modelled from the spec: the [<%=name%>]-style URL template of a resource,
    which is outside the repository. [<%=name%>] is replaced by the field
    [name] of the data, nothing for [null] or a missing field; text that
    closes no [<%=] with [%>] stays as it is. [tag] is the name read since an
    open [<%=]. *)
Fixpoint render (template : string) (tag : option string) (data : props)
  : string :=
  match tag with
  | None =>
      match template with
      | String "<" (String "%" (String "=" rest)) => render rest (Some "") data
      | String c rest => String c (render rest None data)
      | EmptyString => ""
      end
  | Some name =>
      match template with
      | String "%" (String ">" rest) =>
          (if nullish (field data name) then "" else to_string (field data name))
          ++ render rest None data
      | String c rest => render rest (Some (name ++ String c "")) data
      | EmptyString => "<%=" ++ name
      end
  end.

Record meta : Type := {
  count : Z;
  page_number : Z;
  page_size : Z;
  page_count : Z
}.

(** Modelled from the spec: a resource is its links, and either the
    attributes of one entity or the element resources and the metadata of a
    collection. *)
Inductive resource : Type :=
| Entity (links : list (string * string)) (attributes : props)
| Collection (links : list (string * string)) (elements : list resource)
             (m : meta).

(** [new Corrieneuch.Resource(url, attributes)]: the self-link is the URL
    template rendered on the attributes. *)
Definition Resource (url : string) (attributes : props) : resource :=
  Entity [("$self", render url None attributes)] attributes.

Definition links_of (r : resource) : list (string * string) :=
  match r with
  | Entity ls _ => ls
  | Collection ls _ _ => ls
  end.

Definition self_link (r : resource) : option string :=
  option_map snd (find (fun l => fst l =? "$self") (links_of r)).

(** What a parsed [Corrieneuch.QueryOptions] answers: [page('number')],
    [filter()], [fieldsFor('$self')], [sort()] and [include()]. *)
Record options : Type := {
  page : Z * Z;
  opt_filter : value;
  fieldsFor_self : option (list string);
  sort : option (list (string * Z));
  include : option (list string)
}.

(** [Math.ceil(count / size)] for a positive page size. *)
Definition ceil_div (count size : Z) : Z := ((count + size - 1) / size)%Z.

(** [if (query.attributes && query.attributes.indexOf('id') === -1)
    query.attributes.push('id')]. *)
Definition push_id (attributes : option (list string)) : option (list string) :=
  match attributes with
  | Some fields =>
      if existsb (String.eqb "id") fields then Some fields
      else Some (fields ++ ["id"])%list
  | None => None
  end.

(** [value == null ? absent : value], an entry under [_.pickBy]. *)
Definition pick (v : value) : option value :=
  if nullish v then None else Some v.

(** [payload.attributes]. *)
Definition attributes_of (payload : value) : result value :=
  if nullish payload then Throw TypeError
  else Ok (get_prop payload "attributes").

(** [isLength] of the library lodash: a whole number from 0 to
    [Number.MAX_SAFE_INTEGER]. *)
Definition isLength (n : Z) : bool :=
  (0 <=? n)%Z && (n <=? 9007199254740991)%Z.

(** The names of a list, each at its first place. *)
Fixpoint first_places (seen names : list string) : list string :=
  match names with
  | [] => []
  | name :: rest =>
      if existsb (String.eqb name) seen then first_places seen rest
      else name :: first_places (name :: seen) rest
  end.

Module DbResourceCollection.

Section Collection.

(** [filtr(constraints).test(attributes, {type: 'single'})], of the
    library filtr. *)
Variable filtr_test : value -> value -> bool.

(** [options.clone({page: {number: n}}).toString()]. *)
Variable query_string : options -> Z -> string.

(** The relationships the collection is constructed with: name to
    [relationship] and [link]. *)
Variable relationships : list (string * (value * string)).

(** [this._getInclude(options, field)], before [field] is taken of each:
    the relationships registered under the names asked for, in the order of
    the names, each name at its first place. [None] is the [null] it
    returns. A name is looked up among the relationships given to the
    constructor only: what [_.pick] finds for a name that every object
    inherits ([toString]) or for a path ([author.link]) is not covered. *)
Definition _getInclude (o : options)
  : option (list (string * (value * string))) :=
  match include o with
  | Some names =>
      Some (flat_map (fun name => match lookup name relationships with
                                  | Some r => [(name, r)]
                                  | None => []
                                  end)
                     (first_places [] names))
  | None => None
  end.

(** [_.values(this._getInclude(options, 'relationship'))]. *)
Definition includeRelationships (o : options) : list value :=
  match _getInclude o with
  | Some picked => map (fun kv => fst (snd kv)) picked
  | None => []
  end.

(** [_.map(sort, (direction, key) => [key, direction === 1 ? 'ASC' : 'DESC'])].
    The library walks an object whose [length] is a count, a whole number
    from 0 to 2^53 - 1, as it walks an array: through the indices below the
    length, with what the object holds under each index; the key handed to
    the function is then the index, a number, written here in decimal. Any
    other object is walked through its own keys. *)
Definition _getSortOptions (o : options) : option (list (string * string)) :=
  match sort o with
  | Some s =>
      Some (if match lookup "length" s with
               | Some n => isLength n
               | None => false
               end
            then
              map (fun i => (index_key i,
                             match lookup (index_key i) s with
                             | Some direction =>
                                 if (direction =? 1)%Z then "ASC" else "DESC"
                             | None => "DESC"
                             end))
                  (seq 0 (Z.to_nat (match lookup "length" s with
                                    | Some n => n
                                    | None => 0%Z
                                    end)))
            else
              map (fun kd => (fst kd, if (snd kd =? 1)%Z then "ASC" else "DESC"))
                  s)
  | None => None
  end.

Definition _getPageLinks (url : string) (o : options) (pageNumber pageCount : Z)
  : list (string * string) :=
  let first := ("$first", url ++ query_string o 1) in
  let last := ("$last", url ++ query_string o pageCount) in
  let previous :=
    if (1 <? pageNumber)%Z
    then [("$previous", url ++ query_string o (pageNumber - 1))] else [] in
  let next :=
    if (pageNumber <? pageCount)%Z
    then [("$next", url ++ query_string o (pageNumber + 1))] else [] in
  (first :: last :: previous ++ next)%list.

(** The options [list] finds with. *)
Definition list_query (fuel : nat) (o : options) (filter : value)
  : result query :=
  where_ <- translateFilter fuel (opt_filter o) filter ;;
  Ok {| q_limit := Some (snd (page o));
        q_offset := Some ((fst (page o) - 1) * snd (page o))%Z;
        q_where := pick where_;
        q_attributes := push_id (fieldsFor_self o);
        q_order := _getSortOptions o;
        q_include := Some (includeRelationships o) |}.

(** [{id, ...filter}]. *)
Definition id_where (id filter : value) : value :=
  VObj (spread [("id", id)] filter).

(** The options [get] finds with. *)
Definition get_query (id : value) (o : options) (filter : value) : query :=
  {| q_limit := None;
     q_offset := None;
     q_where := Some (id_where id filter);
     q_attributes := push_id (fieldsFor_self o);
     q_order := None;
     q_include := Some (includeRelationships o) |}.

(** [get(url, id, options, filter)]; [None] is the [null] it returns. The
    conversion of eager-loaded relations, which runs when the options
    include a registered relationship, is left out. *)
Definition get (url : string) (id : value) (o : options) (filter : value)
  : io (option resource) :=
  result <~ findOne (get_query id o filter) ;;
  match result with
  | None => ret None
  | Some r => ret (Some (Resource (url ++ "/" ++ to_string id) r))
  end.

(** [if (constraints) { ... throw new Error('constraint violation') }]. *)
Definition check (constraints attributes : value) : io unit :=
  if truthy constraints then
    if negb (filtr_test constraints attributes)
    then throw ConstraintViolation
    else ret tt
  else ret tt.

(** [create(url, payload, constraints)]. *)
Definition create (url : string) (payload constraints : value) : io resource :=
  attributes <~ lift (attributes_of payload) ;;
  _ <~ check constraints attributes ;;
  entity <~ model_create (spread [] attributes) ;;
  ret (Resource (url ++ "/<%=id>") entity).

(** [update(url, id, payload, constraints)]. *)
Definition update (url : string) (id payload constraints : value)
  : io (option resource) :=
  attributes <~ lift (attributes_of payload) ;;
  _ <~ check constraints attributes ;;
  answer <~ model_update (own_props attributes) (id_where id constraints) ;;
  counted <~ match answer with
             | WithRows nrows results => ret (nrows, hd_error results)
             | CountOnly nrows =>
                 found <~ findOne {| q_limit := None; q_offset := None;
                                     q_where := Some (VObj [("id", id)]);
                                     q_attributes := None; q_order := None;
                                     q_include := None |} ;;
                 ret (nrows, found)
             end ;;
  if (fst counted =? 0)%Z then ret None
  else match snd counted with
       | Some r => ret (Some (Resource url r))
       | None => throw TypeError
       end.

(** [delete(id, filter)]. *)
Definition delete (id filter : value) : io Z :=
  model_destroy (id_where id filter).

(** [list(url, options, filter)], without the conversion of eager-loaded
    relations. *)
Definition list (fuel : nat) (url : string) (o : options) (filter : value)
  : io resource :=
  query <~ lift (list_query fuel o filter) ;;
  found <~ findAndCountAll query ;;
  let pageCount := ceil_div (snd found) (snd (page o)) in
  let elements := map (fun user => Resource (url ++ "/<%=id%>") user) (fst found) in
  let m := {| count := snd found; page_number := fst (page o);
              page_size := snd (page o); page_count := pageCount |} in
  ret (Collection (("$self", url) :: _getPageLinks url o (fst (page o)) pageCount)
                  elements m).

End Collection.

End DbResourceCollection.

(** ** The rewriting the specification describes *)

(** A leaf [{field: {$like: pattern}}] with a pattern that is not empty
    becomes the comparison of the lower-cased column with the lower-cased
    pattern; any other leaf stays. *)
Definition like_leaf (k : string) (v : value) : value :=
  match v with
  | VObj [(op, VStr p)] =>
      if (op =? "$like") && negb (p =? "") then lower_like k (lower p) else v
  | _ => v
  end.

(** The children of a combinator rewritten by [rw]; a value that is no list
    stays. *)
Definition children (rw : value -> value) (v : value) : value :=
  match v with
  | VArr items => VArr (map rw items)
  | _ => v
  end.

(** The entry [k': v] after the children under the key [k] are rewritten. *)
Definition at_key (k : string) (rw : value -> value) (k' : string) (v : value)
  : value :=
  if k' =? k then children rw v else v.

Definition rewritten_entry (rw : value -> value) (k : string) (v : value)
  : value :=
  if (k =? "$and") || (k =? "$or") then children rw v else like_leaf k v.

(** The filter with the children of [$and] and [$or] rewritten in turn and
    every leaf rewritten by [like_leaf]. *)
Fixpoint rewritten (filter : value) : value :=
  match filter with
  | VObj ps =>
      VObj (map (fun kv => (fst kv, rewritten_entry rewritten (fst kv) (snd kv))) ps)
  | _ => filter
  end.

(** A FilterPredicate tree: an object that lists each key once and whose
    [$and] and [$or] lists hold such trees. *)
Inductive filter_tree : value -> Prop :=
| filter_node (ps : props) :
    NoDup (map fst ps) ->
    (forall k items,
        k = "$and" \/ k = "$or" ->
        lookup k ps = Some (VArr items) ->
        Forall filter_tree items) ->
    filter_tree (VObj ps).

Definition is_string (v : value) : bool :=
  match v with
  | VStr _ => true
  | _ => false
  end.

(** A leaf the loop takes: no object, or an object of at most one operator
    whose [$like], when JavaScript takes it for true, is a string. *)
Definition simple_leaf (v : value) : bool :=
  match v with
  | VObj [] => true
  | VObj [(op, x)] => negb (op =? "$like") || negb (truthy x) || is_string x
  | VObj _ => false
  | _ => true
  end.

(** A filter the translation goes through: no [$not], lists of such filters
    under [$and] and [$or], and leaves the loop takes. *)
Inductive translatable : value -> Prop :=
| translatable_node (ps : props) :
    truthy (prop ps "$not") = false ->
    (forall k v,
        k = "$and" \/ k = "$or" ->
        lookup k ps = Some v ->
        truthy v = true ->
        exists items, v = VArr items /\ Forall translatable items) ->
    Forall (fun kv => simple_leaf (snd kv) = true) ps ->
    translatable (VObj ps).

(** A filter with a compound leaf, at the top or among the children of
    [$and] and [$or]: a field whose value is an object of more than one
    operator. *)
Inductive has_compound : value -> Prop :=
| compound_here (ps q : props) (k : string) :
    lookup k ps = Some (VObj q) ->
    1 < length q ->
    has_compound (VObj ps)
| compound_child (ps : props) (k : string) (items : list value) (c : value) :
    k = "$and" \/ k = "$or" ->
    lookup k ps = Some (VArr items) ->
    In c items ->
    has_compound c ->
    has_compound (VObj ps).



(** ** Example data *)

(** Modelled from the spec: the point-wise equality test of a constraint map
    against one record; the library filtr is outside the repository. The
    operations take the test as a parameter, this one serves the examples. *)
Definition filtr_equal (constraints attributes : value) : bool :=
  forallb (fun kv => scalar_eqb (get_prop attributes (fst kv)) (snd kv))
          (own_props constraints).

Definition fred : row :=
  [("id", VNum 1); ("name", VStr "Fred Flintstone");
   ("email", VStr "fred@gmail.com"); ("groupId", VNum 1)].

Definition wilma : row :=
  [("id", VNum 2); ("name", VStr "Wilma Flintstone");
   ("email", VStr "wilma@gmail.com"); ("groupId", VNum 2)].

(** A table with the two users of the test suite. *)
Definition users : db :=
  {| rows := [fred; wilma]; next_id := 3; returning := true; calls := [] |}.

Definition no_users : db :=
  {| rows := []; next_id := 1; returning := true; calls := [] |}.

(** The first page of ten, nothing else asked for. *)
Definition first_page : options :=
  {| page := (1, 10)%Z; opt_filter := VUndef; fieldsFor_self := None;
     sort := None; include := None |}.

Definition filtered (filter : value) (fields : option (list string)) : options :=
  {| page := (1, 10)%Z; opt_filter := filter; fieldsFor_self := fields;
     sort := None; include := None |}.

(** A filter with a leaf to rewrite at the top and one among the children
    of [$or]. *)
Definition wilma_or_fred : value :=
  VObj [("name", VObj [("$like", VStr "Wilma%")]);
        ("$or", VArr [VObj [("email", VObj [("$like", VStr "FRED@%")])];
                      VObj [("groupId", VNum 2)]])].

(** A query string for the page links of the examples; the serialization of
    the options is outside the repository. *)
Definition page_query (o : options) (n : Z) : string :=
  "?page[number]=" ++ to_string (VNum n).

(** ** The filter as objects in a store *)

(** [translateFilter] writes on the objects it is given. To follow which
    object is written and which one is handed back, values are here
    references into a store of cells, and the translation is a computation
    on the store. *)

Definition loc : Type := nat.

Inductive hval : Type :=
| HUndef
| HNull
| HBool (b : bool)
| HNum (n : Z)
| HStr (s : string)
| HRef (l : loc).

Inductive cell : Type :=
| CObj (ps : list (string * hval))
| CArr (items : list hval)
| CCol (col : string)
| CFn (fn : string) (args : hval)
| CWhere (attribute : hval) (comparator : string) (logic : hval).

Definition heap : Type := list cell.

Definition truthy_h (v : hval) : bool :=
  match v with
  | HUndef | HNull => false
  | HBool b => b
  | HNum n => negb (n =? 0)%Z
  | HStr s => negb (s =? "")
  | HRef _ => true
  end.

Definition hprop (ps : list (string * hval)) (k : string) : hval :=
  match lookup k ps with
  | Some v => v
  | None => HUndef
  end.

Definition cell_at (h : heap) (v : hval) : option cell :=
  match v with
  | HRef l => nth_error h l
  | _ => None
  end.

Definition own_props_h (c : cell) : list (string * hval) :=
  match c with
  | CObj ps => ps
  | CArr items => indexed items
  | CCol c => [("col", HStr c)]
  | CFn f args => [("fn", HStr f); ("args", args)]
  | CWhere a c l => [("attribute", a); ("comparator", HStr c); ("logic", l)]
  end.

Definition with_props_h (c : cell) (ps : list (string * hval)) : cell :=
  match c with
  | CObj _ => CObj ps
  | CArr _ => CArr (map snd ps)
  | CWhere _ _ _ =>
      CWhere (hprop ps "attribute")
             (match hprop ps "comparator" with HStr c => c | _ => "" end)
             (hprop ps "logic")
  | _ => c
  end.

(** [v.k] for a key [k] that is no index and not [length]. *)
Definition get_h (h : heap) (v : hval) (k : string) : hval :=
  match cell_at h v with
  | Some (CArr _) | None => HUndef
  | Some c => hprop (own_props_h c) k
  end.

(** [v[k]] for a key [k] that [for ... in] hands out. *)
Definition own_h (h : heap) (v : hval) (k : string) : hval :=
  match cell_at h v with
  | Some c => hprop (own_props_h c) k
  | None => HUndef
  end.

(** [v[i]] on an array. *)
Definition element_h (h : heap) (v : hval) (i : nat) : hval :=
  match cell_at h v with
  | Some (CArr items) => nth i items HUndef
  | _ => HUndef
  end.

Fixpoint replace_nth {A : Type} (n : nat) (x : A) (l : list A) : list A :=
  match l, n with
  | [], _ => []
  | _ :: rest, O => x :: rest
  | y :: rest, S n' => y :: replace_nth n' x rest
  end.

Definition read {A : Type} (f : heap -> A) : stateful heap A :=
  fun h => (Ok (f h), h).

(** A new object: a cell at the end of the store. *)
Definition alloc (c : cell) : stateful heap hval :=
  fun h => (Ok (HRef (length h)), (h ++ [c])%list).

(** [v[k] = x]: the cell [v] refers to is written in place. *)
Definition set_h (v : hval) (k : string) (x : hval) : stateful heap unit :=
  fun h =>
    match v with
    | HRef l =>
        match nth_error h l with
        | Some c =>
            (Ok tt,
             replace_nth l (with_props_h c (assign k x (own_props_h c))) h)
        | None => (Ok tt, h)
        end
    | _ => (Ok tt, h)
    end.

Section MapM.

Context {St A B : Type}.
Variable f : A -> stateful St B.

Fixpoint mapM_io (xs : list A) : stateful St (list B) :=
  match xs with
  | [] => ret []
  | x :: rest =>
      y <~ f x ;;
      ys <~ mapM_io rest ;;
      ret (y :: ys)
  end.

End MapM.

Definition toLowerCase_h (v : hval) : result string :=
  match v with
  | HStr s => Ok (lower s)
  | _ => Throw TypeError
  end.

(** [v.map(f)]: a new array of what [f] answers for the elements of [v], each
    read when its turn comes. *)
Definition array_map_h (f : hval -> stateful heap hval) (v : hval)
  : stateful heap hval :=
  c <~ read (fun h => cell_at h v) ;;
  match c with
  | Some (CArr items) =>
      items' <~ mapM_io (fun i => x <~ read (fun h => element_h h v i) ;; f x)
                        (seq 0 (length items)) ;;
      alloc (CArr items')
  | _ => throw TypeError
  end.

(** The properties of [v] when it is a plain object. *)
Definition plain_h (h : heap) (v : hval) : option (list (string * hval)) :=
  match cell_at h v with
  | Some (CObj ps) => Some ps
  | _ => None
  end.

(** The loop [for (let k in filter) { ... }] over the keys [ks]. *)
Fixpoint for_in_h (ks : list string) (filter : hval) : stateful heap unit :=
  match ks with
  | [] => ret tt
  | k :: ks' =>
      value <~ read (fun h => own_h h filter k) ;;
      plain <~ read (fun h => plain_h h value) ;;
      match plain with
      | Some ps =>
          if (1 <? length ps)%nat then throw (TooComplex k)
          else if truthy_h (hprop ps "$like") then
            col <~ alloc (CCol k) ;;
            args <~ alloc (CArr [col]) ;;
            fn <~ alloc (CFn "lower" args) ;;
            s <~ lift (toLowerCase_h (hprop ps "$like")) ;;
            logic <~ alloc (CObj [("$like", HStr s)]) ;;
            w <~ alloc (CWhere fn "=" logic) ;;
            _ <~ set_h filter k w ;;
            for_in_h ks' filter
          else for_in_h ks' filter
      | None => for_in_h ks' filter
      end
  end.

Definition keys_h (h : heap) (v : hval) : list string :=
  match cell_at h v with
  | Some c => map fst (own_props_h c)
  | None => []
  end.

Definition rewrite_leaves_h (filter : hval) : stateful heap unit :=
  ks <~ read (fun h => keys_h h filter) ;;
  for_in_h ks filter.

Definition rewrite_children_h (translate : hval -> stateful heap hval)
    (k : string) (filter : hval) : stateful heap unit :=
  v <~ read (fun h => get_h h filter k) ;;
  if truthy_h v then
    children <~ array_map_h translate v ;;
    set_h filter k children
  else ret tt.

(** [translateFilter(filter, extra)] on the store. *)
Fixpoint translateFilterH (fuel : nat) (filter extra : hval)
  : stateful heap hval :=
  match fuel with
  | O => lift OutOfFuel
  | S fuel' =>
      if negb (truthy_h filter) then ret extra
      else
        let translate := fun child => translateFilterH fuel' child HUndef in
        _ <~ rewrite_children_h translate "$and" filter ;;
        _ <~ rewrite_children_h translate "$or" filter ;;
        not_ <~ read (fun h => get_h h filter "$not") ;;
        _ <~ (if truthy_h not_ then
                r <~ translateFilterH fuel' filter HUndef ;;
                set_h filter "$not" r
              else ret tt) ;;
        _ <~ rewrite_leaves_h filter ;;
        if truthy_h extra then
          both <~ alloc (CArr [filter; extra]) ;;
          alloc (CObj [("$and", both)])
        else ret filter
  end.

(** The tree a value of the store stands for, read to the depth [fuel]. *)
Fixpoint all {A : Type} (xs : list (option A)) : option (list A) :=
  match xs with
  | [] => Some []
  | Some x :: rest => option_map (cons x) (all rest)
  | None :: _ => None
  end.

Fixpoint reify (fuel : nat) (h : heap) (v : hval) : option value :=
  match v with
  | HUndef => Some VUndef
  | HNull => Some VNull
  | HBool b => Some (VBool b)
  | HNum n => Some (VNum n)
  | HStr s => Some (VStr s)
  | HRef l =>
      match fuel with
      | O => None
      | S fuel' =>
          match nth_error h l with
          | Some (CObj ps) =>
              option_map VObj
                (all (map (fun kv => option_map (pair (fst kv))
                                                (reify fuel' h (snd kv))) ps))
          | Some (CArr items) =>
              option_map VArr (all (map (reify fuel' h) items))
          | Some (CCol c) => Some (VCol c)
          | Some (CFn f a) =>
              match reify fuel' h a with
              | Some (VArr args) => Some (VFn f args)
              | _ => None
              end
          | Some (CWhere a c l) =>
              match reify fuel' h a, reify fuel' h l with
              | Some a', Some l' => Some (VWhere a' c l')
              | _, _ => None
              end
          | None => None
          end
      end
  end.

(** A tree laid out in the store, each object in a cell of its own. *)
Fixpoint store (v : value) : stateful heap hval :=
  match v with
  | VUndef => ret HUndef
  | VNull => ret HNull
  | VBool b => ret (HBool b)
  | VNum n => ret (HNum n)
  | VStr s => ret (HStr s)
  | VArr items =>
      refs <~ mapM_io store items ;;
      alloc (CArr refs)
  | VObj ps =>
      refs <~ mapM_io (fun kv => x <~ store (snd kv) ;; ret (fst kv, x)) ps ;;
      alloc (CObj refs)
  | VCol c => alloc (CCol c)
  | VFn f args =>
      refs <~ mapM_io store args ;;
      a <~ alloc (CArr refs) ;;
      alloc (CFn f a)
  | VWhere a c l =>
      a' <~ store a ;;
      l' <~ store l ;;
      alloc (CWhere a' c l')
  end.

(** The store [h'] is [h] with new cells after it and no cell written but
    the one at [l]. *)
Definition frame (l : loc) (h h' : heap) : Prop :=
  length h <= length h'
  /\ forall i, i < length h -> i <> l -> nth_error h' i = nth_error h i.

(** The five cells [Sequelize.where(Sequelize.fn('lower', Sequelize.col(k)),
    {$like: s})] allocates, the first at [i]. *)
Definition lower_like_cells (k s : string) (i : loc) : list cell :=
  [CCol k; CArr [HRef i]; CFn "lower" (HRef (i + 1));
   CObj [("$like", HStr s)]; CWhere (HRef (i + 2)) "=" (HRef (i + 3))].

(** The store after one rewriting turn of the loop: the new node, and the
    object at [l] with the node under its key [k]. *)
Definition rewrite_at (l : loc) (k s : string) (h : heap) : heap :=
  let h' := (h ++ lower_like_cells k s (length h))%list in
  match nth_error h' l with
  | Some c =>
      replace_nth l
        (with_props_h c (assign k (HRef (length h + 4)) (own_props_h c))) h'
  | None => h'
  end.

(** The cells from [i] on are those of the node [lower_like k s]. *)
Definition is_lower_like (h : heap) (i : loc) (k s : string) : Prop :=
  forall j c, nth_error (lower_like_cells k s i) j = Some c ->
              nth_error h (i + j) = Some c.

(** The filter [{name: {$like: 'Wilma%'}}] in a store: the leaf at 0, the
    filter object at 1. *)
Definition like_wilma_store : heap :=
  [CObj [("$like", HStr "Wilma%")]; CObj [("name", HRef 0)]].

(** The filter [{name: 'Wilma Flintstone'}] in a store. *)
Definition named_wilma_store : heap :=
  [CObj [("name", HStr "Wilma Flintstone")]].

(** The kind of object a cell holds. *)
Inductive kind : Type := KObj | KArr | KCol | KFn | KWhere.

Definition kind_of (c : cell) : kind :=
  match c with
  | CObj _ => KObj
  | CArr _ => KArr
  | CCol _ => KCol
  | CFn _ _ => KFn
  | CWhere _ _ _ => KWhere
  end.

Definition is_object (h : heap) (w : loc) : Prop :=
  exists ps, nth_error h w = Some (CObj ps).

(** What a computation on the store may do to a cell of the store [h] it
    starts from, [h'] being the store it ends in: the cell keeps its kind and
    its keys, and each property keeps its value or, where it held a
    reference, now refers to a cell that was not in [h] and is no plain
    object. *)
Definition cell_evolves (h h' : heap) (c c' : cell) : Prop :=
  kind_of c' = kind_of c
  /\ map fst (own_props_h c') = map fst (own_props_h c)
  /\ forall k,
       hprop (own_props_h c') k = hprop (own_props_h c) k
       \/ exists lo w,
            hprop (own_props_h c) k = HRef lo
            /\ hprop (own_props_h c') k = HRef w
            /\ length h <= w
            /\ w < length h'
            /\ ~ is_object h' w.

(** In place: the store [h'] holds every cell of [h] at its place, evolved,
    and new cells after them. *)
Definition evolves (h h' : heap) : Prop :=
  length h <= length h'
  /\ forall l c, nth_error h l = Some c ->
                 exists c', nth_error h' l = Some c' /\ cell_evolves h h' c c'.

(** ** Leaves the loop refuses *)

(** A compound leaf: an object of more than one operator. *)
Definition compound_leaf (v : value) : bool :=
  match v with
  | VObj (_ :: _ :: _) => true
  | _ => false
  end.

(** A filter without [$not] whose [$and] and [$or] hold lists of such
    filters, and whose leaves the loop either takes or refuses as too
    complex: no [$like] comes with a pattern that is no string. *)
Inductive well_formed : value -> Prop :=
| well_formed_node (ps : props) :
    truthy (prop ps "$not") = false ->
    (forall k v,
        k = "$and" \/ k = "$or" ->
        lookup k ps = Some v ->
        truthy v = true ->
        exists items, v = VArr items /\ Forall well_formed items) ->
    Forall (fun kv => simple_leaf (snd kv) || compound_leaf (snd kv) = true) ps ->
    well_formed (VObj ps).

(** A filter with a compound leaf among the children of [$or]. *)
Definition fred_or_young : value :=
  VObj [("$or", VArr [VObj [("name", VStr "Fred")];
                      VObj [("age", VObj [("$gt", VNum 1); ("$lt", VNum 9)])]])].

(** The filter [{name: {$like: 'W%'}, age: {$gt: 1, $lt: 9}}] in a store:
    the two leaves at 0 and 1, the filter object at 2. *)
Definition like_then_compound_store : heap :=
  [CObj [("$like", HStr "W%")];
   CObj [("$gt", HNum 1); ("$lt", HNum 9)];
   CObj [("name", HRef 0); ("age", HRef 1)]].

(** Pages of one row, nothing else asked for. *)
Definition one_per_page : options :=
  {| page := (1, 1)%Z; opt_filter := VUndef; fieldsFor_self := None;
     sort := None; include := None |}.

(** The first page of ten with the fields [name] alone and the rows sorted
    by name, then by e-mail address from the last. *)
Definition names_sorted : options :=
  {| page := (1, 10)%Z; opt_filter := VUndef; fieldsFor_self := Some ["name"];
     sort := Some [("name", 1%Z); ("email", (-1)%Z)]; include := None |}.

(** The first page of ten, sorted by a field named [length], upwards. *)
Definition by_length : options :=
  {| page := (1, 10)%Z; opt_filter := VUndef; fieldsFor_self := None;
     sort := Some [("length", 1%Z)]; include := None |}.

(** Pages of one row, sorted by name from the last. *)
Definition by_name_descending : options :=
  {| page := (1, 1)%Z; opt_filter := VUndef; fieldsFor_self := None;
     sort := Some [("name", (-1)%Z)]; include := None |}.

(** The table of the two users behind an engine that answers an update
    with the count alone. *)
Definition users_count_only : db :=
  {| rows := [fred; wilma]; next_id := 3; returning := false; calls := [] |}.

(** ** Eager-loaded relations *)

(** Modelled from the spec: what an attribute of a resource holds when the
    engine has loaded relations with the row; the instances of a model are
    outside the repository. An attribute is a value that holds no instance,
    an instance of a model with the data its [get()] hands out, a plain
    object of such attributes, which is what [get()] returns, or an array. *)
Inductive loaded : Type :=
| Plain (v : value)
| Instance (dataValues : list (string * loaded))
| Object (fields : list (string * loaded))
| Many (items : list loaded).

(** A resource under conversion: its attributes, and the calls
    [addLink(name, link)] made on it so far, in their order. What a link
    becomes inside the resource is outside the repository. *)
Record converting : Type := {
  loaded_attributes : list (string * loaded);
  added_links : list (string * string)
}.

(** [resource.attributes[k]]. *)
Definition attribute (attributes : list (string * loaded)) (k : string)
  : loaded :=
  match lookup k attributes with
  | Some v => v
  | None => Plain VUndef
  end.

(** [value == null]. *)
Definition is_null (v : loaded) : bool :=
  match v with
  | Plain v => nullish v
  | _ => false
  end.

(** [Array.isArray(value)]. *)
Definition isArray (v : loaded) : bool :=
  match v with
  | Many _ | Plain (VArr _) => true
  | _ => false
  end.

(** The elements of an array. *)
Definition elements_of (v : loaded) : list loaded :=
  match v with
  | Many items => items
  | Plain (VArr items) => map Plain items
  | _ => []
  end.

(** [v.get()]: only an instance has it. *)
Definition instance_get (v : loaded) : result loaded :=
  match v with
  | Instance dataValues => Ok (Object dataValues)
  | _ => Throw TypeError
  end.

(** One turn of the loop of [_convertFromInstance], for the key [k] of
    [includeLinks] and the link under it. *)
Definition convert_key (k link : string) : stateful converting unit :=
  fun resource =>
    let value := attribute (loaded_attributes resource) k in
    if is_null value then (Ok tt, resource)
    else
      match (if isArray value
             then items <- mapM instance_get (elements_of value) ;;
                  Ok (Many items)
             else instance_get value) with
      | Ok converted =>
          (Ok tt,
           {| loaded_attributes :=
                assign k converted (loaded_attributes resource);
              added_links := (added_links resource ++ [(k, link)])%list |})
      | Throw e => (Throw e, resource)
      | OutOfFuel => (OutOfFuel, resource)
      end.

(** [this._convertFromInstance(resource, includeLinks)]. *)
Fixpoint _convertFromInstance (includeLinks : list (string * string))
  : stateful converting unit :=
  match includeLinks with
  | [] => ret tt
  | (k, link) :: rest =>
      _ <~ convert_key k link ;;
      _convertFromInstance rest
  end.

(** An attribute the conversion takes: an instance, or an array of
    instances. *)
Definition convertible (v : loaded) : bool :=
  match v with
  | Instance _ => true
  | Many items =>
      forallb (fun x => match x with Instance _ => true | _ => false end) items
  | Plain (VArr []) => true
  | _ => false
  end.

(** What [get()] hands out for an attribute the conversion takes. *)
Definition converted (v : loaded) : loaded :=
  match v with
  | Instance dataValues => Object dataValues
  | Many items =>
      Many (map (fun x => match x with
                          | Instance dataValues => Object dataValues
                          | _ => x
                          end) items)
  | Plain (VArr _) => Many []
  | _ => v
  end.

(** A user loaded with the group they belong to and the posts they wrote;
    no manager is loaded. *)
Definition fred_loaded : converting :=
  {| loaded_attributes :=
       [("id", Plain (VNum 1));
        ("name", Plain (VStr "Fred Flintstone"));
        ("group", Instance [("id", Plain (VNum 1));
                            ("name", Plain (VStr "Quarry"))]);
        ("manager", Plain VNull);
        ("posts", Many [Instance [("id", Plain (VNum 4))];
                        Instance [("id", Plain (VNum 5))]])];
     added_links := [] |}.

(** The links of the relations asked for with this user. *)
Definition fred_links : list (string * string) :=
  [("group", "/groups/<%=groupId%>");
   ("manager", "/users/<%=managerId%>");
   ("posts", "/users/<%=id%>/posts")].

(** The filter [{name: {$like: 'Wilma%'}}] and the constraint
    [{groupId: 2}] in a store: the leaf at 0, the filter object at 1, the
    constraint at 2. *)
Definition like_wilma_constrained_store : heap :=
  [CObj [("$like", HStr "Wilma%")]; CObj [("name", HRef 0)];
   CObj [("groupId", HNum 2)]].

(** ** The pages of a collection *)

(** Modelled from the spec: [options.clone({page: {number: n}})], the
    options with the page number alone replaced, as the page links carry
    them; the query options are outside the repository. *)
Definition on_page (o : options) (n : Z) : options :=
  {| page := (n, snd (page o)); opt_filter := opt_filter o;
     fieldsFor_self := fieldsFor_self o; sort := sort o;
     include := include o |}.

(** [resource.elements]. *)
Definition resource_elements (r : resource) : list resource :=
  match r with
  | Collection _ elements _ => elements
  | Entity _ _ => []
  end.

(** ** A list call on the store *)

Section ListOnStore.

Variable query_string : options -> Z -> string.
Variable relationships : list (string * (value * string)).

(** [list] from the point where the [where] clause is known: the query,
    the call on the model and the resource, as in
    [DbResourceCollection.list]. *)
Definition list_from (url : string) (o : options) (where_ : value)
  : io resource :=
  let query :=
    {| q_limit := Some (snd (page o));
       q_offset := Some ((fst (page o) - 1) * snd (page o))%Z;
       q_where := pick where_;
       q_attributes := push_id (fieldsFor_self o);
       q_order := DbResourceCollection._getSortOptions o;
       q_include :=
         Some (DbResourceCollection.includeRelationships relationships o) |} in
  found <~ findAndCountAll query ;;
  let pageCount := ceil_div (snd found) (snd (page o)) in
  let elements :=
    map (fun user => Resource (url ++ "/<%=id%>") user) (fst found) in
  let m := {| count := snd found; page_number := fst (page o);
              page_size := snd (page o); page_count := pageCount |} in
  ret (Collection
         (("$self", url)
            :: DbResourceCollection._getPageLinks query_string url o
                 (fst (page o)) pageCount)
         elements m).

(** [list(url, options, filter)] where the filter of the caller's options
    is an object of the store: [options.filter()] hands out the reference
    [user_filter], the translation works on the store, and the engine is
    given the clause that the reference handed back stands for. The other
    accessors of the options are those of [o]. A clause that has no end is
    not read. *)
Definition listH (fuel : nat) (url : string) (o : options)
    (user_filter filter : hval) : stateful (heap * db) resource :=
  fun s =>
    match translateFilterH fuel user_filter filter (fst s) with
    | (Ok w, h') =>
        match reify (S (length h')) h' w with
        | Some where_ =>
            (fst (list_from url o where_ (snd s)),
             (h', snd (list_from url o where_ (snd s))))
        | None => (OutOfFuel, (h', snd s))
        end
    | (Throw e, h') => (Throw e, (h', snd s))
    | (OutOfFuel, h') => (OutOfFuel, (h', snd s))
    end.

End ListOnStore.


(** * Properties *)

(** ** Results and property lists *)

#[local] Arguments String.eqb : simpl never.

Lemma bind_Ok {A B : Type} (r : result A) (f : A -> result B) (b : B) :
  bind r f = Ok b -> exists a, r = Ok a /\ f a = Ok b.
Proof. destruct r; simpl; intros H; try discriminate. eauto. Qed.

Lemma lookup_assign_same {V : Type} (k : string) (v : V)
    (ps : list (string * V)) :
  lookup k (assign k v ps) = Some v.
Proof.
  induction ps as [|[k' v'] ps IH]; simpl.
  - now rewrite String.eqb_refl.
  - destruct (k =? k') eqn:E; simpl.
    + now rewrite String.eqb_refl.
    + now rewrite E.
Qed.

Lemma lookup_assign_other {V : Type} (k k' : string) (v : V)
    (ps : list (string * V)) :
  k <> k' -> lookup k' (assign k v ps) = lookup k' ps.
Proof.
  intros N. induction ps as [|[k0 v0] ps IH]; simpl.
  - apply String.eqb_neq in N. rewrite String.eqb_sym in N. now rewrite N.
  - destruct (k =? k0) eqn:E; simpl.
    + apply String.eqb_eq in E. subst k0.
      assert ((k' =? k) = false) as -> by (apply String.eqb_neq; congruence).
      reflexivity.
    + now rewrite IH.
Qed.

Lemma keys_assign {V : Type} (k : string) (v x : V) (ps : list (string * V)) :
  lookup k ps = Some x -> map fst (assign k v ps) = map fst ps.
Proof.
  induction ps as [|[k0 v0] ps IH]; simpl; [discriminate|].
  destruct (k =? k0) eqn:E; simpl.
  - apply String.eqb_eq in E. now subst.
  - intros H. now rewrite IH.
Qed.

Lemma lookup_app_fresh {V : Type} (k : string) (done rest : list (string * V)) :
  ~ In k (map fst done) -> lookup k (done ++ rest)%list = lookup k rest.
Proof.
  induction done as [|[k0 v0] done IH]; simpl; [reflexivity|].
  intros N. destruct (k =? k0) eqn:E.
  - apply String.eqb_eq in E. subst. tauto.
  - apply IH. tauto.
Qed.

Lemma assign_app_fresh {V : Type} (k : string) (v : V)
    (done rest : list (string * V)) :
  ~ In k (map fst done) ->
  assign k v (done ++ rest)%list = (done ++ assign k v rest)%list.
Proof.
  induction done as [|[k0 v0] done IH]; simpl; [reflexivity|].
  intros N. destruct (k =? k0) eqn:E.
  - apply String.eqb_eq in E. subst. tauto.
  - rewrite IH; tauto.
Qed.

Lemma lookup_In {V : Type} (k : string) (v : V) (ps : list (string * V)) :
  NoDup (map fst ps) -> In (k, v) ps -> lookup k ps = Some v.
Proof.
  induction ps as [|[k0 v0] ps IH]; simpl; [tauto|].
  intros D [E|I].
  - injection E as -> ->. now rewrite String.eqb_refl.
  - inversion D as [|? ? N D']; subst.
    destruct (k =? k0) eqn:E.
    + apply String.eqb_eq in E. subst. exfalso. apply N.
      change k0 with (fst (k0, v)). now apply in_map.
    + now apply IH.
Qed.

Lemma lookup_Some_In {V : Type} (k : string) (v : V) (ps : list (string * V)) :
  lookup k ps = Some v -> In k (map fst ps).
Proof.
  induction ps as [|[k0 v0] ps IH]; simpl; [discriminate|].
  destruct (String.eqb_spec k k0) as [->|N]; auto.
Qed.

(** On an object that lists each key once, an assignment to a key it has
    changes the entry of that key and no other. *)
Lemma assign_map (k : string) (x v : value) (ps : props) :
  NoDup (map fst ps) ->
  lookup k ps = Some v ->
  assign k x ps
  = map (fun kv => (fst kv, if fst kv =? k then x else snd kv)) ps.
Proof.
  induction ps as [|[k0 v0] ps IH]; simpl; [discriminate|].
  intros D H. inversion D as [|? ? N D']; subst.
  destruct (k =? k0) eqn:E.
  - apply String.eqb_eq in E. subst k0. rewrite String.eqb_refl. f_equal.
    clear IH H D. induction ps as [|[k1 v1] ps IH]; simpl; [reflexivity|].
    simpl in N. inversion D' as [|? ? N1 D1]; subst.
    assert ((k1 =? k) = false) as -> by (apply String.eqb_neq; tauto).
    f_equal. apply IH; tauto.
  - rewrite String.eqb_sym, E. f_equal. now apply IH.
Qed.

Lemma get_prop_set_prop_other (f : value) (k k' : string) (x : value) :
  k <> k' -> get_prop (set_prop f k x) k' = get_prop f k'.
Proof.
  intros N. destruct f; simpl; try reflexivity.
  unfold prop. simpl. now rewrite lookup_assign_other.
Qed.

(** ** The filter translator *)

Lemma translateFilter_S (fuel : nat) (filter extra : value) :
  translateFilter (S fuel) filter extra =
  if negb (truthy filter) then Ok extra
  else
    let translate := fun child => translateFilter fuel child VUndef in
    filter <- rewrite_children translate "$and" filter ;;
    filter <- rewrite_children translate "$or" filter ;;
    filter <- (if truthy (get_prop filter "$not") then
                 r <- translateFilter fuel filter VUndef ;;
                 Ok (set_prop r "$not" r)
               else Ok filter) ;;
    filter <- rewrite_leaves filter ;;
    if truthy extra then Ok (VObj [("$and", VArr [filter; extra])])
    else Ok filter.
Proof. reflexivity. Qed.

(** The filter and the constraint of the test suite. *)
Example translate_like :
  translateFilter 5 (VObj [("name", VObj [("$like", VStr "Wilma%")])])
                    (VObj [("groupId", VNum 2)])
  = Ok (VObj [("$and", VArr [VObj [("name", lower_like "name" "wilma%")];
                             VObj [("groupId", VNum 2)]])]).
Proof. reflexivity. Qed.

Lemma rewrite_children_keeps (tr : value -> result value) (k k' : string)
    (f f' : value) :
  rewrite_children tr k f = Ok f' -> k <> k' -> get_prop f' k' = get_prop f k'.
Proof.
  unfold rewrite_children. intros H N.
  destruct (truthy (get_prop f k)).
  - apply bind_Ok in H as (c & _ & H). injection H as <-.
    now apply get_prop_set_prop_other.
  - now injection H as <-.
Qed.

(** A node with a [$not] that JavaScript takes for true is handed to
    [translateFilter] again and again: no amount of fuel brings a result. *)
Lemma translateFilter_not_never_returns (fuel : nat) :
  forall filter extra r,
    truthy (get_prop filter "$not") = true ->
    translateFilter fuel filter extra <> Ok r.
Proof.
  induction fuel as [|fuel IH]; intros filter extra r T H; [discriminate|].
  rewrite translateFilter_S in H.
  destruct (truthy filter) eqn:TF.
  2:{ destruct filter; discriminate. }
  simpl in H.
  apply bind_Ok in H as (f1 & H1 & H).
  apply bind_Ok in H as (f2 & H2 & H).
  apply bind_Ok in H as (f3 & H3 & _).
  apply rewrite_children_keeps with (k' := "$not") in H1; [|discriminate].
  apply rewrite_children_keeps with (k' := "$not") in H2; [|discriminate].
  rewrite H2, H1, T in H3.
  apply bind_Ok in H3 as (r' & H3 & _).
  apply (IH f2 VUndef r'); [now rewrite H2, H1 | exact H3].
Qed.

Lemma mapM_Ok {A B : Type} (f : A -> result B) (g : A -> B) (xs : list A)
    (ys : list B) :
  Forall (fun x => forall y, f x = Ok y -> y = g x) xs ->
  mapM f xs = Ok ys -> ys = map g xs.
Proof.
  intros F. revert ys. induction F as [|x xs Hx F IH]; simpl; intros ys H.
  - now injection H as <-.
  - apply bind_Ok in H as (y & Hy & H).
    apply bind_Ok in H as (ys' & Hys & H).
    injection H as <-. f_equal; auto.
Qed.

(** What one turn of the loop leaves under the key [k], when it does not
    throw. *)
Lemma for_in_step (k : string) (ks : list string) (filter ps' : props) :
  for_in (k :: ks) filter = Ok ps' ->
  (like_leaf k (prop filter k) = prop filter k /\ for_in ks filter = Ok ps')
  \/ (like_leaf k (prop filter k) <> prop filter k
      /\ for_in ks (assign k (like_leaf k (prop filter k)) filter) = Ok ps').
Proof.
  simpl. destruct (prop filter k) as [| | | | |?|q|?|? ?|? ? ?] eqn:P;
    simpl; auto.
  destruct q as [|[op x] [|e q]]; simpl; auto; [|discriminate].
  unfold get_prop, prop. simpl.
  destruct ("$like" =? op) eqn:E.
  - apply String.eqb_eq in E. subst op. simpl.
    destruct x as [| |b|n|p|?|?|?|? ?|? ? ?]; simpl; auto; try discriminate.
    + destruct b; simpl; auto; discriminate.
    + destruct (n =? 0)%Z; simpl; auto; discriminate.
    + destruct (p =? "") eqn:EP; simpl; auto.
      intros H. right. split; [discriminate|exact H].
  - simpl. rewrite String.eqb_sym in E. intros H. left. split; [|exact H].
    destruct x; try reflexivity. now rewrite E.
Qed.

(** On an object that lists each key once the loop rewrites every entry by
    [like_leaf], in place. *)
Lemma for_in_spec (todo : props) :
  forall done ps',
    NoDup (map fst (done ++ todo)%list) ->
    for_in (map fst todo) (done ++ todo)%list = Ok ps' ->
    ps' = (done ++ map (fun kv => (fst kv, like_leaf (fst kv) (snd kv))) todo)%list.
Proof.
  induction todo as [|[k v] todo IH]; intros done ps' D H.
  - simpl in H. injection H as <-. reflexivity.
  - assert (N : ~ In k (map fst done)).
    { rewrite map_app in D. simpl in D. apply NoDup_remove_2 in D.
      intros I. apply D. apply in_or_app. now left. }
    assert (P : prop (done ++ (k, v) :: todo)%list k = v).
    { unfold prop. rewrite lookup_app_fresh by exact N. simpl.
      now rewrite String.eqb_refl. }
    simpl map in H. apply for_in_step in H. rewrite P in H. simpl.
    destruct H as [[L H]|[L H]].
    + rewrite L.
      change (done ++ (k, v) :: todo)%list
        with (done ++ [(k, v)] ++ todo)%list in H, D.
      rewrite app_assoc in H, D. apply IH in H; [|exact D].
      now rewrite <- app_assoc in H.
    + rewrite assign_app_fresh in H by exact N. simpl in H.
      rewrite String.eqb_refl in H.
      change (done ++ (k, like_leaf k v) :: todo)%list
        with (done ++ [(k, like_leaf k v)] ++ todo)%list in H.
      rewrite app_assoc in H. apply IH in H.
      * now rewrite <- app_assoc in H.
      * rewrite <- app_assoc. simpl. rewrite map_app in *. exact D.
Qed.

Lemma rewrite_children_spec (tr : value -> result value) (rw : value -> value)
    (k : string) (ps : props) (f : value) :
  NoDup (map fst ps) ->
  (forall items, lookup k ps = Some (VArr items) ->
                 Forall (fun x => forall y, tr x = Ok y -> y = rw x) items) ->
  rewrite_children tr k (VObj ps) = Ok f ->
  f = VObj (map (fun kv => (fst kv, at_key k rw (fst kv) (snd kv))) ps)
  /\ (forall v, lookup k ps = Some v ->
                (exists items, v = VArr items) \/ truthy v = false).
Proof.
  intros D F H. unfold rewrite_children, get_prop, prop in H. simpl in H.
  destruct (lookup k ps) as [v|] eqn:L.
  - destruct (truthy v) eqn:T.
    + destruct v; try discriminate. simpl in H.
      apply bind_Ok in H as (c & M & H). injection H as <-.
      apply bind_Ok in M as (items' & M & H). injection H as <-.
      apply (mapM_Ok _ rw) in M; [|now apply F]. subst items'. split.
      * rewrite (assign_map _ _ _ _ D L). f_equal. apply map_ext_in.
        intros [k0 v0] I. unfold at_key. simpl.
        destruct (k0 =? k) eqn:E; [|reflexivity].
        apply String.eqb_eq in E. subst k0.
        apply (lookup_In _ _ _ D) in I. rewrite L in I. now injection I as <-.
      * intros v E. injection E as <-. eauto.
    + injection H as <-. split.
      * f_equal. rewrite <- (map_id ps) at 1. apply map_ext_in.
        intros [k0 v0] I. unfold at_key. simpl.
        destruct (k0 =? k) eqn:E; [|reflexivity].
        apply String.eqb_eq in E. subst k0.
        apply (lookup_In _ _ _ D) in I. rewrite L in I. injection I as <-.
        destruct v; try reflexivity. discriminate.
      * intros v' E. injection E as <-. now right.
  - injection H as <-. split; [|discriminate].
    f_equal. rewrite <- (map_id ps) at 1. apply map_ext_in.
    intros [k0 v0] I. unfold at_key. simpl.
    destruct (k0 =? k) eqn:E; [|reflexivity].
    apply String.eqb_eq in E. subst k0.
    apply (lookup_In _ _ _ D) in I. congruence.
Qed.

Lemma lookup_map_values (g : string -> value -> value) (k : string) (ps : props) :
  lookup k (map (fun kv => (fst kv, g (fst kv) (snd kv))) ps)
  = option_map (g k) (lookup k ps).
Proof.
  induction ps as [|[k0 v0] ps IH]; simpl; [reflexivity|].
  destruct (k =? k0) eqn:E; [|exact IH].
  apply String.eqb_eq in E. now subst.
Qed.

Lemma keys_map_values (g : string -> value -> value) (ps : props) :
  map fst (map (fun kv => (fst kv, g (fst kv) (snd kv))) ps) = map fst ps.
Proof. rewrite map_map. now apply map_ext. Qed.

(** Refinement: whenever the translation of a filter tree returns, it returns
    the rewriting the specification describes. *)
Lemma translateFilter_rewritten (fuel : nat) :
  forall filter filter',
    filter_tree filter ->
    translateFilter fuel filter VUndef = Ok filter' ->
    filter' = rewritten filter.
Proof.
  induction fuel as [|fuel IH]; intros filter filter' W H; [discriminate|].
  destruct W as [ps D C]. rewrite translateFilter_S in H. simpl in H.
  apply bind_Ok in H as (f1 & H1 & H).
  apply (rewrite_children_spec _ rewritten) in H1 as [-> A1]; [|exact D|].
  2:{ intros items L. specialize (C "$and" items (or_introl eq_refl) L).
      eapply Forall_impl; [|exact C]. intros x Wx y Hy. now apply IH. }
  apply bind_Ok in H as (f2 & H2 & H).
  set (g1 := at_key "$and" rewritten) in *.
  apply (rewrite_children_spec _ rewritten) in H2 as [-> A2].
  2:{ now rewrite (keys_map_values g1). }
  2:{ intros items L. rewrite (lookup_map_values g1) in L.
      destruct (lookup "$or" ps) as [v|] eqn:L'; [|discriminate].
      simpl in L. unfold g1, at_key in L.
      change ("$or" =? "$and") with false in L.
      injection L as ->.
      specialize (C "$or" items (or_intror eq_refl) L').
      eapply Forall_impl; [|exact C]. intros x Wx y Hy. now apply IH. }
  set (g2 := at_key "$or" rewritten) in *.
  set (ps2 := map (fun kv => (fst kv, g2 (fst kv) (snd kv))) _) in *.
  apply bind_Ok in H as (f3 & H3 & H).
  destruct (truthy (get_prop (VObj ps2) "$not")) eqn:T.
  { apply bind_Ok in H3 as (r & H3 & _).
    now apply translateFilter_not_never_returns in H3. }
  injection H3 as <-.
  apply bind_Ok in H as (f4 & H4 & H). simpl in H. injection H as <-.
  unfold rewrite_leaves in H4. simpl in H4.
  apply bind_Ok in H4 as (ps' & H4 & H). injection H as <-.
  apply (for_in_spec ps2 []) in H4.
  2:{ simpl. unfold ps2. now rewrite (keys_map_values g2), (keys_map_values g1). }
  simpl in H4. subst ps'. simpl. f_equal.
  unfold ps2. rewrite !map_map. simpl. apply map_ext_in.
  intros [k v] I. simpl. f_equal. unfold g2, g1, at_key, rewritten_entry.
  apply (lookup_In _ _ _ D) in I.
  destruct (k =? "$and") eqn:E1.
  - apply String.eqb_eq in E1. subst k. change ("$and" =? "$or") with false.
    simpl. destruct (A1 v I) as [[items ->]|F]; [reflexivity|].
    destruct v; try reflexivity; discriminate.
  - destruct (k =? "$or") eqn:E2; [|reflexivity].
    apply String.eqb_eq in E2. subst k. simpl.
    assert (L : lookup "$or" (map (fun kv => (fst kv, g1 (fst kv) (snd kv))) ps)
                = Some v).
    { rewrite (lookup_map_values g1), I. simpl. unfold g1, at_key.
      now rewrite E1. }
    destruct (A2 v L) as [[items ->]|F]; [reflexivity|].
    destruct v; try reflexivity; discriminate.
Qed.

(** *** Enough fuel brings the result *)

Lemma mapM_returns {A B : Type} (f : A -> result B) (xs : list A) :
  Forall (fun x => exists y, f x = Ok y) xs -> exists ys, mapM f xs = Ok ys.
Proof.
  induction 1 as [|x xs [y Hy] _ [ys Hys]]; simpl.
  - eauto.
  - rewrite Hy, Hys. simpl. eauto.
Qed.

Lemma Forall_assign {V : Type} (P : string * V -> Prop) (k : string) (v : V)
    (ps : list (string * V)) :
  Forall P ps -> P (k, v) -> Forall P (assign k v ps).
Proof.
  intros F Pk. induction F as [|[k0 v0] ps P0 F IH]; simpl.
  - now constructor.
  - destruct (k =? k0); constructor; auto.
Qed.

Lemma prop_simple (ps : props) (k : string) :
  Forall (fun kv => simple_leaf (snd kv) = true) ps ->
  simple_leaf (prop ps k) = true.
Proof.
  unfold prop. induction 1 as [|[k0 v0] ps P0 F IH]; simpl; [reflexivity|].
  now destruct (k =? k0).
Qed.

(** The loop throws on no filter whose leaves are simple. *)
Lemma for_in_returns (ks : list string) :
  forall filter,
    Forall (fun kv => simple_leaf (snd kv) = true) filter ->
    exists ps', for_in ks filter = Ok ps'.
Proof.
  induction ks as [|k ks IH]; intros filter F; simpl; [eauto|].
  pose proof (prop_simple filter k F) as S.
  destruct (prop filter k) as [| | | | |?|q|?|? ?|? ? ?]; simpl; auto.
  destruct q as [|[op x] [|e q]]; simpl; auto; [|discriminate].
  unfold get_prop, prop. simpl. simpl in S.
  destruct ("$like" =? op) eqn:E; simpl; auto.
  rewrite String.eqb_sym in E. rewrite E in S. simpl in S.
  destruct (truthy x) eqn:T; simpl; auto.
  simpl in S. destruct x; try discriminate. simpl.
  apply IH. now apply Forall_assign.
Qed.

Lemma rewrite_children_returns (tr : value -> result value) (k : string)
    (ps : props) :
  (forall v, lookup k ps = Some v -> truthy v = true ->
             exists items, v = VArr items
                           /\ Forall (fun x => exists y, tr x = Ok y) items) ->
  rewrite_children tr k (VObj ps) = Ok (VObj ps)
  \/ exists items, rewrite_children tr k (VObj ps)
                   = Ok (VObj (assign k (VArr items) ps)).
Proof.
  intros C. unfold rewrite_children, get_prop, prop. simpl.
  destruct (lookup k ps) as [v|]; [|now left].
  destruct (truthy v) eqn:T; [|now left].
  destruct (C v eq_refl T) as (items & -> & F). simpl.
  apply mapM_returns in F as [items' ->]. simpl. eauto.
Qed.

Lemma depth_child (k : string) (items : list value) (x : value) (ps : props) :
  lookup k ps = Some (VArr items) -> In x items -> S (depth x) < depth (VObj ps).
Proof.
  intros L I.
  assert (A : forall (f : value -> nat) xs y, In y xs -> f y <= list_max (map f xs)).
  { intros f xs y. induction xs as [|z xs IH]; simpl; [tauto|].
    intros [->|J]; [lia|]. specialize (IH J). lia. }
  assert (B : forall v, lookup k ps = Some v ->
                        depth v <= list_max (map (fun p => depth (snd p)) ps)).
  { clear. intros v. induction ps as [|[k0 v0] ps IH]; [discriminate|].
    cbn [lookup map list_max fold_right snd]. destruct (k =? k0).
    - intros E. injection E as ->. lia.
    - intros E. specialize (IH E). unfold list_max in IH. lia. }
  specialize (A depth items x I). specialize (B _ L).
  change (depth (VObj ps)) with (S (list_max (map (fun p => depth (snd p)) ps))).
  change (depth (VArr items)) with (S (list_max (map depth items))) in B.
  lia.
Qed.

(** Totality on the filters without [$not]: with the depth of the tree for
    fuel the translation returns. *)
Lemma translateFilter_returns (fuel : nat) :
  forall filter,
    translatable filter ->
    depth filter <= fuel ->
    exists filter', translateFilter fuel filter VUndef = Ok filter'.
Proof.
  induction fuel as [|fuel IH]; intros filter W D.
  - destruct W. simpl in D. lia.
  - destruct W as [ps N C F]. rewrite translateFilter_S. simpl.
    assert (Tr : forall k v,
               k = "$and" \/ k = "$or" ->
               lookup k ps = Some v -> truthy v = true ->
               exists items,
                 v = VArr items
                 /\ Forall (fun x => exists y, translateFilter fuel x VUndef = Ok y)
                           items).
    { intros k v Hk L T. destruct (C k v Hk L T) as (items & -> & Fi).
      exists items. split; [reflexivity|].
      apply Forall_forall. intros x I. apply IH.
      - rewrite Forall_forall in Fi. now apply Fi.
      - pose proof (depth_child k items x ps L I). lia. }
    assert (S1 : exists ps1,
               rewrite_children (fun c => translateFilter fuel c VUndef)
                                "$and" (VObj ps) = Ok (VObj ps1)
               /\ lookup "$or" ps1 = lookup "$or" ps
               /\ lookup "$not" ps1 = lookup "$not" ps
               /\ Forall (fun kv => simple_leaf (snd kv) = true) ps1).
    { destruct (rewrite_children_returns _ "$and" ps
                  (fun v => Tr "$and" v (or_introl eq_refl))) as [E|[items E]].
      - exists ps. auto.
      - exists (assign "$and" (VArr items) ps).
        rewrite !lookup_assign_other by discriminate.
        repeat split; auto. now apply Forall_assign. }
    destruct S1 as (ps1 & -> & O1 & N1 & F1). simpl.
    assert (S2 : exists ps2,
               rewrite_children (fun c => translateFilter fuel c VUndef)
                                "$or" (VObj ps1) = Ok (VObj ps2)
               /\ lookup "$not" ps2 = lookup "$not" ps
               /\ Forall (fun kv => simple_leaf (snd kv) = true) ps2).
    { destruct (rewrite_children_returns
                  (fun c => translateFilter fuel c VUndef) "$or" ps1)
        as [E|[items E]].
      - rewrite O1. intros v. apply Tr. now right.
      - exists ps1. auto.
      - exists (assign "$or" (VArr items) ps1).
        rewrite lookup_assign_other by discriminate.
        repeat split; auto. now apply Forall_assign. }
    destruct S2 as (ps2 & -> & N2 & F2). simpl.
    unfold get_prop, prop. simpl. unfold prop in N. rewrite N2, N. simpl.
    unfold rewrite_leaves. simpl.
    destruct (for_in_returns (map fst ps2) ps2 F2) as [ps' ->]. simpl. eauto.
Qed.

(** *** Compound leaves *)

Lemma for_in_compound (k : string) (q : props) (ks : list string) :
  forall filter ps',
    In k ks ->
    prop filter k = VObj q ->
    1 < length q ->
    for_in ks filter <> Ok ps'.
Proof.
  induction ks as [|k0 ks IH]; intros filter ps' I P L H; [destruct I|].
  destruct (String.eqb_spec k0 k) as [->|N].
  - simpl in H. rewrite P in H. simpl in H.
    apply Nat.ltb_lt in L. now rewrite L in H.
  - destruct I as [E|I]; [contradiction|].
    apply for_in_step in H as [[_ H]|[_ H]].
    + now apply (IH filter ps').
    + apply (IH _ ps' I) in H; [exact H| |exact L].
      unfold prop. rewrite lookup_assign_other by exact N. exact P.
Qed.

Lemma mapM_In {A B : Type} (f : A -> result B) (xs : list A) (ys : list B)
    (x : A) :
  mapM f xs = Ok ys -> In x xs -> exists y, f x = Ok y.
Proof.
  revert ys. induction xs as [|z xs IH]; intros ys H I; [destruct I|].
  simpl in H. apply bind_Ok in H as (y & Hy & H).
  apply bind_Ok in H as (ys' & Hys & _).
  destruct I as [->|I]; eauto.
Qed.

Lemma rewrite_children_child (tr : value -> result value) (k : string)
    (ps : props) (items : list value) (c f : value) :
  lookup k ps = Some (VArr items) ->
  In c items ->
  rewrite_children tr k (VObj ps) = Ok f ->
  exists c', tr c = Ok c'.
Proof.
  intros L I H. unfold rewrite_children, get_prop, prop in H. simpl in H.
  rewrite L in H. simpl in H.
  apply bind_Ok in H as (v & H & _). apply bind_Ok in H as (items' & H & _).
  eapply mapM_In; eauto.
Qed.

Lemma rewrite_children_object (tr : value -> result value) (k : string)
    (ps : props) (f : value) :
  rewrite_children tr k (VObj ps) = Ok f ->
  exists ps', f = VObj ps'
              /\ forall k', k <> k' -> lookup k' ps' = lookup k' ps.
Proof.
  unfold rewrite_children. intros H.
  destruct (truthy (get_prop (VObj ps) k)).
  - apply bind_Ok in H as (c & _ & H). injection H as <-. simpl.
    eexists. split; [reflexivity|].
    intros k' N. now apply lookup_assign_other.
  - injection H as <-. eauto.
Qed.

(** No filter with a compound leaf is ever translated. *)
Lemma compound_leaf_never_translated (filter : value) :
  has_compound filter ->
  forall fuel extra r, translateFilter fuel filter extra <> Ok r.
Proof.
  induction 1 as [ps q k L Q|ps k items c Hk L I _ IH];
    intros fuel extra r H.
  - destruct fuel as [|fuel]; [discriminate|].
    rewrite translateFilter_S in H. simpl in H.
    apply bind_Ok in H as (f1 & H1 & H).
    apply bind_Ok in H as (f2 & H2 & H).
    apply bind_Ok in H as (f3 & H3 & H).
    apply bind_Ok in H as (f4 & H4 & _).
    destruct (String.eqb_spec "$and" k) as [<-|Na].
    { unfold rewrite_children, get_prop, prop in H1. simpl in H1.
      rewrite L in H1. discriminate. }
    apply rewrite_children_object in H1 as (ps1 & -> & K1).
    destruct (String.eqb_spec "$or" k) as [<-|No].
    { unfold rewrite_children, get_prop, prop in H2. simpl in H2.
      rewrite K1, L in H2 by discriminate. discriminate. }
    apply rewrite_children_object in H2 as (ps2 & -> & K2).
    destruct (truthy (get_prop (VObj ps2) "$not")) eqn:T.
    { apply bind_Ok in H3 as (r' & H3 & _).
      now apply translateFilter_not_never_returns in H3. }
    injection H3 as <-. unfold rewrite_leaves in H4. simpl in H4.
    apply bind_Ok in H4 as (ps' & H4 & _).
    apply (for_in_compound k q) in H4; auto.
    + apply (lookup_Some_In k (VObj q)). now rewrite K2, K1.
    + unfold prop. now rewrite K2, K1, L.
  - destruct fuel as [|fuel]; [discriminate|].
    rewrite translateFilter_S in H. simpl in H.
    apply bind_Ok in H as (f1 & H1 & H).
    apply bind_Ok in H as (f2 & H2 & _).
    destruct Hk as [->| ->].
    + apply (rewrite_children_child _ _ _ _ c _ L I) in H1 as [c' H1].
      now apply IH in H1.
    + apply rewrite_children_object in H1 as (ps1 & -> & K1).
      rewrite <- K1 in L by discriminate.
      apply (rewrite_children_child _ _ _ _ c _ L I) in H2 as [c' H2].
      now apply IH in H2.
Qed.

(** ** Constraints and the filter *)


(** With a constraint the translation is the translation without one,
    put in a conjunction with the constraint. *)
Lemma translateFilter_extra (fuel : nat) (F C : value) :
  truthy F = true ->
  translateFilter fuel F C
  = (F' <- translateFilter fuel F VUndef ;;
     if truthy C then Ok (VObj [("$and", VArr [F'; C])]) else Ok F').
Proof.
  intros TF. destruct fuel as [|fuel]; [reflexivity|].
  rewrite !translateFilter_S. rewrite TF. simpl.
  destruct (rewrite_children _ "$and" F) as [f1| |]; simpl; try reflexivity.
  destruct (rewrite_children _ "$or" f1) as [f2| |]; simpl; try reflexivity.
  destruct (truthy (get_prop f2 "$not")).
  - destruct (translateFilter fuel f2 VUndef) as [r| |]; simpl;
      try reflexivity.
    destruct (rewrite_leaves _) as [f4| |]; reflexivity.
  - simpl. destruct (rewrite_leaves f2) as [f4| |]; reflexivity.
Qed.





Ltac filter_tree_tac :=
  constructor;
  [ repeat (constructor; [cbv; intuition discriminate|]); constructor
  | let L := fresh "L" in
    intros ? ? [->| ->] L; cbv in L; try discriminate;
    injection L as <-;
    repeat (constructor; [filter_tree_tac|]); constructor ].

Ltac translatable_tac :=
  constructor;
  [ reflexivity
  | let L := fresh "L" in
    intros ? ? [->| ->] L _; cbv in L; try discriminate;
    (injection L as <-; eexists; split;
     [reflexivity|repeat (constructor; [translatable_tac|]); constructor])
  | repeat constructor ].

Section ConstraintIsolation.

(** The engine's reading of a where clause on a row: any reading under which
    [$and] over two clauses is their conjunction. *)
Variable sat : row -> value -> bool.
Hypothesis sat_and :
  forall r a b, sat r (VObj [("$and", VArr [a; b])]) = sat r a && sat r b.


End ConstraintIsolation.



(** ** Errors before storage *)

(** C4. With a constraint given, a payload whose attributes fail the test
    makes [create] and [update] throw the constraint violation and leaves the
    table as it was: no row written, no call made on the model. *)
Theorem constraint_violation_before_storage
    (filtr_test : value -> value -> bool) (url : string)
    (id payload constraints attributes : value) (d : db) :
  truthy constraints = true ->
  attributes_of payload = Ok attributes ->
  filtr_test constraints attributes = false ->
  DbResourceCollection.create filtr_test url payload constraints d
  = (Throw ConstraintViolation, d)
  /\ DbResourceCollection.update filtr_test url id payload constraints d
     = (Throw ConstraintViolation, d).
Proof.
  intros T A F.
  unfold DbResourceCollection.create, DbResourceCollection.update,
    DbResourceCollection.check, bind_io, lift, throw.
  now rewrite A, T, F.
Qed.

Lemma constraint_violation_before_storage_witness :
  DbResourceCollection.create filtr_equal "/users"
    (VObj [("attributes", VObj [("name", VStr "Fred Flintstone");
                                ("groupId", VNum 1)])])
    (VObj [("groupId", VNum 2)]) users
  = (Throw ConstraintViolation, users)
  /\ DbResourceCollection.update filtr_equal "/users" (VNum 1)
       (VObj [("attributes", VObj [("name", VStr "Fred Flintstone");
                                   ("groupId", VNum 1)])])
       (VObj [("groupId", VNum 2)]) users
     = (Throw ConstraintViolation, users).
Proof.
  apply (constraint_violation_before_storage filtr_equal "/users" (VNum 1)
           _ _ (VObj [("name", VStr "Fred Flintstone"); ("groupId", VNum 1)]));
    reflexivity.
Defined.

(** ** The projection *)

(** C8. The fields [list] and [get] ask the engine for are the sparse
    fieldset of the options with [id] added when it lacks it: [P ++ ["id"]],
    whose members are those of [P] and [id]; a fieldset that has [id] goes
    unchanged, and without a fieldset no projection is asked for. [get]
    always sends its query; [list] sends one when the options hold no
    filter and when they hold a translatable filter tree, and whenever it
    sends one the fields are these. *)
Theorem projection_includes_id
    (query_string : options -> Z -> string)
    (relationships : list (string * (value * string)))
    (url : string) (id filter : value) (o : options) (d : db) :
  (calls (snd (DbResourceCollection.get relationships url id o filter d))
   = FindOne (DbResourceCollection.get_query relationships id o filter)
       :: calls d
   /\ q_attributes (DbResourceCollection.get_query relationships id o filter)
      = push_id (fieldsFor_self o))
  /\ (forall fuel,
        truthy (opt_filter o) = false
        \/ (filter_tree (opt_filter o) /\ translatable (opt_filter o)
            /\ fuel = depth (opt_filter o)) ->
        exists q,
          DbResourceCollection.list_query relationships (S fuel) o filter = Ok q
          /\ q_attributes q = push_id (fieldsFor_self o)
          /\ calls (snd (DbResourceCollection.list query_string relationships
                           (S fuel) url o filter d))
             = FindAndCountAll q :: calls d)
  /\ (forall fuel q,
        DbResourceCollection.list_query relationships fuel o filter = Ok q ->
        calls (snd (DbResourceCollection.list query_string relationships
                      fuel url o filter d))
        = FindAndCountAll q :: calls d
        /\ q_attributes q = push_id (fieldsFor_self o))
  /\ (forall P, ~ In "id" P ->
                push_id (Some P) = Some (P ++ ["id"])%list
                /\ forall x, In x (P ++ ["id"])%list <-> In x P \/ x = "id")
  /\ (forall P, In "id" P -> push_id (Some P) = Some P)
  /\ push_id None = None.
Proof.
  assert (L : forall fuel q,
             DbResourceCollection.list_query relationships fuel o filter = Ok q ->
             calls (snd (DbResourceCollection.list query_string relationships
                           fuel url o filter d))
             = FindAndCountAll q :: calls d
             /\ q_attributes q = push_id (fieldsFor_self o)).
  { intros fuel q H. split.
    - unfold DbResourceCollection.list, bind_io, lift. now rewrite H.
    - unfold DbResourceCollection.list_query in H.
      apply bind_Ok in H as (w & _ & H). now injection H as <-. }
  split; [|split; [|split; [exact L|split; [|split]]]].
  - split; [|reflexivity].
    unfold DbResourceCollection.get, bind_io, findOne. simpl.
    now destruct (find _ (rows d)).
  - intros fuel H.
    assert (T : exists w, translateFilter (S fuel) (opt_filter o) filter = Ok w).
    { destruct H as [F|(W & T & ->)].
      - exists filter. rewrite translateFilter_S. now rewrite F.
      - destruct (translateFilter_returns (S (depth (opt_filter o)))
                    (opt_filter o) T (Nat.le_succ_diag_r _)) as [F' H].
        rewrite translateFilter_extra by now destruct W.
        rewrite H. cbn. destruct (truthy filter); eauto. }
    destruct T as [w T].
    assert (Q : exists q,
               DbResourceCollection.list_query relationships (S fuel) o filter
               = Ok q).
    { unfold DbResourceCollection.list_query. rewrite T. cbn. eauto. }
    destruct Q as [q Q]. exists q. split; [exact Q|].
    destruct (L _ _ Q) as [A B]. auto.
  - intros P N. split.
    + unfold push_id.
      destruct (existsb (String.eqb "id") P) eqn:E; [|reflexivity].
      apply existsb_exists in E as (x & I & E). apply String.eqb_eq in E.
      subst x. contradiction.
    + intros x. split.
      * intros I. apply in_app_or in I as [I|[<-|[]]]; auto.
      * intros [I| ->]; apply in_or_app; [now left|right; now left].
  - intros P I. unfold push_id.
    assert (existsb (String.eqb "id") P = true) as ->; [|reflexivity].
    apply existsb_exists. exists "id". split; [exact I|apply String.eqb_refl].
  - reflexivity.
Qed.

Lemma projection_includes_id_witness :
  q_attributes (DbResourceCollection.get_query [] (VNum 1) names_sorted VUndef)
  = Some ["name"; "id"]
  /\ exists q,
       DbResourceCollection.list_query [] 1 names_sorted VUndef = Ok q
       /\ q_attributes q = Some ["name"; "id"]
       /\ calls (snd (DbResourceCollection.list page_query [] 1 "/users"
                        names_sorted VUndef users))
          = FindAndCountAll q :: calls users.
Proof.
  destruct (projection_includes_id page_query [] "/users" (VNum 1) VUndef
              names_sorted users) as ((_ & A) & B & _).
  split; [exact A|].
  destruct (B 0 (or_introl eq_refl)) as (q & Q & P & C).
  exists q. split; [exact Q|]. split; [exact P|exact C].
Defined.

Lemma spread_fresh (ps : props) :
  forall target,
    NoDup (map fst ps) ->
    (forall k, In k (map fst ps) -> ~ In k (map fst target)) ->
    spread target (VObj ps) = (target ++ ps)%list.
Proof.
  unfold spread. simpl.
  induction ps as [|[k v] ps IH]; intros target D F; simpl.
  - now rewrite app_nil_r.
  - inversion D as [|? ? N D']; subst.
    assert (A : assign k v target = (target ++ [(k, v)])%list).
    { rewrite <- (app_nil_r target) at 1. rewrite assign_app_fresh.
      - reflexivity.
      - apply F. now left. }
    rewrite A, IH; [now rewrite <- app_assoc|exact D'|].
    intros k' I. rewrite map_app. simpl. intros J.
    apply in_app_or in J as [J|[<-|[]]].
    + apply (F k'); [now right|exact J].
    + contradiction.
Qed.

(** Where the constraint map has no [id] of its own, the row [get], [update]
    and [delete] select is the one whose [id] is the argument and which
    satisfies the constraint. *)
Lemma id_where_selects (id : value) (ps : props) (r : row) :
  NoDup (map fst ps) ->
  ~ In "id" (map fst ps) ->
  where_sat r (DbResourceCollection.id_where id (VObj ps))
  = cond_sat r "id" id && where_sat r (VObj ps).
Proof.
  intros D N. unfold DbResourceCollection.id_where.
  rewrite spread_fresh; [reflexivity|exact D|].
  intros k I [<-|[]]. contradiction.
Qed.

(** C2. A constraint map with an [id] of its own replaces the [id] argument
    in [{id, ...constraint}]: asked for user 1 under the constraint
    [{id: 2}], [get] hands out user 2, [delete] deletes user 2 and [update]
    writes user 2, while user 1 is passed over. *)
Theorem constraint_id_replaces_id :
  DbResourceCollection.id_where (VNum 1) (VObj [("id", VNum 2)])
  = VObj [("id", VNum 2)]
  /\ fst (DbResourceCollection.get [] "/users" (VNum 1) first_page
            (VObj [("id", VNum 2)]) users)
     = Ok (Some (Resource "/users/1" wilma))
  /\ (fst (DbResourceCollection.delete (VNum 1) (VObj [("id", VNum 2)]) users)
      = Ok 1%Z
      /\ rows (snd (DbResourceCollection.delete (VNum 1) (VObj [("id", VNum 2)])
                      users))
         = [fred])
  /\ rows (snd (DbResourceCollection.update filtr_equal "/users/1" (VNum 1)
                  (VObj [("attributes", VObj [("name", VStr "Wilma Rubble");
                                              ("id", VNum 2)])])
                  (VObj [("id", VNum 2)]) users))
     = [fred; write [("name", VStr "Wilma Rubble"); ("id", VNum 2)] wilma].
Proof. repeat split; reflexivity. Qed.

(** ** Not found *)

(** [get] never throws; it answers [null] exactly when the engine finds no
    row for [{id, ...filter}]. *)
Lemma get_not_found
    (relationships : list (string * (value * string)))
    (url : string) (id filter : value) (o : options) (d : db) :
  (forall r, In r (rows d) ->
             where_sat r (DbResourceCollection.id_where id filter) = false) ->
  fst (DbResourceCollection.get relationships url id o filter d) = Ok None.
Proof.
  intros F. unfold DbResourceCollection.get, bind_io, findOne. simpl.
  destruct (find _ (rows d)) as [r|] eqn:E; [|reflexivity].
  apply find_some in E as [I E].
  change (where_sat r (DbResourceCollection.id_where id filter) = true) in E.
  now rewrite (F r I) in E.
Qed.

(** Both ways of finding nothing look the same: under a constraint map
    without an [id] of its own, [get] answers [null] when no row has the id
    and when the rows that have it fail the constraint. *)
Lemma get_not_found_equivalence
    (relationships : list (string * (value * string)))
    (url : string) (id : value) (ps : props) (o : options) (d : db) :
  NoDup (map fst ps) ->
  ~ In "id" (map fst ps) ->
  (forall r, In r (rows d) ->
             cond_sat r "id" id = false \/ where_sat r (VObj ps) = false) ->
  fst (DbResourceCollection.get relationships url id o (VObj ps) d) = Ok None.
Proof.
  intros D N F. apply get_not_found. intros r I.
  rewrite id_where_selects by assumption.
  destruct (F r I) as [-> | ->]; [reflexivity|apply andb_false_r].
Qed.

(** C5. Under the constraint [{id: 2}], [get] for the id 1 answers with
    user 2 and not with [null], both when no row has the id 1 and when
    user 1 is there and fails the constraint. *)
Theorem get_found_under_id_constraint :
  fst (DbResourceCollection.get [] "/users" (VNum 1) first_page
         (VObj [("id", VNum 2)])
         {| rows := [wilma]; next_id := 3; returning := true; calls := [] |})
  = Ok (Some (Resource "/users/1" wilma))
  /\ fst (DbResourceCollection.get [] "/users" (VNum 1) first_page
            (VObj [("id", VNum 2)]) users)
     = Ok (Some (Resource "/users/1" wilma))
  /\ where_sat fred (VObj [("id", VNum 2)]) = false.
Proof. repeat split; reflexivity. Qed.

(** ** The self-link of a created resource *)

Lemma render_text (url rest : string) (data : props) :
  (forall c, In c (list_ascii_of_string url) -> c <> "<"%char) ->
  render (url ++ rest) None data = url ++ render rest None data.
Proof.
  induction url as [|c url IH]; intros F; [reflexivity|].
  assert (N : c <> "<"%char) by (apply F; now left).
  assert (E : render (String c (url ++ rest)) None data
              = String c (render (url ++ rest) None data)).
  { destruct c as [[] [] [] [] [] [] [] []]; try reflexivity.
    now contradiction N. }
  simpl append. rewrite E, IH; [reflexivity|].
  intros c' I. apply F. now right.
Qed.

(** C7. The self-link of the resource [create] returns is the collection
    URL followed by the text [/<%=id>] as it stands: the template of
    [create] closes its tag with [>] and not with [%>], so no identifier is
    put in. *)
Theorem create_self_link_literal
    (filtr_test : value -> value -> bool) (url : string)
    (payload constraints : value) (d d' : db) (r : resource) :
  (forall c, In c (list_ascii_of_string url) -> c <> "<"%char) ->
  DbResourceCollection.create filtr_test url payload constraints d = (Ok r, d') ->
  self_link r = Some (url ++ "/<%=id>").
Proof.
  intros F H.
  unfold DbResourceCollection.create, bind_io, lift in H.
  destruct (attributes_of payload) as [a| |]; try discriminate.
  destruct (DbResourceCollection.check filtr_test constraints a d)
    as [[[]| |] d1]; try discriminate.
  unfold model_create, ret in H. injection H as <- _.
  unfold self_link, Resource. simpl. f_equal.
  now apply render_text.
Qed.

Lemma create_self_link_literal_witness :
  fst (DbResourceCollection.create filtr_equal "/users"
         (VObj [("attributes", VObj [("name", VStr "Fred Flintstone")])])
         VUndef no_users)
  = Ok (Entity [("$self", "/users/<%=id>")]
               [("id", VNum 1); ("name", VStr "Fred Flintstone")])
  /\ self_link (Entity [("$self", "/users/<%=id>")]
                       [("id", VNum 1); ("name", VStr "Fred Flintstone")])
     = Some ("/users" ++ "/<%=id>")
  /\ "/users" ++ "/<%=id>" <> "/users" ++ "/" ++ to_string (VNum 1).
Proof.
  split; [reflexivity|]. split; [|discriminate].
  apply (create_self_link_literal filtr_equal "/users"
           (VObj [("attributes", VObj [("name", VStr "Fred Flintstone")])])
           VUndef no_users
           (snd (DbResourceCollection.create filtr_equal "/users"
                   (VObj [("attributes", VObj [("name", VStr "Fred Flintstone")])])
                   VUndef no_users))).
  - intros c I. simpl in I.
    repeat (destruct I as [<-|I]; [discriminate|]). destruct I.
  - reflexivity.
Defined.

(** The template of [list] does put the identifier in. *)
Example list_self_link :
  render ("/users" ++ "/<%=id%>") None fred = "/users/1".
Proof. reflexivity. Qed.

(** ** [$not] *)

(** C3. On the filter [{$not: {name: 'Fred'}}] the translation hands the
    node itself to [translateFilter] again, not its child: the recursion has
    no end, whatever the fuel. And so for every filter whose [$not]
    JavaScript takes for true: the translation never returns. *)
Theorem translateFilter_not_diverges (fuel : nat) :
  translateFilter fuel (VObj [("$not", VObj [("name", VStr "Fred")])]) VUndef
  = OutOfFuel
  /\ forall filter extra r,
       truthy (get_prop filter "$not") = true ->
       translateFilter fuel filter extra <> Ok r.
Proof.
  split; [|apply translateFilter_not_never_returns].
  induction fuel as [|fuel IH]; [reflexivity|].
  rewrite translateFilter_S. cbv -[translateFilter]. now rewrite IH.
Qed.

(** Without [$not] the translation of the same leaf comes back at once. *)
Example translateFilter_plain_returns :
  translateFilter 1 (VObj [("name", VStr "Fred")]) VUndef
  = Ok (VObj [("name", VStr "Fred")]).
Proof. reflexivity. Qed.

(** ** Compound leaves *)

(** A leaf with two operators is refused. *)
Example compound_leaf_refused :
  translateFilter 1
    (VObj [("age", VObj [("$gt", VNum 1); ("$lt", VNum 9)])]) VUndef
  = Throw (TooComplex "age").
Proof. reflexivity. Qed.

(** C6. A leaf with two operators under [$not], or beside it, is never
    reached: the recursion on the [$not] node has no end, and the error for
    the compound leaf is not raised. *)
Theorem compound_leaf_with_not_diverges (fuel : nat) :
  translateFilter fuel
    (VObj [("$not", VObj [("age", VObj [("$gt", VNum 1); ("$lt", VNum 9)])])])
    VUndef
  = OutOfFuel
  /\ translateFilter fuel
       (VObj [("$not", VObj [("name", VStr "Fred")]);
              ("age", VObj [("$gt", VNum 1); ("$lt", VNum 9)])])
       VUndef
     = OutOfFuel.
Proof.
  induction fuel as [|fuel [IH1 IH2]]; [split; reflexivity|].
  rewrite !translateFilter_S. cbv -[translateFilter]. now rewrite IH1, IH2.
Qed.

(** ** [$like] *)

(** C9, as stated, fails on the empty pattern: the leaf [{name: {$like: ''}}]
    comes back as it went in. *)
Lemma like_empty_pattern_kept :
  translateFilter 1 (VObj [("name", VObj [("$like", VStr "")])]) VUndef
  = Ok (VObj [("name", VObj [("$like", VStr "")])])
  /\ VObj [("$like", VStr "")] <> lower_like "name" (lower "").
Proof. split; [reflexivity|discriminate]. Qed.

(** C9. Whenever the translation of a filter tree returns, it returns the
    tree with each leaf [{field: {$like: pattern}}] whose pattern is not
    empty, at the top or among the children of [$and] and [$or], replaced by
    the comparison of [lower(field)] with the lower-cased pattern under
    [$like]; a [$like] leaf with the empty pattern, a leaf with another
    single operator and a leaf that is no object stay as they are. And it
    does return, with the depth of the tree for fuel, on every tree without
    [$not] whose leaves have at most one operator and a string for the
    pattern of [$like]. *)
Theorem like_leaves_rewritten (filter : value) :
  filter_tree filter ->
  (forall fuel filter',
      translateFilter fuel filter VUndef = Ok filter' ->
      filter' = rewritten filter)
  /\ (translatable filter ->
      translateFilter (depth filter) filter VUndef = Ok (rewritten filter))
  /\ (forall k p, p <> "" ->
        like_leaf k (VObj [("$like", VStr p)]) = lower_like k (lower p))
  /\ (forall k, like_leaf k (VObj [("$like", VStr "")])
                = VObj [("$like", VStr "")])
  /\ (forall k op x, op <> "$like" ->
        like_leaf k (VObj [(op, x)]) = VObj [(op, x)])
  /\ (forall k v, isPlainObject v = false -> like_leaf k v = v).
Proof.
  intros W. split; [|split; [|split; [|split; [|split]]]].
  - intros fuel filter'. now apply translateFilter_rewritten.
  - intros T.
    destruct (translateFilter_returns (depth filter) filter T (le_n _))
      as [filter' H].
    rewrite H. f_equal. now apply (translateFilter_rewritten (depth filter)).
  - intros k p N. unfold like_leaf. change ("$like" =? "$like") with true.
    apply String.eqb_neq in N. now rewrite N.
  - reflexivity.
  - intros k op x N. unfold like_leaf. apply String.eqb_neq in N.
    destruct x; try reflexivity. now rewrite N.
  - intros k v P. destruct v; try reflexivity. discriminate.
Qed.

Lemma like_leaves_rewritten_witness :
  translateFilter (depth wilma_or_fred) wilma_or_fred VUndef
  = Ok (rewritten wilma_or_fred)
  /\ rewritten wilma_or_fred
     = VObj [("name", lower_like "name" "wilma%");
             ("$or", VArr [VObj [("email", lower_like "email" "fred@%")];
                           VObj [("groupId", VNum 2)]])].
Proof.
  assert (W : filter_tree wilma_or_fred)
    by (unfold wilma_or_fred; filter_tree_tac).
  assert (T : translatable wilma_or_fred)
    by (unfold wilma_or_fred; translatable_tac).
  destruct (like_leaves_rewritten wilma_or_fred W) as (B & F & _).
  split; [exact (F T)|].
  symmetry. apply (B 2). reflexivity.
Defined.

(** ** The scenarios of the specification *)

Example list_all :
  fst (DbResourceCollection.list page_query [] 1 "/users" first_page VUndef users)
  = Ok (Collection [("$self", "/users");
                    ("$first", "/users?page[number]=1");
                    ("$last", "/users?page[number]=1")]
                   [Entity [("$self", "/users/1")] fred;
                    Entity [("$self", "/users/2")] wilma]
                   {| count := 2; page_number := 1; page_size := 10;
                      page_count := 1 |}).
Proof. reflexivity. Qed.

Example list_like_is_case_insensitive :
  fst (DbResourceCollection.list page_query [] 1 "/users"
         (filtered (VObj [("name", VObj [("$like", VStr "wilma%")])]) None)
         VUndef users)
  = Ok (Collection [("$self", "/users");
                    ("$first", "/users?page[number]=1");
                    ("$last", "/users?page[number]=1")]
                   [Entity [("$self", "/users/2")] wilma]
                   {| count := 1; page_number := 1; page_size := 10;
                      page_count := 1 |}).
Proof. reflexivity. Qed.

Example list_filter_constraint :
  fst (DbResourceCollection.list page_query [] 1 "/users"
         (filtered (VObj [("name", VObj [("$like", VStr "wilma%")])]) None)
         (VObj [("groupId", VNum 3)]) users)
  = Ok (Collection [("$self", "/users");
                    ("$first", "/users?page[number]=1");
                    ("$last", "/users?page[number]=0")]
                   []
                   {| count := 0; page_number := 1; page_size := 10;
                      page_count := 0 |}).
Proof. reflexivity. Qed.

Example update_constraint_missing :
  DbResourceCollection.update filtr_equal "/users/1" (VNum 1)
    (VObj [("attributes", VObj [("name", VStr "Fred Rubble");
                                ("groupId", VNum 2)])])
    (VObj [("groupId", VNum 2)]) users
  = (Ok None,
     {| rows := [fred; wilma]; next_id := 3; returning := true;
        calls := [Update [("name", VStr "Fred Rubble"); ("groupId", VNum 2)]
                         (VObj [("id", VNum 1); ("groupId", VNum 2)])] |}).
Proof. reflexivity. Qed.

Example delete_missing :
  fst (DbResourceCollection.delete (VNum 5) VUndef users) = Ok 0%Z
  /\ rows (snd (DbResourceCollection.delete (VNum 5) VUndef users))
     = [fred; wilma].
Proof. split; reflexivity. Qed.

(** ** The translator on the store *)

Lemma nth_error_replace_nth {A : Type} (l i : nat) (x : A) (h : list A) :
  nth_error (replace_nth l x h) i
  = if (i =? l)%nat then option_map (fun _ => x) (nth_error h l)
    else nth_error h i.
Proof.
  revert l i. induction h as [|y h IH]; intros l i.
  - simpl. destruct (i =? l)%nat; destruct l, i; reflexivity.
  - destruct l as [|l], i as [|i]; simpl; try reflexivity. apply IH.
Qed.

Lemma length_replace_nth {A : Type} (l : nat) (x : A) (h : list A) :
  length (replace_nth l x h) = length h.
Proof.
  revert l. induction h as [|y h IH]; intros [|l]; simpl; auto.
Qed.

Lemma frame_refl (l : loc) (h : heap) : frame l h h.
Proof. split; auto. Qed.

Lemma frame_trans (l : loc) (h1 h2 h3 : heap) :
  frame l h1 h2 -> frame l h2 h3 -> frame l h1 h3.
Proof.
  intros [L1 F1] [L2 F2]. split; [lia|].
  intros i I N. rewrite F2 by (auto; lia). now apply F1.
Qed.

Lemma frame_rewrite_at (l : loc) (k s : string) (h : heap) :
  frame l h (rewrite_at l k s h).
Proof.
  unfold rewrite_at. set (h' := (h ++ _)%list).
  assert (F : frame l h h').
  { split.
    - unfold h'. rewrite length_app. lia.
    - intros i I _. unfold h'. now rewrite nth_error_app1. }
  destruct (nth_error h' l); [|exact F].
  eapply frame_trans; [exact F|]. split.
  - now rewrite length_replace_nth.
  - intros i _ N. rewrite nth_error_replace_nth.
    apply Nat.eqb_neq in N. now rewrite N.
Qed.

(** One turn of the loop on the object at [l]: it leaves the store as it is,
    or it rewrites the leaf under [k]. *)
Lemma for_in_h_step (l : loc) (k : string) (ks : list string) (h h' : heap)
    (u : unit) :
  for_in_h (k :: ks) (HRef l) h = (Ok u, h') ->
  for_in_h ks (HRef l) h = (Ok u, h')
  \/ exists ps s,
       plain_h h (own_h h (HRef l) k) = Some ps
       /\ length ps <= 1
       /\ truthy_h (hprop ps "$like") = true
       /\ hprop ps "$like" = HStr s
       /\ for_in_h ks (HRef l) (rewrite_at l k (lower s) h) = (Ok u, h').
Proof.
  intros H. simpl in H. unfold bind_io, read in H.
  destruct (plain_h h (own_h h (HRef l) k)) as [ps|] eqn:P; [|now left].
  destruct (1 <? length ps)%nat eqn:L; [discriminate|].
  apply Nat.ltb_ge in L.
  destruct (truthy_h (hprop ps "$like")) eqn:T; [|now left].
  right. exists ps. unfold alloc, lift in H.
  destruct (hprop ps "$like") eqn:V; try discriminate.
  exists s. repeat split; auto.
  unfold toLowerCase_h, set_h in H. unfold rewrite_at, lower_like_cells.
  rewrite !length_app in H. simpl length in H.
  replace (length h + 1 + 1 + 1 + 1) with (length h + 4) in H by lia.
  replace (length h + 1 + 1 + 1) with (length h + 3) in H by lia.
  replace (length h + 1 + 1) with (length h + 2) in H by lia.
  rewrite <- !app_assoc in H. simpl app in H.
  destruct (nth_error _ l); exact H.
Qed.

(** A turn on a leaf [{$like: p}] with a pattern that is not empty
    rewrites it. *)
Lemma for_in_h_step_like (l : loc) (k p : string) (ks : list string) (h : heap) :
  plain_h h (own_h h (HRef l) k) = Some [("$like", HStr p)] ->
  p <> "" ->
  for_in_h (k :: ks) (HRef l) h
  = for_in_h ks (HRef l) (rewrite_at l k (lower p) h).
Proof.
  intros P N. simpl. unfold bind_io, read. rewrite P. simpl.
  unfold hprop. simpl. change ("$like" =? "$like") with true. simpl.
  apply String.eqb_neq in N. rewrite N. simpl.
  unfold alloc, lift, set_h, rewrite_at, lower_like_cells. simpl.
  rewrite !length_app. simpl length.
  replace (length h + 1 + 1 + 1 + 1) with (length h + 4) by lia.
  replace (length h + 1 + 1 + 1) with (length h + 3) by lia.
  replace (length h + 1 + 1) with (length h + 2) by lia.
  rewrite <- !app_assoc. simpl app.
  now destruct (nth_error _ l).
Qed.

Lemma nth_error_rewrite_at (l : loc) (k s : string) (h : heap)
    (ps : list (string * hval)) :
  nth_error h l = Some (CObj ps) ->
  nth_error (rewrite_at l k s h) l
  = Some (CObj (assign k (HRef (length h + 4)) ps)).
Proof.
  intros H. unfold rewrite_at.
  assert (L : l < length h) by (apply nth_error_Some; congruence).
  rewrite nth_error_app1 by exact L. rewrite H.
  rewrite nth_error_replace_nth, Nat.eqb_refl.
  rewrite nth_error_app1 by exact L. now rewrite H.
Qed.

Lemma is_lower_like_frame (l i : loc) (k s : string) (h h' : heap) :
  frame l h h' -> l < i -> is_lower_like h i k s -> is_lower_like h' i k s.
Proof.
  intros [_ F] L H j c J. specialize (H j c J). rewrite F; [exact H| |lia].
  apply nth_error_Some. congruence.
Qed.

Lemma is_lower_like_rewrite_at (l : loc) (k s : string) (h : heap) :
  l < length h -> is_lower_like (rewrite_at l k s h) (length h) k s.
Proof.
  intros L j c J. unfold rewrite_at.
  assert (E : nth_error (h ++ lower_like_cells k s (length h)) (length h + j)
              = Some c).
  { rewrite nth_error_app2 by lia.
    now replace (length h + j - length h) with j by lia. }
  destruct (nth_error _ l); [|exact E].
  rewrite nth_error_replace_nth.
  assert ((length h + j =? l)%nat = false) as -> by (apply Nat.eqb_neq; lia).
  exact E.
Qed.



Lemma bind_io_Ok {St A B : Type} (m : stateful St A)
    (f : A -> stateful St B) (s s' : St) (a : A) :
  m s = (Ok a, s') -> bind_io m f s = f a s'.
Proof. intros H. unfold bind_io. now rewrite H. Qed.

Lemma translateFilterH_S (fuel : nat) (filter extra : hval) :
  translateFilterH (S fuel) filter extra =
  if negb (truthy_h filter) then ret extra
  else
    let translate := fun child => translateFilterH fuel child HUndef in
    _ <~ rewrite_children_h translate "$and" filter ;;
    _ <~ rewrite_children_h translate "$or" filter ;;
    not_ <~ read (fun h => get_h h filter "$not") ;;
    _ <~ (if truthy_h not_ then
            r <~ translateFilterH fuel filter HUndef ;;
            set_h filter "$not" r
          else ret tt) ;;
    _ <~ rewrite_leaves_h filter ;;
    if truthy_h extra then
      both <~ alloc (CArr [filter; extra]) ;;
      alloc (CObj [("$and", both)])
    else ret filter.
Proof. reflexivity. Qed.

Lemma rewrite_children_h_skip (tr : hval -> stateful heap hval) (k : string)
    (filter : hval) (h : heap) :
  truthy_h (get_h h filter k) = false ->
  rewrite_children_h tr k filter h = (Ok tt, h).
Proof.
  intros T. unfold rewrite_children_h. unfold bind_io at 1. unfold read.
  now rewrite T.
Qed.

(** When no constraint is given, what the translation of a filter hands back
    is the filter it was given: the same object. *)
Lemma translateFilterH_same_object (fuel : nat) (filter extra r : hval)
    (h h' : heap) :
  truthy_h filter = true ->
  truthy_h extra = false ->
  translateFilterH fuel filter extra h = (Ok r, h') ->
  r = filter.
Proof.
  intros T E H. destruct fuel as [|fuel]; [discriminate|].
  simpl in H. rewrite T, E in H. simpl in H. unfold bind_io in H.
  destruct (rewrite_children_h _ "$and" filter h) as [[[]| |] h1];
    try discriminate.
  destruct (rewrite_children_h _ "$or" filter h1) as [[[]| |] h2];
    try discriminate.
  unfold read in H.
  destruct (truthy_h (get_h h2 filter "$not")).
  - destruct (translateFilterH fuel filter HUndef h2) as [[r'| |] h3];
      try discriminate.
    destruct (set_h filter "$not" r' h3) as [[[]| |] h4]; try discriminate.
    destruct (rewrite_leaves_h filter h4) as [[[]| |] h5]; try discriminate.
    now injection H as <- _.
  - unfold ret in H at 1.
    destruct (rewrite_leaves_h filter h2) as [[[]| |] h5]; try discriminate.
    now injection H as <- _.
Qed.

(** With a constraint, what comes back is a new object whose [$and] list
    holds the filter object itself and the constraint itself. *)
Lemma translateFilterH_wraps (fuel : nat) (filter extra r : hval)
    (h h' : heap) :
  truthy_h filter = true ->
  truthy_h extra = true ->
  translateFilterH fuel filter extra h = (Ok r, h') ->
  exists n,
    r = HRef (S n)
    /\ nth_error h' n = Some (CArr [filter; extra])
    /\ nth_error h' (S n) = Some (CObj [("$and", HRef n)]).
Proof.
  intros T E H. destruct fuel as [|fuel]; [discriminate|].
  rewrite translateFilterH_S, T, E in H. cbn [negb] in H.
  unfold bind_io at 1 in H.
  destruct (rewrite_children_h _ "$and" filter h) as [[[]| |] h1];
    try discriminate.
  unfold bind_io at 1 in H.
  destruct (rewrite_children_h _ "$or" filter h1) as [[[]| |] h2];
    try discriminate.
  unfold bind_io at 1 in H. unfold read in H.
  unfold bind_io at 1 in H.
  match type of H with
  | (let (_, _) := ?m in _) = _ => destruct m as [[[]| |] h3]
  end; try discriminate.
  unfold bind_io at 1 in H.
  destruct (rewrite_leaves_h filter h3) as [[[]| |] h4] eqn:R;
    try discriminate.
  unfold bind_io, alloc in H. injection H as <- <-.
  exists (length h4). split; [|split].
  - rewrite length_app. simpl. f_equal. lia.
  - rewrite nth_error_app1 by (rewrite length_app; simpl; lia).
    rewrite nth_error_app2 by lia. now rewrite Nat.sub_diag.
  - rewrite nth_error_app2 by (rewrite length_app; simpl; lia).
    rewrite length_app. simpl length.
    now replace (S (length h4) - (length h4 + 1)) with 0 by lia.
Qed.

(** *** In place *)

Lemma cell_evolves_refl (h h' : heap) (c : cell) : cell_evolves h h' c c.
Proof. repeat split; auto. Qed.

Lemma evolves_refl (h : heap) : evolves h h.
Proof.
  split; [lia|]. intros l c H. exists c. split; [exact H|].
  apply cell_evolves_refl.
Qed.

Lemma evolves_not_object (h h' : heap) (w : loc) :
  evolves h h' -> w < length h -> ~ is_object h w -> ~ is_object h' w.
Proof.
  intros [_ E] L N [ps H].
  destruct (nth_error h w) as [c|] eqn:C; [|apply nth_error_None in C; lia].
  destruct (E w c C) as (c' & C' & K & _). rewrite C' in H. injection H as ->.
  apply N. destruct c; try discriminate. now exists ps0.
Qed.

Lemma evolves_trans (h1 h2 h3 : heap) :
  evolves h1 h2 -> evolves h2 h3 -> evolves h1 h3.
Proof.
  intros E12 E23. pose proof E12 as [L1 E1]. pose proof E23 as [L2 E2].
  split; [lia|]. intros l c H.
  destruct (E1 l c H) as (c' & H' & K1 & F1 & P1).
  destruct (E2 l c' H') as (c'' & H'' & K2 & F2 & P2).
  exists c''. split; [exact H''|]. split; [congruence|]. split; [congruence|].
  intros k. destruct (P1 k) as [S1|(lo & w & O1 & N1 & A1 & B1 & C1)];
    destruct (P2 k) as [S2|(lo' & w' & O2 & N2 & A2 & B2 & C2)].
  - left. congruence.
  - right. exists lo', w'. repeat split; auto; [congruence|lia].
  - right. exists lo, w. repeat split; auto; [congruence|lia|].
    now apply (evolves_not_object h2 h3).
  - right. exists lo, w'. repeat split; auto. lia.
Qed.

Lemma combine_fst_snd {A B : Type} (l : list (A * B)) :
  combine (map fst l) (map snd l) = l.
Proof. induction l as [|[a b] l IH]; simpl; congruence. Qed.

Lemma indexed_keys {V : Type} (items : list V) :
  map fst (indexed items) = map index_key (seq 0 (length items)).
Proof.
  unfold indexed. generalize (seq 0 (length items)) (length_seq (length items) 0).
  intros ns. revert items. induction ns as [|n ns IH]; intros [|x items] L;
    simpl in *; try discriminate; [reflexivity|].
  f_equal. apply IH. lia.
Qed.

Lemma indexed_assign {V : Type} (k : string) (x v : V) (items : list V) :
  lookup k (indexed items) = Some v ->
  indexed (map snd (assign k x (indexed items))) = assign k x (indexed items).
Proof.
  intros L. pose proof (keys_assign k x v _ L) as K.
  rewrite indexed_keys in K.
  assert (N : length (assign k x (indexed items)) = length items).
  { rewrite <- (length_map fst), K, length_map. apply length_seq. }
  unfold indexed at 1. rewrite length_map, N, <- K. apply combine_fst_snd.
Qed.

Ltac eqb_closed :=
  repeat match goal with
         | |- context [String.eqb ?a ?b] =>
             let r := eval vm_compute in (String.eqb a b) in
             match r with
             | true => change (String.eqb a b) with true
             | false => change (String.eqb a b) with false
             end
         end.

(** Writing a reference to a new cell, no plain object, under a key that
    held a reference. *)
Lemma cell_assign (h h' : heap) (c : cell) (k : string) (lo w : loc) :
  hprop (own_props_h c) k = HRef lo ->
  length h <= w ->
  w < length h' ->
  ~ is_object h' w ->
  cell_evolves h h' c
    (with_props_h c (assign k (HRef w) (own_props_h c))).
Proof.
  intros V A B N.
  assert (G : forall ps : list (string * hval),
             hprop ps k = HRef lo ->
             map fst (assign k (HRef w) ps) = map fst ps
             /\ forall k',
                  hprop (assign k (HRef w) ps) k' = hprop ps k'
                  \/ exists lo w',
                       hprop ps k' = HRef lo
                       /\ hprop (assign k (HRef w) ps) k' = HRef w'
                       /\ length h <= w' /\ w' < length h'
                       /\ ~ is_object h' w').
  { intros ps P. unfold hprop in P.
    destruct (lookup k ps) as [v|] eqn:L; [|discriminate]. subst v. split.
    - exact (keys_assign k _ _ _ L).
    - intros k'. destruct (String.eqb_spec k k') as [<-|D].
      + right. exists lo, w. unfold hprop.
        rewrite L, lookup_assign_same. auto.
      + left. unfold hprop. now rewrite lookup_assign_other. }
  destruct c as [ps|items|col|f args|a cmp l]; simpl in *.
  - destruct (G ps V) as [K P]. repeat split; auto.
  - destruct (G (indexed items) V) as [K P].
    assert (L : exists v, lookup k (indexed items) = Some v).
    { unfold hprop in V. destruct (lookup k (indexed items)); [eauto|discriminate]. }
    destruct L as [v L]. unfold cell_evolves. simpl.
    rewrite (indexed_assign k _ v items L). repeat split; auto.
  - apply cell_evolves_refl.
  - apply cell_evolves_refl.
  - unfold hprop in V. simpl in V.
    destruct (String.eqb_spec k "attribute") as [->|Na]; [subst a|].
    + unfold cell_evolves, hprop. simpl. eqb_closed. simpl.
      repeat split; auto. intros k'. eqb_closed.
      destruct (k' =? "attribute"); [|now left].
      right. exists lo, w. auto.
    + destruct (String.eqb_spec k "comparator") as [->|Nc]; [discriminate|].
      destruct (String.eqb_spec k "logic") as [->|Nl]; [subst l|discriminate].
      unfold cell_evolves, hprop. simpl. eqb_closed. simpl.
      repeat split; auto. intros k'.
      destruct (k' =? "attribute"); [now left|].
      destruct (k' =? "comparator"); [now left|].
      destruct (k' =? "logic"); [|now left].
      right. exists lo, w. auto.
Qed.

Lemma evolves_alloc (h : heap) (cells : list cell) : evolves h (h ++ cells)%list.
Proof.
  split; [rewrite length_app; lia|]. intros l c H. exists c. split.
  - rewrite nth_error_app1; [exact H|]. apply nth_error_Some. congruence.
  - apply cell_evolves_refl.
Qed.

(** New cells, and a reference to one of them written in an old cell. *)
Lemma evolves_alloc_set (h : heap) (cells : list cell) (l lo w : loc)
    (c : cell) (k : string) :
  nth_error h l = Some c ->
  hprop (own_props_h c) k = HRef lo ->
  length h <= w ->
  (exists cw, nth_error cells (w - length h) = Some cw /\ kind_of cw <> KObj) ->
  evolves h (replace_nth l (with_props_h c (assign k (HRef w) (own_props_h c)))
                         (h ++ cells)%list).
Proof.
  intros C V A (cw & W & Kw).
  assert (Ll : l < length h) by (apply nth_error_Some; congruence).
  assert (Lw : w - length h < length cells) by (apply nth_error_Some; congruence).
  set (c' := with_props_h c _). set (h' := replace_nth l c' (h ++ cells)%list).
  assert (Len : length h' = length h + length cells)
    by (unfold h'; now rewrite length_replace_nth, length_app).
  assert (Nw : ~ is_object h' w).
  { intros [ps H]. unfold h' in H. rewrite nth_error_replace_nth in H.
    assert ((w =? l)%nat = false) as E by (apply Nat.eqb_neq; lia).
    rewrite E in H. rewrite nth_error_app2 in H by exact A.
    rewrite W in H. injection H as ->. now apply Kw. }
  split; [lia|]. intros i ci H. unfold h'. rewrite nth_error_replace_nth.
  destruct (Nat.eqb_spec i l) as [->|D].
  - rewrite nth_error_app1 by exact Ll. rewrite C. simpl. exists c'.
    split; [reflexivity|]. rewrite C in H. injection H as <-.
    apply (cell_assign h h' c k lo w V A); [lia|exact Nw].
  - exists ci. split; [|apply cell_evolves_refl].
    rewrite nth_error_app1; [exact H|]. apply nth_error_Some. congruence.
Qed.

Lemma evolves_rewrite_at (l : loc) (k s : string) (h : heap)
    (ps : list (string * hval)) :
  plain_h h (own_h h (HRef l) k) = Some ps ->
  evolves h (rewrite_at l k s h).
Proof.
  intros P. unfold rewrite_at.
  destruct (nth_error h l) as [c|] eqn:C.
  2:{ unfold own_h in P. simpl in P. rewrite C in P. discriminate. }
  assert (Ll : l < length h) by (apply nth_error_Some; congruence).
  rewrite nth_error_app1 by exact Ll. rewrite C.
  unfold own_h, plain_h in P. simpl in P. rewrite C in P.
  destruct (hprop (own_props_h c) k) as [| | | | |lo] eqn:V; try discriminate.
  apply (evolves_alloc_set h _ l lo (length h + 4) c k C V); [lia|].
  replace (length h + 4 - length h) with 4 by lia.
  eexists. split; [reflexivity|discriminate].
Qed.

Lemma for_in_h_evolves (l : loc) (ks : list string) :
  forall (h h' : heap) (u : unit),
    for_in_h ks (HRef l) h = (Ok u, h') -> evolves h h'.
Proof.
  induction ks as [|k ks IH]; intros h h' u H.
  - injection H as _ <-. apply evolves_refl.
  - apply for_in_h_step in H as [H|(ps & s & P & _ & _ & _ & H)].
    + now apply IH in H.
    + eapply evolves_trans; [exact (evolves_rewrite_at l k (lower s) h ps P)|].
      now apply IH in H.
Qed.

Lemma rewrite_leaves_h_evolves (filter : hval) (h h' : heap) (u : unit) :
  rewrite_leaves_h filter h = (Ok u, h') -> evolves h h'.
Proof.
  unfold rewrite_leaves_h. unfold bind_io at 1. unfold read. intros H.
  destruct filter; try (injection H as _ <-; apply evolves_refl).
  now apply for_in_h_evolves in H.
Qed.

Lemma mapM_io_evolves {A B : Type} (f : A -> stateful heap B) (xs : list A) :
  (forall x h h' y, f x h = (Ok y, h') -> evolves h h') ->
  forall h h' ys, mapM_io f xs h = (Ok ys, h') -> evolves h h'.
Proof.
  intros F. induction xs as [|x xs IH]; intros h h' ys H; simpl in H.
  - injection H as _ <-. apply evolves_refl.
  - unfold bind_io at 1 in H. destruct (f x h) as [[y| |] h1] eqn:Fx;
      try discriminate.
    unfold bind_io at 1 in H.
    destruct (mapM_io f xs h1) as [[ys'| |] h2] eqn:M; try discriminate.
    injection H as _ <-.
    eapply evolves_trans; [eapply F; eauto|eapply IH; eauto].
Qed.

Lemma array_map_h_evolves (tr : hval -> stateful heap hval) (v : hval) :
  (forall x h h' y, tr x h = (Ok y, h') -> evolves h h') ->
  forall h h' r,
    array_map_h tr v h = (Ok r, h') ->
    exists hm items' lv,
      evolves h hm
      /\ h' = (hm ++ [CArr items'])%list
      /\ r = HRef (length hm)
      /\ v = HRef lv.
Proof.
  intros F h h' r H. unfold array_map_h in H.
  unfold bind_io at 1 in H. unfold read in H.
  destruct (cell_at h v) as [[| items | | |]|] eqn:C; try discriminate.
  unfold bind_io at 1 in H.
  destruct (mapM_io _ (seq 0 (length items)) h) as [[items'| |] hm] eqn:M;
    try discriminate.
  injection H as <- <-. exists hm, items'.
  destruct v as [| | | | |lv]; try discriminate. exists lv.
  split; [|auto].
  apply (mapM_io_evolves _ _) in M; [exact M|].
  intros i h0 h1 y Hy. unfold bind_io, read in Hy. eapply F; eauto.
Qed.

Lemma rewrite_children_h_evolves (tr : hval -> stateful heap hval)
    (k : string) (filter : hval) :
  (forall x h h' y, tr x h = (Ok y, h') -> evolves h h') ->
  forall h h' u,
    rewrite_children_h tr k filter h = (Ok u, h') -> evolves h h'.
Proof.
  intros F h h' u H. unfold rewrite_children_h in H.
  unfold bind_io at 1 in H. unfold read in H.
  destruct (truthy_h (get_h h filter k)) eqn:T.
  2:{ injection H as _ <-. apply evolves_refl. }
  unfold bind_io at 1 in H.
  destruct (array_map_h tr (get_h h filter k) h) as [[r| |] h1] eqn:M;
    try discriminate.
  destruct (array_map_h_evolves tr _ F _ _ _ M)
    as (hm & items' & lv & E & -> & -> & V).
  eapply evolves_trans; [exact E|].
  unfold get_h in V. destruct filter as [| | | | |l]; try discriminate.
  simpl in V. destruct (nth_error h l) as [c|] eqn:C; [|discriminate].
  destruct E as [Le E]. destruct (E l c C) as (c' & C' & _ & _ & P).
  assert (Ll : l < length hm) by (apply nth_error_Some; congruence).
  unfold set_h in H. rewrite nth_error_app1 in H by exact Ll.
  rewrite C' in H. injection H as _ <-.
  assert (R : exists lo, hprop (own_props_h c') k = HRef lo).
  { destruct (P k) as [S|(lo & w & _ & S & _)]; [|eauto].
    rewrite S. destruct c; try discriminate; eauto. }
  destruct R as [lo R].
  apply (evolves_alloc_set hm _ l lo (length hm) c' k C' R); [lia|].
  rewrite Nat.sub_diag. eexists. split; [reflexivity|discriminate].
Qed.

Lemma evolves_get_truthy (h h' : heap) (v : hval) (k : string) :
  evolves h h' ->
  truthy_h (get_h h v k) = true ->
  truthy_h (get_h h' v k) = true.
Proof.
  intros [_ E] T. unfold get_h in *.
  destruct v as [| | | | |l]; try discriminate. simpl in *.
  destruct (nth_error h l) as [c|] eqn:C; [|discriminate].
  destruct (E l c C) as (c' & -> & K & _ & P).
  destruct (P k) as [S|(lo & w & _ & S & _)].
  - destruct c, c'; try discriminate; now rewrite S.
  - destruct c, c'; try discriminate; now rewrite S.
Qed.

(** The translation changes the store in place, and it never returns on a
    node whose [$not] JavaScript takes for true. *)
Lemma translateFilterH_evolves_and_not (fuel : nat) :
  (forall filter extra h r h',
      translateFilterH fuel filter extra h = (Ok r, h') -> evolves h h')
  /\ (forall filter extra h r h',
         truthy_h (get_h h filter "$not") = true ->
         translateFilterH fuel filter extra h <> (Ok r, h')).
Proof.
  induction fuel as [|fuel [IHe IHn]]; [split; intros; discriminate|].
  assert (Tr : forall x h h' y,
             translateFilterH fuel x HUndef h = (Ok y, h') -> evolves h h')
    by (intros; eapply IHe; eauto).
  split.
  - intros filter extra h r h' H. rewrite translateFilterH_S in H.
    destruct (truthy_h filter) eqn:T; cbn [negb] in H.
    2:{ injection H as _ <-. apply evolves_refl. }
    unfold bind_io at 1 in H.
    destruct (rewrite_children_h _ "$and" filter h) as [[[]| |] h1] eqn:S1;
      try discriminate.
    apply (rewrite_children_h_evolves _ _ _ Tr) in S1.
    unfold bind_io at 1 in H.
    destruct (rewrite_children_h _ "$or" filter h1) as [[[]| |] h2] eqn:S2;
      try discriminate.
    apply (rewrite_children_h_evolves _ _ _ Tr) in S2.
    unfold bind_io at 1 in H. unfold read in H.
    destruct (truthy_h (get_h h2 filter "$not")) eqn:N.
    { exfalso. unfold bind_io at 1 2 in H.
      destruct (translateFilterH fuel filter HUndef h2) as [[r'| |] h3] eqn:I;
        try discriminate.
      now apply (IHn _ _ _ _ _ N) in I. }
    unfold bind_io at 1 in H. unfold ret at 1 in H.
    unfold bind_io at 1 in H.
    destruct (rewrite_leaves_h filter h2) as [[[]| |] h4] eqn:S4;
      try discriminate.
    apply rewrite_leaves_h_evolves in S4.
    assert (E4 : evolves h h4)
      by (eapply evolves_trans; [exact S1|eapply evolves_trans; eauto]).
    destruct (truthy_h extra).
    + unfold bind_io, alloc in H. injection H as _ <-.
      rewrite <- app_assoc.
      eapply evolves_trans; [exact E4|apply evolves_alloc].
    + injection H as _ <-. exact E4.
  - intros filter extra h r h' N H. rewrite translateFilterH_S in H.
    assert (T : truthy_h filter = true).
    { unfold get_h in N. destruct filter; try discriminate. reflexivity. }
    rewrite T in H. cbn [negb] in H.
    unfold bind_io at 1 in H.
    destruct (rewrite_children_h _ "$and" filter h) as [[[]| |] h1] eqn:S1;
      try discriminate.
    apply (rewrite_children_h_evolves _ _ _ Tr) in S1.
    unfold bind_io at 1 in H.
    destruct (rewrite_children_h _ "$or" filter h1) as [[[]| |] h2] eqn:S2;
      try discriminate.
    apply (rewrite_children_h_evolves _ _ _ Tr) in S2.
    unfold bind_io at 1 in H. unfold read in H.
    rewrite (evolves_get_truthy h1 h2 _ _ S2 (evolves_get_truthy h h1 _ _ S1 N))
      in H.
    unfold bind_io at 1 2 in H.
    destruct (translateFilterH fuel filter HUndef h2) as [[r'| |] h3] eqn:I;
      try discriminate.
    apply (IHn filter HUndef h2 r' h3); [|exact I].
    exact (evolves_get_truthy h1 h2 _ _ S2 (evolves_get_truthy h h1 _ _ S1 N)).
Qed.




Lemma is_lower_like_reify (h : heap) (i : loc) (k s : string) :
  is_lower_like h i k s ->
  reify 4 h (HRef (i + 4)) = Some (lower_like k s)
  /\ ~ is_object h (i + 4).
Proof.
  intros W.
  pose proof (W 0 _ eq_refl) as W0. pose proof (W 1 _ eq_refl) as W1.
  pose proof (W 2 _ eq_refl) as W2. pose proof (W 3 _ eq_refl) as W3.
  pose proof (W 4 _ eq_refl) as W4. rewrite Nat.add_0_r in W0. split.
  - simpl. rewrite W4. simpl. rewrite W2, W3. simpl. rewrite W1. simpl.
    rewrite W0. reflexivity.
  - intros [q Q]. rewrite W4 in Q. discriminate.
Qed.


(** On a filter with nothing to rewrite, as [{name: 'Wilma Flintstone'}],
    the translation hands the object back and leaves the store as it
    was. *)
Example translateFilterH_nothing_to_rewrite :
  translateFilterH 1 (HRef 0) HUndef named_wilma_store
  = (Ok (HRef 0), named_wilma_store)
  /\ reify 1 named_wilma_store (HRef 0)
     = Some (VObj [("name", VStr "Wilma Flintstone")]).
Proof. split; reflexivity. Qed.

(** The children of [$or] are rewritten as objects of their own, and the
    list the filter gets holds those same children: the translation on the
    store reads as the translation of the tree, both through the reference
    handed back and through the one the caller holds. *)
Example translateFilterH_children :
  let (f, h) := store wilma_or_fred [] in
  match f with
  | Ok f =>
      let (r, h') := translateFilterH 2 f HUndef h in
      r = Ok f
      /\ option_map Ok (reify 8 h' f)
         = Some (translateFilter 2 wilma_or_fred VUndef)
      /\ nth_error h' 2 = Some (CObj [("email", HRef 10)])
      /\ reify 4 h' (HRef 10) = Some (lower_like "email" "fred@%")
  | _ => False
  end.
Proof. vm_compute. repeat split; reflexivity. Qed.

(** * Further properties of the code *)

(** ** One turn of the loop *)

Lemma assign_same {V : Type} (k : string) (v : V) (ps : list (string * V)) :
  lookup k ps = Some v -> assign k v ps = ps.
Proof.
  induction ps as [|[k0 v0] ps IH]; simpl; [discriminate|].
  destruct (k =? k0) eqn:E.
  - apply String.eqb_eq in E. subst k0. now intros [= ->].
  - intros L. now rewrite IH.
Qed.

(** A leaf the loop takes is rewritten by [like_leaf], and the loop goes
    on. *)
Lemma for_in_simple (k : string) (v : value) (ks : list string)
    (filter : props) :
  lookup k filter = Some v ->
  simple_leaf v = true ->
  for_in (k :: ks) filter = for_in ks (assign k (like_leaf k v) filter).
Proof.
  intros L S. cbn [for_in]. unfold prop. rewrite L.
  destruct v as [| | | | |?|q|?|? ?|? ? ?];
    try (cbn; now rewrite (assign_same _ _ _ L)).
  destruct q as [|[op x] [|e q]]; [| |discriminate].
  - cbn. now rewrite (assign_same _ _ _ L).
  - cbn -[for_in] in *. unfold get_prop, prop. cbn -[for_in].
    destruct (String.eqb_spec "$like" op) as [<-|N].
    + change ("$like" =? "$like") with true in *. cbn -[for_in] in *.
      destruct x as [| |b|n|p|?|?|?|? ?|? ? ?]; cbn -[for_in] in *;
        try discriminate; try (now rewrite (assign_same _ _ _ L)).
      * destruct b; [discriminate|]. now rewrite (assign_same _ _ _ L).
      * destruct (n =? 0)%Z; [|discriminate].
        cbn -[for_in]. now rewrite (assign_same _ _ _ L).
      * destruct (p =? ""); cbn -[for_in]; [|reflexivity].
        now rewrite (assign_same _ _ _ L).
    + assert ((op =? "$like") = false) as E.
      { apply String.eqb_neq. congruence. }
      cbn -[for_in]. destruct x; try rewrite E; cbn -[for_in];
        now rewrite (assign_same _ _ _ L).
Qed.

(** A leaf the loop does not take ends it: with the error that names the
    key when the leaf is compound, with a TypeError when its [$like] is no
    string. *)
Lemma for_in_refused (k : string) (ks : list string) (filter : props) :
  simple_leaf (prop filter k) = false ->
  for_in (k :: ks) filter
  = Throw (if compound_leaf (prop filter k) then TooComplex k else TypeError).
Proof.
  cbn [for_in]. destruct (prop filter k) as [| | | | |?|q|?|? ?|? ? ?];
    try discriminate.
  destruct q as [|[op x] [|e q]]; try discriminate; [|reflexivity].
  cbn. unfold get_prop, prop. cbn.
  destruct (String.eqb_spec "$like" op) as [<-|N].
  - change ("$like" =? "$like") with true. cbn.
    destruct (truthy x) eqn:T; [|discriminate]. cbn.
    destruct x; try discriminate; reflexivity.
  - assert ((op =? "$like") = false) as ->.
    { apply String.eqb_neq. congruence. }
    discriminate.
Qed.

Lemma for_in_Ok_head (k : string) (ks : list string) (filter ps' : props) :
  for_in (k :: ks) filter = Ok ps' -> simple_leaf (prop filter k) = true.
Proof.
  intros H. destruct (simple_leaf (prop filter k)) eqn:S; [reflexivity|].
  rewrite (for_in_refused _ _ _ S) in H. discriminate.
Qed.

(** The loop over the keys of leaves it takes: they are rewritten in place
    and the loop goes on with the keys that follow. *)
Lemma for_in_prefix (ks : list string) (tail_ : props) :
  forall taken done,
    NoDup (map fst (done ++ taken ++ tail_)%list) ->
    Forall (fun kv => simple_leaf (snd kv) = true) taken ->
    for_in (map fst taken ++ ks)%list (done ++ taken ++ tail_)%list
    = for_in ks
        ((done ++ map (fun kv => (fst kv, like_leaf (fst kv) (snd kv))) taken)
           ++ tail_)%list.
Proof.
  induction taken as [|[k v] taken IH]; intros done D F.
  - cbn. now rewrite app_nil_r.
  - assert (N : ~ In k (map fst done)).
    { rewrite map_app in D. cbn in D. apply NoDup_remove_2 in D.
      intros I. apply D. apply in_or_app. now left. }
    inversion F as [|? ? Sv F']. subst. cbn in Sv.
    cbn [map fst app]. rewrite (for_in_simple k v).
    + rewrite assign_app_fresh by exact N. cbn [assign].
      rewrite String.eqb_refl.
      change (done ++ (k, like_leaf k v) :: taken ++ tail_)%list
        with (done ++ [(k, like_leaf k v)] ++ taken ++ tail_)%list.
      rewrite app_assoc. rewrite IH; [| |exact F'].
      * cbn [map fst snd]. now rewrite <- !app_assoc.
      * rewrite <- app_assoc. rewrite !map_app in *. exact D.
    + rewrite lookup_app_fresh by exact N. cbn. now rewrite String.eqb_refl.
    + exact Sv.
Qed.

Lemma NoDup_keys_rewritten (done : props) (tail_ : props) (taken : props)
    (g : string -> value -> value) :
  NoDup (map fst (done ++ taken ++ tail_)%list) ->
  NoDup (map fst
           ((done ++ map (fun kv => (fst kv, g (fst kv) (snd kv))) taken)
              ++ tail_)%list).
Proof.
  intros D. rewrite <- app_assoc, !map_app, keys_map_values.
  now rewrite !map_app in D.
Qed.

(** ** A filter without combinators *)

(** With nothing under [$and], [$or] and [$not] the translation is the loop
    over the leaves. *)
Lemma translateFilter_flat (fuel : nat) (ps : props) (extra : value) :
  truthy (prop ps "$and") = false ->
  truthy (prop ps "$or") = false ->
  truthy (prop ps "$not") = false ->
  translateFilter (S fuel) (VObj ps) extra
  = (ps' <- for_in (map fst ps) ps ;;
     if truthy extra then Ok (VObj [("$and", VArr [VObj ps'; extra])])
     else Ok (VObj ps')).
Proof.
  intros A O N. rewrite translateFilter_S. cbn -[translateFilter].
  unfold rewrite_children, get_prop. cbn -[translateFilter].
  rewrite A. cbn -[translateFilter]. rewrite O. cbn -[translateFilter].
  rewrite N. cbn -[translateFilter]. unfold rewrite_leaves. cbn.
  destruct (for_in (map fst ps) ps); reflexivity.
Qed.

(** X1. In a filter without combinators the first leaf, in the order of
    the keys, that the loop does not take decides the outcome, whatever
    comes after it and whatever the constraint: the error that names this
    key when the leaf has more than one operator, a TypeError when its
    [$like] is no string. *)
Theorem first_refused_leaf_decides (fuel : nat) (taken rest : props)
    (k : string) (v extra : value) :
  NoDup (map fst (taken ++ (k, v) :: rest)%list) ->
  truthy (prop (taken ++ (k, v) :: rest)%list "$and") = false ->
  truthy (prop (taken ++ (k, v) :: rest)%list "$or") = false ->
  truthy (prop (taken ++ (k, v) :: rest)%list "$not") = false ->
  Forall (fun kv => simple_leaf (snd kv) = true) taken ->
  simple_leaf v = false ->
  translateFilter (S fuel) (VObj (taken ++ (k, v) :: rest)%list) extra
  = Throw (if compound_leaf v then TooComplex k else TypeError).
Proof.
  intros D A O N F S. rewrite translateFilter_flat by assumption.
  rewrite map_app. cbn [map fst].
  pose proof (for_in_prefix (k :: map fst rest) ((k, v) :: rest) taken [] D F)
    as E.
  cbn [app] in E. rewrite E. clear E.
  assert (P : prop (map (fun kv => (fst kv, like_leaf (fst kv) (snd kv))) taken
                      ++ (k, v) :: rest)%list k = v).
  { unfold prop. rewrite lookup_app_fresh.
    - cbn. now rewrite String.eqb_refl.
    - rewrite keys_map_values. rewrite map_app in D. cbn in D.
      apply NoDup_remove_2 in D. intros I. apply D. apply in_or_app.
      now left. }
  rewrite for_in_refused; rewrite P; [reflexivity|exact S].
Qed.

Lemma first_refused_leaf_decides_witness :
  translateFilter 1
    (VObj ([("name", VObj [("$like", VStr "W%")])]
             ++ ("age", VObj [("$gt", VNum 1); ("$lt", VNum 9)])
             :: [("zip", VObj [("$gt", VNum 1); ("$lt", VNum 9)])])%list)
    (VObj [("groupId", VNum 2)])
  = Throw (TooComplex "age")
  /\ translateFilter 1
       (VObj ([] ++ ("name", VObj [("$like", VNum 5)])
                 :: [("age", VObj [("$gt", VNum 1); ("$lt", VNum 9)])])%list)
       VUndef
     = Throw TypeError.
Proof.
  split.
  - apply (first_refused_leaf_decides 0
             [("name", VObj [("$like", VStr "W%")])]
             [("zip", VObj [("$gt", VNum 1); ("$lt", VNum 9)])]
             "age" (VObj [("$gt", VNum 1); ("$lt", VNum 9)])
             (VObj [("groupId", VNum 2)])); try reflexivity.
    + repeat constructor; cbn; intuition discriminate.
    + repeat constructor.
  - apply (first_refused_leaf_decides 0 []
             [("age", VObj [("$gt", VNum 1); ("$lt", VNum 9)])]
             "name" (VObj [("$like", VNum 5)]) VUndef); try reflexivity.
    + repeat constructor; cbn; intuition discriminate.
    + constructor.
Defined.

(** ** Filters with a compound leaf *)

Lemma like_leaf_simple (k : string) (v : value) :
  simple_leaf v = true -> simple_leaf (like_leaf k v) = true.
Proof.
  destruct v as [| | | | |?|q|?|? ?|? ? ?]; try reflexivity.
  destruct q as [|[op x] [|e q]]; try reflexivity; try discriminate.
  intros S. cbn. destruct x; try exact S.
  destruct ((op =? "$like") && negb (s =? "")); [reflexivity|exact S].
Qed.

Lemma prop_leaf (P : value -> bool) (ps : props) (k : string) :
  P VUndef = true ->
  Forall (fun kv => P (snd kv) = true) ps -> P (prop ps k) = true.
Proof.
  intros U. unfold prop. induction 1 as [|[k0 v0] ps P0 F IH]; cbn; [exact U|].
  now destruct (k =? k0).
Qed.

(** On leaves that are simple or compound the loop returns or refuses a
    key as too complex. *)
Lemma for_in_well_formed (ks : list string) :
  forall filter,
    Forall (fun kv => simple_leaf (snd kv) || compound_leaf (snd kv) = true)
           filter ->
    (exists ps', for_in ks filter = Ok ps')
    \/ exists k, for_in ks filter = Throw (TooComplex k).
Proof.
  induction ks as [|k ks IH]; intros filter F; [left; cbn; eauto|].
  pose proof (prop_leaf (fun v => simple_leaf v || compound_leaf v)
                filter k eq_refl F) as P. cbn beta in P.
  destruct (simple_leaf (prop filter k)) eqn:S.
  - destruct (lookup k filter) as [v|] eqn:L.
    + unfold prop in S. rewrite L in S. rewrite (for_in_simple k v) by assumption.
      apply IH. apply Forall_assign; [exact F|]. cbn.
      now rewrite like_leaf_simple.
    + cbn [for_in]. unfold prop. rewrite L. cbn -[for_in]. now apply IH.
  - right. exists k. rewrite for_in_refused by exact S.
    cbn in P. now rewrite P.
Qed.

Lemma mapM_well_formed {A B : Type} (f : A -> result B) (xs : list A) :
  Forall (fun x => (exists y, f x = Ok y)
                   \/ exists k, f x = Throw (TooComplex k)) xs ->
  (exists ys, mapM f xs = Ok ys) \/ exists k, mapM f xs = Throw (TooComplex k).
Proof.
  induction 1 as [|x xs [[y Hy]|[k Hk]] _ [[ys Hys]|[k' Hk']]]; cbn.
  - left. eauto.
  - rewrite Hy, Hys. cbn. left. eauto.
  - rewrite Hy, Hk'. cbn. right. eauto.
  - rewrite Hk. cbn. right. eauto.
  - rewrite Hk. cbn. right. eauto.
Qed.

Lemma rewrite_children_well_formed (tr : value -> result value) (k : string)
    (ps : props) :
  (forall v, lookup k ps = Some v -> truthy v = true ->
             exists items,
               v = VArr items
               /\ Forall (fun x => (exists y, tr x = Ok y)
                                   \/ exists k', tr x = Throw (TooComplex k'))
                         items) ->
  rewrite_children tr k (VObj ps) = Ok (VObj ps)
  \/ (exists items, rewrite_children tr k (VObj ps)
                    = Ok (VObj (assign k (VArr items) ps)))
  \/ exists k', rewrite_children tr k (VObj ps) = Throw (TooComplex k').
Proof.
  intros C. unfold rewrite_children, get_prop, prop. cbn.
  destruct (lookup k ps) as [v|]; [|now left].
  destruct (truthy v) eqn:T; [|now left].
  destruct (C v eq_refl T) as (items & -> & F). cbn.
  apply mapM_well_formed in F as [[items' ->]|[k' ->]]; cbn; eauto.
Qed.

(** With the depth of the tree for fuel, the translation of a well-formed
    filter returns or refuses a key as too complex. *)
Lemma translateFilter_well_formed (fuel : nat) :
  forall filter extra,
    well_formed filter ->
    depth filter <= fuel ->
    (exists r, translateFilter fuel filter extra = Ok r)
    \/ exists k, translateFilter fuel filter extra = Throw (TooComplex k).
Proof.
  induction fuel as [|fuel IH]; intros filter extra W D.
  - destruct W. cbn in D. lia.
  - destruct W as [ps N C F]. rewrite translateFilter_S. cbn -[translateFilter].
    assert (Tr : forall k v,
               k = "$and" \/ k = "$or" ->
               lookup k ps = Some v -> truthy v = true ->
               exists items,
                 v = VArr items
                 /\ Forall (fun x =>
                              (exists y, translateFilter fuel x VUndef = Ok y)
                              \/ exists k',
                                  translateFilter fuel x VUndef
                                  = Throw (TooComplex k'))
                           items).
    { intros k v Hk L T. destruct (C k v Hk L T) as (items & -> & Fi).
      exists items. split; [reflexivity|].
      apply Forall_forall. intros x I. apply IH.
      - rewrite Forall_forall in Fi. now apply Fi.
      - pose proof (depth_child k items x ps L I). lia. }
    destruct (rewrite_children_well_formed _ "$and" ps
                (fun v => Tr "$and" v (or_introl eq_refl)))
      as [E|[[items E]|[k' E]]]; rewrite E; cbn -[translateFilter];
      [| |right; eauto].
    all: match goal with
         | |- context [rewrite_children _ "$or" (VObj ?q)] =>
             assert (O1 : lookup "$or" q = lookup "$or" ps)
               by (try rewrite lookup_assign_other by discriminate; reflexivity);
             assert (N1 : lookup "$not" q = lookup "$not" ps)
               by (try rewrite lookup_assign_other by discriminate; reflexivity);
             assert (F1 : Forall (fun kv => simple_leaf (snd kv)
                                            || compound_leaf (snd kv) = true) q)
               by (try apply Forall_assign; auto);
             destruct (rewrite_children_well_formed
                         (fun c => translateFilter fuel c VUndef) "$or" q)
               as [E2|[[items2 E2]|[k2 E2]]];
             [try rewrite O1; intros v; apply Tr; now right| | |];
             rewrite E2; cbn -[translateFilter]; [| |right; eauto]
         end.
    all: match goal with
         | |- context [truthy (prop ?q "$not")] =>
             assert (N2 : truthy (prop q "$not") = false)
               by (unfold prop in *;
                   try rewrite !lookup_assign_other by discriminate; exact N);
             assert (F2 : Forall (fun kv => simple_leaf (snd kv)
                                            || compound_leaf (snd kv) = true) q)
               by (try apply Forall_assign; auto);
             rewrite N2; cbn -[translateFilter];
             unfold rewrite_leaves; cbn -[translateFilter];
             destruct (for_in_well_formed (map fst q) q F2) as [[ps' ->]|[k3 ->]];
             cbn; [|right; eauto];
             destruct (truthy extra); left; eauto
         end.
Qed.

(** X2. A well-formed filter with a compound leaf, at the top or among the
    children of [$and] and [$or], is refused: with the depth of the tree for
    fuel the translation throws the error that names a key as too complex,
    with or without a constraint. *)
Theorem compound_leaf_is_refused (fuel : nat) (filter extra : value) :
  well_formed filter ->
  has_compound filter ->
  depth filter <= fuel ->
  exists k, translateFilter fuel filter extra = Throw (TooComplex k).
Proof.
  intros W C D.
  destruct (translateFilter_well_formed fuel filter extra W D) as [[r H]|H];
    [|exact H].
  now apply (compound_leaf_never_translated filter C) in H.
Qed.

Ltac well_formed_tac :=
  constructor;
  [ reflexivity
  | let L := fresh "L" in
    intros ? ? [->| ->] L _; cbv in L; try discriminate;
    (injection L as <-; eexists; split;
     [reflexivity|repeat (constructor; [well_formed_tac|]); constructor])
  | repeat constructor ].

Lemma compound_leaf_is_refused_witness :
  exists k, translateFilter 4 fred_or_young (VObj [("groupId", VNum 2)])
            = Throw (TooComplex k).
Proof.
  apply compound_leaf_is_refused.
  - unfold fred_or_young. well_formed_tac.
  - unfold fred_or_young.
    eapply (compound_child _ "$or" _
              (VObj [("age", VObj [("$gt", VNum 1); ("$lt", VNum 9)])]));
      [now right|reflexivity|cbn; tauto|].
    apply (compound_here _ [("$gt", VNum 1); ("$lt", VNum 9)] "age");
      [reflexivity|cbn; lia].
  - cbv. lia.
Defined.

(** ** The filters the translation returns on *)

Lemma truthy_false_simple (v : value) : truthy v = false -> simple_leaf v = true.
Proof. destruct v; try reflexivity; discriminate. Qed.

Lemma lookup_Some_pair {V : Type} (k : string) (v : V) (ps : list (string * V)) :
  lookup k ps = Some v -> In (k, v) ps.
Proof.
  induction ps as [|[k0 v0] ps IH]; cbn; [discriminate|].
  destruct (String.eqb_spec k k0) as [->|N].
  - intros [= ->]. now left.
  - intros L. right. now apply IH.
Qed.

Lemma rewrite_children_inv (tr : value -> result value) (k : string)
    (ps : props) (f : value) :
  rewrite_children tr k (VObj ps) = Ok f ->
  (forall v, lookup k ps = Some v -> truthy v = true ->
             exists items, v = VArr items
                           /\ Forall (fun x => exists y, tr x = Ok y) items)
  /\ exists ps', f = VObj ps'
                 /\ map fst ps' = map fst ps
                 /\ forall k', k <> k' -> lookup k' ps' = lookup k' ps.
Proof.
  intros H. unfold rewrite_children, get_prop, prop in H. cbn in H. split.
  - intros v L T. rewrite L, T in H.
    destruct v; try discriminate. cbn in H.
    apply bind_Ok in H as (c & M & _). apply bind_Ok in M as (items' & M & _).
    eexists. split; [reflexivity|]. apply Forall_forall. intros x I.
    eapply mapM_In; eauto.
  - destruct (lookup k ps) as [v|] eqn:L.
    + destruct (truthy v).
      * apply bind_Ok in H as (c & _ & H). injection H as <-. cbn.
        eexists. split; [reflexivity|]. split.
        -- now apply (keys_assign _ _ v).
        -- intros k' N. now apply lookup_assign_other.
      * injection H as <-. eauto.
    + injection H as <-. eauto.
Qed.

Lemma for_in_Ok_simple (todo : props) :
  forall done ps',
    NoDup (map fst (done ++ todo)%list) ->
    for_in (map fst todo) (done ++ todo)%list = Ok ps' ->
    Forall (fun kv => simple_leaf (snd kv) = true) todo.
Proof.
  induction todo as [|[k v] todo IH]; intros done ps' D H; [constructor|].
  assert (N : ~ In k (map fst done)).
  { rewrite map_app in D. cbn in D. apply NoDup_remove_2 in D.
    intros I. apply D. apply in_or_app. now left. }
  assert (L : lookup k (done ++ (k, v) :: todo)%list = Some v).
  { rewrite lookup_app_fresh by exact N. cbn. now rewrite String.eqb_refl. }
  cbn [map fst] in H. pose proof (for_in_Ok_head _ _ _ _ H) as S.
  unfold prop in S. rewrite L in S. constructor; [exact S|].
  rewrite (for_in_simple k v) in H by assumption.
  rewrite assign_app_fresh in H by exact N. cbn [assign] in H.
  rewrite String.eqb_refl in H.
  change (done ++ (k, like_leaf k v) :: todo)%list
    with (done ++ [(k, like_leaf k v)] ++ todo)%list in H.
  rewrite app_assoc in H. apply IH in H; [exact H|].
  rewrite <- app_assoc. rewrite !map_app in *. exact D.
Qed.

(** What a call that returns tells of the filter: nothing under [$not],
    lists under [$and] and [$or] whose children are translated, and leaves
    the loop takes. *)
Lemma translateFilter_inv (fuel : nat) (ps : props) (extra r : value) :
  NoDup (map fst ps) ->
  translateFilter (S fuel) (VObj ps) extra = Ok r ->
  truthy (prop ps "$not") = false
  /\ (forall k v,
         k = "$and" \/ k = "$or" ->
         lookup k ps = Some v ->
         truthy v = true ->
         exists items,
           v = VArr items
           /\ Forall (fun x => exists y, translateFilter fuel x VUndef = Ok y)
                     items)
  /\ Forall (fun kv => simple_leaf (snd kv) = true) ps.
Proof.
  intros D H. rewrite translateFilter_S in H. cbn -[translateFilter] in H.
  apply bind_Ok in H as (f1 & H1 & H).
  apply rewrite_children_inv in H1 as (A1 & ps1 & -> & K1 & L1).
  apply bind_Ok in H as (f2 & H2 & H).
  apply rewrite_children_inv in H2 as (A2 & ps2 & -> & K2 & L2).
  apply bind_Ok in H as (f3 & H3 & H).
  destruct (truthy (get_prop (VObj ps2) "$not")) eqn:T.
  { apply bind_Ok in H3 as (r' & H3 & _).
    now apply translateFilter_not_never_returns in H3. }
  injection H3 as <-.
  apply bind_Ok in H as (f4 & H4 & _).
  unfold rewrite_leaves in H4. cbn in H4.
  apply bind_Ok in H4 as (ps' & H4 & _).
  apply (for_in_Ok_simple ps2 []) in H4; [|cbn; now rewrite K2, K1].
  assert (C : forall k v,
             k = "$and" \/ k = "$or" ->
             lookup k ps = Some v -> truthy v = true ->
             exists items,
               v = VArr items
               /\ Forall (fun x => exists y, translateFilter fuel x VUndef = Ok y)
                         items).
  { intros k v [->| ->] L Tv.
    - now apply A1.
    - apply A2; [|exact Tv]. now rewrite L1 by discriminate. }
  split; [|split; [exact C|]].
  - unfold get_prop in T. cbn in T. unfold prop in *.
    now rewrite L2, L1 in T by discriminate.
  - apply Forall_forall. intros [k v] I. cbn.
    apply (lookup_In _ _ _ D) in I.
    destruct (truthy v) eqn:Tv; [|now apply truthy_false_simple].
    destruct (String.eqb_spec "$and" k) as [<-|Na].
    { now destruct (C "$and" v (or_introl eq_refl) I Tv) as (items & -> & _). }
    destruct (String.eqb_spec "$or" k) as [<-|No].
    { now destruct (C "$or" v (or_intror eq_refl) I Tv) as (items & -> & _). }
    rewrite <- L1, <- L2 in I by assumption.
    apply lookup_Some_pair in I. rewrite Forall_forall in H4.
    exact (H4 _ I).
Qed.

Lemma translateFilter_translatable (fuel : nat) :
  forall filter r,
    filter_tree filter ->
    translateFilter fuel filter VUndef = Ok r ->
    translatable filter.
Proof.
  induction fuel as [|fuel IH]; intros filter r W H; [discriminate|].
  destruct W as [ps D C].
  destruct (translateFilter_inv fuel ps VUndef r D H) as (N & Ch & F).
  constructor; [exact N| |exact F].
  intros k v Hk L T. destruct (Ch k v Hk L T) as (items & -> & Fi).
  exists items. split; [reflexivity|].
  specialize (C k items Hk L). rewrite Forall_forall in *.
  intros x I. destruct (Fi x I) as [y Hy]. exact (IH x y (C x I) Hy).
Qed.

(** X3. The filter trees the translation returns on are the translatable
    ones: a tree with something under [$not], with a value that is no list
    under [$and] or [$or], or with a leaf the loop does not take, here or in
    a child, is not translated at any amount of fuel; every other tree is,
    with its depth for fuel. *)
Theorem translateFilter_returns_iff_translatable (filter : value) :
  filter_tree filter ->
  (exists fuel r, translateFilter fuel filter VUndef = Ok r)
  <-> translatable filter.
Proof.
  intros W. split.
  - intros (fuel & r & H). exact (translateFilter_translatable fuel filter r W H).
  - intros T. exists (depth filter).
    exact (translateFilter_returns (depth filter) filter T (Nat.le_refl _)).
Qed.

Lemma translateFilter_returns_iff_translatable_witness :
  (exists fuel r, translateFilter fuel wilma_or_fred VUndef = Ok r)
  <-> translatable wilma_or_fred.
Proof.
  apply translateFilter_returns_iff_translatable.
  unfold wilma_or_fred. filter_tree_tac.
Defined.

(** ** Translating a translated filter *)

Lemma mapM_fixed {A : Type} (f : A -> result A) (xs : list A) :
  Forall (fun x => f x = Ok x) xs -> mapM f xs = Ok xs.
Proof.
  induction 1 as [|x xs Hx _ IH]; cbn; [reflexivity|].
  now rewrite Hx, IH.
Qed.

Lemma rewrite_children_fixed (tr : value -> result value) (k : string)
    (ps : props) :
  (forall v, lookup k ps = Some v -> truthy v = true ->
             exists items, v = VArr items
                           /\ Forall (fun x => tr x = Ok x) items) ->
  rewrite_children tr k (VObj ps) = Ok (VObj ps).
Proof.
  intros C. unfold rewrite_children, get_prop, prop. cbn.
  destruct (lookup k ps) as [v|] eqn:L; [|reflexivity].
  destruct (truthy v) eqn:T; [|reflexivity].
  destruct (C v eq_refl T) as (items & -> & F). cbn.
  rewrite (mapM_fixed _ _ F). cbn. now rewrite (assign_same _ _ _ L).
Qed.

Lemma like_leaf_twice (k : string) (v : value) :
  like_leaf k (like_leaf k v) = like_leaf k v.
Proof.
  destruct v as [| | | | |?|q|?|? ?|? ? ?]; try reflexivity.
  destruct q as [|[op x] [|e q]]; try reflexivity;
    destruct x; try reflexivity. cbn.
  destruct ((op =? "$like") && negb (s =? "")) eqn:E; [reflexivity|].
  cbn. now rewrite E.
Qed.

(** An entry of a translated filter is a leaf the loop takes and leaves as
    it is. *)
Lemma rewritten_entry_settled (rw : value -> value) (k : string) (v : value) :
  simple_leaf v = true ->
  (k = "$and" \/ k = "$or" -> truthy v = true -> exists items, v = VArr items) ->
  simple_leaf (rewritten_entry rw k v) = true
  /\ like_leaf k (rewritten_entry rw k v) = rewritten_entry rw k v.
Proof.
  intros S C. unfold rewritten_entry.
  destruct ((k =? "$and") || (k =? "$or")) eqn:E.
  - assert (Hk : k = "$and" \/ k = "$or").
    { apply orb_true_iff in E as [E|E]; apply String.eqb_eq in E; auto. }
    destruct (truthy v) eqn:T.
    + destruct (C Hk eq_refl) as [items ->]. cbn. auto.
    + destruct v; try discriminate; cbn; auto.
  - split; [now apply like_leaf_simple|apply like_leaf_twice].
Qed.

(** X4. Translating a translated filter changes nothing: when the
    translation of a filter tree returns, the translation of what it
    returned returns the same, with the same fuel. *)
Theorem translateFilter_twice (fuel : nat) :
  forall filter filter',
    filter_tree filter ->
    translateFilter fuel filter VUndef = Ok filter' ->
    translateFilter fuel filter' VUndef = Ok filter'.
Proof.
  induction fuel as [|fuel IH]; intros filter filter' W H; [discriminate|].
  pose proof (translateFilter_rewritten _ _ _ W H) as ->.
  destruct W as [ps D C].
  destruct (translateFilter_inv fuel ps VUndef _ D H) as (N & Ch & F).
  cbn [rewritten].
  set (g := rewritten_entry rewritten).
  set (ps' := map (fun kv => (fst kv, g (fst kv) (snd kv))) ps).
  assert (St : forall k v, lookup k ps = Some v ->
                 simple_leaf (g k v) = true /\ like_leaf k (g k v) = g k v).
  { intros k v L. apply rewritten_entry_settled.
    - apply lookup_Some_pair in L. rewrite Forall_forall in F. exact (F _ L).
    - intros Hk T. destruct (Ch k v Hk L T) as (items & -> & _). eauto. }
  assert (Tr : forall k v',
             k = "$and" \/ k = "$or" ->
             lookup k ps' = Some v' -> truthy v' = true ->
             exists items,
               v' = VArr items
               /\ Forall (fun x => translateFilter fuel x VUndef = Ok x) items).
  { intros k v' Hk L T. unfold ps' in L. rewrite (lookup_map_values g) in L.
    destruct (lookup k ps) as [v|] eqn:Lv; [|discriminate].
    cbn in L. injection L as <-.
    assert (E : g k v = children rewritten v).
    { unfold g, rewritten_entry.
      destruct Hk as [->| ->]; [reflexivity|].
      change ("$or" =? "$and") with false. reflexivity. }
    rewrite E in *.
    destruct (truthy v) eqn:Tv.
    - destruct (Ch k v Hk Lv Tv) as (items & -> & Fi). cbn.
      eexists. split; [reflexivity|].
      specialize (C k items Hk Lv). rewrite Forall_forall in *.
      intros x' I. apply in_map_iff in I as (x & <- & I).
      destruct (Fi x I) as [y Hy].
      pose proof (translateFilter_rewritten _ _ _ (C x I) Hy) as <-.
      exact (IH x y (C x I) Hy).
    - destruct v; cbn in T, Tv; try discriminate; congruence. }
  rewrite translateFilter_S. cbn -[translateFilter].
  rewrite (rewrite_children_fixed _ "$and" ps'
             (fun v => Tr "$and" v (or_introl eq_refl))).
  cbn -[translateFilter].
  rewrite (rewrite_children_fixed _ "$or" ps'
             (fun v => Tr "$or" v (or_intror eq_refl))).
  cbn -[translateFilter].
  assert (N' : truthy (prop ps' "$not") = false).
  { unfold prop, ps'. rewrite (lookup_map_values g).
    unfold prop in N. destruct (lookup "$not" ps) as [v|]; [|reflexivity].
    cbn. unfold g, rewritten_entry.
    change ("$not" =? "$and") with false. change ("$not" =? "$or") with false.
    cbn. destruct v; try discriminate; exact N. }
  rewrite N'. cbn -[translateFilter]. unfold rewrite_leaves. cbn.
  assert (D' : NoDup (map fst ([] ++ ps' ++ [])%list)).
  { cbn. rewrite app_nil_r. unfold ps'. now rewrite (keys_map_values g). }
  assert (F' : Forall (fun kv => simple_leaf (snd kv) = true) ps').
  { apply Forall_forall. intros [k v'] I. unfold ps' in I.
    apply in_map_iff in I as ([k0 v] & E & I). cbn in E. injection E as <- <-.
    apply (lookup_In _ _ _ D) in I. cbn. now apply St. }
  pose proof (for_in_prefix [] [] ps' [] D' F') as E.
  cbn [app] in E. rewrite !app_nil_r in E. rewrite E. cbn.
  do 2 f_equal. rewrite <- (map_id ps') at 2. apply map_ext_in.
  intros [k v'] I. cbn. f_equal. unfold ps' in I.
  apply in_map_iff in I as ([k0 v] & E' & I). cbn in E'. injection E' as <- <-.
  apply (lookup_In _ _ _ D) in I. now apply St.
Qed.

Lemma translateFilter_twice_witness :
  translateFilter 2 (rewritten wilma_or_fred) VUndef
  = Ok (rewritten wilma_or_fred).
Proof.
  apply (translateFilter_twice 2 wilma_or_fred).
  - unfold wilma_or_fred. filter_tree_tac.
  - reflexivity.
Defined.

(** ** A combinator that holds no list *)

(** X5. A value under [$and] that JavaScript takes for true and that is no
    list has no [map]: the translation throws a TypeError, whatever the rest
    of the filter; and so for [$or] when [$and] is passed over. *)
Theorem combinator_without_list (fuel : nat) (ps : props) (k : string)
    (v extra : value) :
  k = "$and" \/ (k = "$or" /\ truthy (prop ps "$and") = false) ->
  lookup k ps = Some v ->
  truthy v = true ->
  (forall items, v <> VArr items) ->
  translateFilter (S fuel) (VObj ps) extra = Throw TypeError.
Proof.
  intros Hk L T A. rewrite translateFilter_S. cbn -[translateFilter].
  destruct Hk as [->|[-> F]].
  - unfold rewrite_children at 1. unfold get_prop, prop.
    cbn -[translateFilter]. rewrite L. cbn -[translateFilter]. rewrite T.
    destruct v as [| | | | |items|?|?|? ?|? ? ?]; try reflexivity.
    now destruct (A items).
  - unfold rewrite_children at 1. unfold get_prop at 1.
    cbn -[translateFilter]. rewrite F. cbn -[translateFilter].
    unfold rewrite_children at 1. unfold get_prop, prop.
    cbn -[translateFilter]. rewrite L. cbn -[translateFilter]. rewrite T.
    destruct v as [| | | | |items|?|?|? ?|? ? ?]; try reflexivity.
    now destruct (A items).
Qed.

Lemma combinator_without_list_witness :
  translateFilter 1
    (VObj [("$and", VObj [("name", VStr "Fred")]); ("name", VStr "Wilma")])
    VUndef
  = Throw TypeError
  /\ translateFilter 1 (VObj [("$or", VStr "name")]) (VObj [("groupId", VNum 2)])
     = Throw TypeError.
Proof.
  split.
  - apply (combinator_without_list 0 _ "$and" (VObj [("name", VStr "Fred")]));
      [now left|reflexivity|reflexivity|discriminate].
  - apply (combinator_without_list 0 _ "$or" (VStr "name"));
      [right; split; reflexivity|reflexivity|reflexivity|discriminate].
Defined.

(** ** A translation that throws *)

(** One turn of the loop, whatever comes of it: the key is passed over, or
    its leaf is rewritten, or the turn throws and leaves the cells of the
    store as they are. *)
Lemma for_in_h_turn (l : loc) (k : string) (ks : list string) (h h' : heap)
    (res : result unit) :
  for_in_h (k :: ks) (HRef l) h = (res, h') ->
  for_in_h ks (HRef l) h = (res, h')
  \/ (exists ps s,
         plain_h h (own_h h (HRef l) k) = Some ps
         /\ for_in_h ks (HRef l) (rewrite_at l k (lower s) h) = (res, h'))
  \/ exists e cells, res = Throw e /\ h' = (h ++ cells)%list.
Proof.
  intros H. simpl in H. unfold bind_io, read in H.
  destruct (plain_h h (own_h h (HRef l) k)) as [ps|] eqn:P; [|now left].
  destruct (1 <? length ps)%nat eqn:L.
  { right. right. exists (TooComplex k), []. unfold throw in H.
    injection H as <- <-. now rewrite app_nil_r. }
  destruct (truthy_h (hprop ps "$like")) eqn:T; [|now left].
  right. unfold alloc, lift in H.
  destruct (hprop ps "$like") eqn:V;
    try (right; exists TypeError; cbn in H; injection H as <- <-;
         rewrite <- !app_assoc; eauto).
  left. exists ps, s. split; [reflexivity|].
  unfold toLowerCase_h, set_h in H. unfold rewrite_at, lower_like_cells.
  rewrite !length_app in H. simpl length in H.
  replace (length h + 1 + 1 + 1 + 1) with (length h + 4) in H by lia.
  replace (length h + 1 + 1 + 1) with (length h + 3) in H by lia.
  replace (length h + 1 + 1) with (length h + 2) in H by lia.
  rewrite <- !app_assoc in H. simpl app in H.
  destruct (nth_error _ l); exact H.
Qed.

Lemma frame_app (l : loc) (h : heap) (cells : list cell) :
  frame l h (h ++ cells)%list.
Proof.
  split.
  - rewrite length_app. lia.
  - intros i I _. now apply nth_error_app1.
Qed.

Lemma for_in_h_frame_any (l : loc) (ks : list string) :
  forall (h h' : heap) (res : result unit),
    for_in_h ks (HRef l) h = (res, h') -> frame l h h'.
Proof.
  induction ks as [|k ks IH]; intros h h' res H.
  - injection H as _ <-. apply frame_refl.
  - apply for_in_h_turn in H as [H|[(ps & s & _ & H)|(e & cells & _ & ->)]].
    + now apply IH in H.
    + apply IH in H.
      eapply frame_trans; [apply (frame_rewrite_at l k (lower s) h)|exact H].
    + apply frame_app.
Qed.

(** A reference to a cell that is no plain object stays under its key
    through the loop, also when the loop throws. *)
Lemma for_in_h_keeps_ref_any (l w : loc) (k : string) (ks : list string) :
  forall (h h' : heap) (res : result unit) (ps : list (string * hval)),
    nth_error h l = Some (CObj ps) ->
    lookup k ps = Some (HRef w) ->
    w < length h ->
    ~ is_object h w ->
    for_in_h ks (HRef l) h = (res, h') ->
    exists ps',
      nth_error h' l = Some (CObj ps') /\ lookup k ps' = Some (HRef w).
Proof.
  induction ks as [|k0 ks IH]; intros h h' res ps C K Lw N H.
  - injection H as _ <-. eauto.
  - assert (D : w <> l) by (intros ->; apply N; now exists ps).
    apply for_in_h_turn in H as [H|[(ps0 & s0 & P & H)|(e & cells & _ & ->)]].
    + eapply IH; eauto.
    + destruct (String.eqb_spec k0 k) as [->|Nk].
      * exfalso. apply N. unfold own_h, plain_h in P. simpl in P.
        rewrite C in P. simpl in P. unfold hprop in P. rewrite K in P.
        simpl in P.
        destruct (nth_error h w) as [[q| | | |]|] eqn:Q; try discriminate.
        now exists q.
      * destruct (frame_rewrite_at l k0 (lower s0) h) as [Lf F].
        eapply (IH (rewrite_at l k0 (lower s0) h)); [| | | |exact H].
        -- apply nth_error_rewrite_at. exact C.
        -- rewrite lookup_assign_other; [exact K|exact Nk].
        -- lia.
        -- intros [q Q]. apply N. exists q. now rewrite <- F.
    + exists ps. split; [|exact K]. rewrite nth_error_app1; [exact C|].
      apply nth_error_Some. congruence.
Qed.

(** On an object with nothing under [$and], [$or] and [$not] the
    translation is the loop over its keys, and then at most the two cells
    that hold the constraint beside it. *)
Lemma translateFilterH_flat (fuel : nat) (l : loc) (ps : list (string * hval))
    (extra : hval) (h h' : heap) (res : result hval) :
  nth_error h l = Some (CObj ps) ->
  truthy_h (hprop ps "$and") = false ->
  truthy_h (hprop ps "$or") = false ->
  truthy_h (hprop ps "$not") = false ->
  translateFilterH (S fuel) (HRef l) extra h = (res, h') ->
  exists res1 h1 cells,
    for_in_h (map fst ps) (HRef l) h = (res1, h1)
    /\ h' = (h1 ++ cells)%list.
Proof.
  intros C A O N H. rewrite translateFilterH_S in H. cbn [truthy_h negb] in H.
  assert (G : forall k, get_h h (HRef l) k = hprop ps k).
  { intros k. unfold get_h. cbn. now rewrite C. }
  unfold bind_io at 1 in H.
  rewrite rewrite_children_h_skip in H by now rewrite G.
  unfold bind_io at 1 in H.
  rewrite rewrite_children_h_skip in H by now rewrite G.
  unfold bind_io at 1 in H. unfold read at 1 in H. rewrite G, N in H.
  unfold bind_io at 1 in H. unfold ret at 1 in H.
  unfold bind_io at 1 in H. unfold rewrite_leaves_h in H.
  unfold bind_io at 1 in H. unfold read at 1 in H.
  unfold keys_h in H. cbn [cell_at] in H. rewrite C in H. cbn [own_props_h] in H.
  destruct (for_in_h (map fst ps) (HRef l) h) as [res1 h1] eqn:E.
  exists res1, h1. destruct res1 as [[]|e|].
  - destruct (truthy_h extra).
    + cbn in H. injection H as _ <-. rewrite <- app_assoc. eauto.
    + cbn in H. injection H as _ <-. exists []. now rewrite app_nil_r.
  - injection H as _ <-. exists []. now rewrite app_nil_r.
  - injection H as _ <-. exists []. now rewrite app_nil_r.
Qed.

(** X6. The translation is not undone when it throws. On a filter object
    without combinators whose first key holds a leaf [{$like: p}], [p] not
    empty, the object holds the lower-cased comparison under that key after
    the call, whatever the other keys hold and whatever comes of the call:
    an error thrown at a later key leaves the caller's filter half
    rewritten. *)
Theorem translateFilterH_throw_keeps_rewriting (fuel : nat) (l lv : loc)
    (k p : string) (rest : list (string * hval)) (extra : hval)
    (h h' : heap) (res : result hval) :
  nth_error h l = Some (CObj ((k, HRef lv) :: rest)) ->
  truthy_h (hprop ((k, HRef lv) :: rest) "$and") = false ->
  truthy_h (hprop ((k, HRef lv) :: rest) "$or") = false ->
  truthy_h (hprop ((k, HRef lv) :: rest) "$not") = false ->
  nth_error h lv = Some (CObj [("$like", HStr p)]) ->
  p <> "" ->
  translateFilterH (S fuel) (HRef l) extra h = (res, h') ->
  exists ps' w,
    nth_error h' l = Some (CObj ps')
    /\ lookup k ps' = Some (HRef w)
    /\ length h <= w
    /\ reify 4 h' (HRef w) = Some (lower_like k (lower p)).
Proof.
  intros C A O N V P H.
  destruct (translateFilterH_flat _ _ _ _ _ _ _ C A O N H)
    as (res1 & h1 & cells & F & ->).
  assert (Ll : l < length h) by (apply nth_error_Some; congruence).
  cbn [map fst] in F. rewrite (for_in_h_step_like l k p) in F.
  2:{ unfold own_h, plain_h. cbn. rewrite C. cbn. unfold hprop. cbn.
      rewrite String.eqb_refl. cbn. now rewrite V. }
  2:{ exact P. }
  set (h0 := rewrite_at l k (lower p) h) in *.
  assert (C0 : nth_error h0 l
               = Some (CObj (assign k (HRef (length h + 4))
                                    ((k, HRef lv) :: rest))))
    by (apply nth_error_rewrite_at; exact C).
  assert (I0 : is_lower_like h0 (length h) k (lower p))
    by (apply is_lower_like_rewrite_at; exact Ll).
  destruct (is_lower_like_reify _ _ _ _ I0) as [_ No].
  assert (L0 : length h + 4 < length h0).
  { apply nth_error_Some. rewrite (I0 4 _ eq_refl). discriminate. }
  destruct (for_in_h_keeps_ref_any l (length h + 4) k (map fst rest)
              h0 h1 res1 _ C0 (lookup_assign_same _ _ _) L0 No F)
    as (ps' & C1 & K1).
  pose proof (for_in_h_frame_any _ _ _ _ _ F) as Fr.
  assert (I1 : is_lower_like (h1 ++ cells)%list (length h) k (lower p)).
  { apply (is_lower_like_frame l _ _ _ h0); [|exact Ll|exact I0].
    eapply frame_trans; [exact Fr|apply frame_app]. }
  exists ps', (length h + 4). repeat split.
  - rewrite nth_error_app1; [exact C1|]. apply nth_error_Some. congruence.
  - exact K1.
  - lia.
  - now apply is_lower_like_reify.
Qed.

Lemma translateFilterH_throw_keeps_rewriting_witness :
  fst (translateFilterH 1 (HRef 2) HUndef like_then_compound_store)
  = Throw (TooComplex "age")
  /\ exists ps' w,
       nth_error (snd (translateFilterH 1 (HRef 2) HUndef
                         like_then_compound_store)) 2
       = Some (CObj ps')
       /\ lookup "name" ps' = Some (HRef w)
       /\ length like_then_compound_store <= w
       /\ reify 4 (snd (translateFilterH 1 (HRef 2) HUndef
                          like_then_compound_store)) (HRef w)
          = Some (lower_like "name" (lower "W%")).
Proof.
  split; [reflexivity|].
  apply (translateFilterH_throw_keeps_rewriting 0 2 0 "name" "W%"
           [("age", HRef 1)] HUndef like_then_compound_store
           (snd (translateFilterH 1 (HRef 2) HUndef like_then_compound_store))
           (fst (translateFilterH 1 (HRef 2) HUndef like_then_compound_store)));
    try reflexivity.
  discriminate.
Defined.

(** ** The objects of the predicate handed back *)

(** With a constraint the call does to the store what the call without one
    does, and then makes the list and the object that hold both. *)
Lemma translateFilterH_with_extra (fuel : nat) (filter extra r : hval)
    (h h' : heap) :
  truthy_h filter = true ->
  truthy_h extra = true ->
  translateFilterH fuel filter extra h = (Ok r, h') ->
  exists h4,
    translateFilterH fuel filter HUndef h = (Ok filter, h4)
    /\ h' = (h4 ++ [CArr [filter; extra];
                    CObj [("$and", HRef (length h4))]])%list
    /\ r = HRef (S (length h4)).
Proof.
  intros T E H. destruct fuel as [|fuel]; [discriminate|].
  rewrite translateFilterH_S, T in *. cbn [negb] in *.
  rewrite E in H. cbn [truthy_h].
  unfold bind_io at 1 in H. unfold bind_io at 1.
  destruct (rewrite_children_h _ "$and" filter h) as [[[]| |] h1];
    try discriminate.
  unfold bind_io at 1 in H. unfold bind_io at 1.
  destruct (rewrite_children_h _ "$or" filter h1) as [[[]| |] h2];
    try discriminate.
  unfold bind_io at 1 in H. unfold bind_io at 1. unfold read in *.
  unfold bind_io at 1 in H. unfold bind_io at 1.
  match type of H with
  | (let (_, _) := ?m in _) = _ => destruct m as [[[]| |] h3]
  end; try discriminate.
  unfold bind_io at 1 in H. unfold bind_io at 1.
  destruct (rewrite_leaves_h filter h3) as [[[]| |] h4] eqn:R;
    try discriminate.
  unfold bind_io, alloc in H. injection H as <- <-.
  exists h4. split; [reflexivity|]. split.
  - now rewrite <- app_assoc.
  - rewrite length_app. cbn. f_equal. lia.
Qed.

(** X18. The predicate handed back shares the objects it was given. The
    store evolves in place. Without a filter the constraint itself comes
    back and nothing is written; without a constraint the filter object
    itself comes back; with both, the call does what the call without
    constraint does and then makes two new objects, a list that holds the
    filter object and the constraint object themselves, not copies, and the
    object that holds this list under [$and]. *)
Theorem translateFilterH_shares_objects (fuel : nat) (filter extra r : hval)
    (h h' : heap) :
  translateFilterH fuel filter extra h = (Ok r, h') ->
  evolves h h'
  /\ (truthy_h filter = false -> r = extra /\ h' = h)
  /\ (truthy_h filter = true -> truthy_h extra = false -> r = filter)
  /\ (truthy_h filter = true -> truthy_h extra = true ->
      exists h4,
        translateFilterH fuel filter HUndef h = (Ok filter, h4)
        /\ length h <= length h4
        /\ h' = (h4 ++ [CArr [filter; extra];
                        CObj [("$and", HRef (length h4))]])%list
        /\ r = HRef (S (length h4))).
Proof.
  intros H. destruct (translateFilterH_evolves_and_not fuel) as [Ev _].
  split; [exact (Ev _ _ _ _ _ H)|]. split; [|split].
  - intros F. destruct fuel as [|fuel]; [discriminate|].
    rewrite translateFilterH_S, F in H. now injection H as <- <-.
  - intros T E. exact (translateFilterH_same_object _ _ _ _ _ _ T E H).
  - intros T E.
    destruct (translateFilterH_with_extra _ _ _ _ _ _ T E H)
      as (h4 & H4 & -> & ->).
    exists h4. repeat split; try assumption.
    exact (proj1 (Ev _ _ _ _ _ H4)).
Qed.

Lemma translateFilterH_shares_objects_witness :
  exists h4,
    translateFilterH 1 (HRef 1) HUndef like_wilma_constrained_store
    = (Ok (HRef 1), h4)
    /\ length like_wilma_constrained_store <= length h4
    /\ snd (translateFilterH 1 (HRef 1) (HRef 2) like_wilma_constrained_store)
       = (h4 ++ [CArr [HRef 1; HRef 2];
                 CObj [("$and", HRef (length h4))]])%list
    /\ fst (translateFilterH 1 (HRef 1) (HRef 2) like_wilma_constrained_store)
       = Ok (HRef (S (length h4))).
Proof.
  destruct (translateFilterH_shares_objects 1 (HRef 1) (HRef 2)
              (HRef 9)
              like_wilma_constrained_store
              (snd (translateFilterH 1 (HRef 1) (HRef 2)
                      like_wilma_constrained_store))
              eq_refl)
    as (_ & _ & _ & W).
  destruct (W eq_refl eq_refl) as (h4 & A & B & C & D).
  exists h4. split; [exact A|]. split; [exact B|]. split; [exact C|].
  exact (f_equal Ok D).
Defined.

(** ** The pages of a list *)

Lemma list_Ok
    (query_string : options -> Z -> string)
    (relationships : list (string * (value * string)))
    (fuel : nat) (url : string) (o : options) (filter : value) (d d' : db)
    (res : resource) :
  DbResourceCollection.list query_string relationships fuel url o filter d
  = (Ok res, d') ->
  exists q,
    DbResourceCollection.list_query relationships fuel o filter = Ok q
    /\ q_attributes q = push_id (fieldsFor_self o)
    /\ q_limit q = Some (snd (page o))
    /\ q_offset q = Some ((fst (page o) - 1) * snd (page o))%Z
    /\ d' = logged (FindAndCountAll q) d
    /\ res = Collection
               (("$self", url)
                  :: DbResourceCollection._getPageLinks query_string url o
                       (fst (page o))
                       (ceil_div (Z.of_nat (length (List.filter (matches q) (rows d))))
                                 (snd (page o))))
               (map (fun user => Resource (url ++ "/<%=id%>") user)
                    (map (project (q_attributes q))
                         (page_of q (order_rows (q_order q)
                                       (List.filter (matches q) (rows d))))))
               {| count := Z.of_nat (length (List.filter (matches q) (rows d)));
                  page_number := fst (page o);
                  page_size := snd (page o);
                  page_count :=
                    ceil_div (Z.of_nat (length (List.filter (matches q) (rows d))))
                             (snd (page o)) |}.
Proof.
  unfold DbResourceCollection.list, bind_io, lift. intros H.
  destruct (DbResourceCollection.list_query relationships fuel o filter)
    as [q| |] eqn:Q; try discriminate.
  exists q. cbn in H. injection H as <- <-.
  unfold DbResourceCollection.list_query in Q.
  apply bind_Ok in Q as (w & _ & Q). injection Q as <-. cbn.
  repeat split; reflexivity.
Qed.

Lemma In_insert_row (order : list (string * string)) (r x : row)
    (rs : list row) :
  In x (insert_row order r rs) <-> x = r \/ In x rs.
Proof.
  induction rs as [|y rs IH]; cbn; [intuition congruence|].
  destruct (row_compare order r y); cbn; rewrite ?IH; intuition congruence.
Qed.

(** The rows in the order asked for are the same rows. *)
Lemma In_order_rows (order : option (list (string * string))) (x : row)
    (rs : list row) :
  In x (order_rows order rs) <-> In x rs.
Proof.
  destruct order as [keys|]; [|reflexivity]. cbn.
  induction rs as [|r rs IH]; cbn; [reflexivity|].
  rewrite In_insert_row, IH. intuition congruence.
Qed.

Lemma order_rows_nil (order : option (list (string * string))) :
  order_rows order [] = [].
Proof. now destruct order. Qed.

Lemma ceil_div_gt (n count size : Z) :
  (0 < size)%Z -> (n < ceil_div count size <-> n * size < count)%Z.
Proof.
  intros S. unfold ceil_div.
  pose proof (Z.div_mod (count + size - 1) size) as E.
  pose proof (Z.mod_pos_bound (count + size - 1) size S) as B.
  specialize (E ltac:(lia)). split; intros H; nia.
Qed.

(** X7. The page links of a list, for a page size above zero. [$first] and
    [$last] are always there, [$last] for the page [ceil(count / size)].
    [$next] is there exactly when rows remain after this page, that is when
    [number * size < count], and leads to the page [number + 1];
    [$previous] is there exactly when the page number is above 1, also on
    a page far after the last one. *)
Theorem list_page_links
    (query_string : options -> Z -> string)
    (relationships : list (string * (value * string)))
    (fuel : nat) (url : string) (o : options) (filter : value) (d d' : db)
    (links : list (string * string)) (elements : list resource) (m : meta) :
  DbResourceCollection.includeRelationships relationships o = [] ->
  (0 < snd (page o))%Z ->
  DbResourceCollection.list query_string relationships fuel url o filter d
  = (Ok (Collection links elements m), d') ->
  lookup "$first" links = Some (url ++ query_string o 1%Z)
  /\ lookup "$last" links = Some (url ++ query_string o (page_count m))
  /\ ((page_count m - 1) * snd (page o) < count m <= page_count m * snd (page o))%Z
  /\ lookup "$next" links
     = (if (fst (page o) * snd (page o) <? count m)%Z
        then Some (url ++ query_string o (fst (page o) + 1)%Z) else None)
  /\ lookup "$previous" links
     = (if (1 <? fst (page o))%Z
        then Some (url ++ query_string o (fst (page o) - 1)%Z) else None).
Proof.
  intros _ S H. apply list_Ok in H as (q & _ & _ & _ & _ & _ & H).
  injection H as -> _ ->. cbn [count page_count].
  set (c := Z.of_nat (length (List.filter (matches q) (rows d)))).
  set (n := fst (page o)). set (s := snd (page o)) in *.
  assert (N : (n <? ceil_div c s)%Z = (n * s <? c)%Z).
  { pose proof (ceil_div_gt n c s S).
    destruct (Z.ltb_spec n (ceil_div c s)), (Z.ltb_spec (n * s) c);
      try reflexivity; lia. }
  unfold DbResourceCollection._getPageLinks. rewrite N.
  split; [reflexivity|]. split; [reflexivity|]. split.
  - pose proof (ceil_div_gt (ceil_div c s - 1) c s S).
    pose proof (ceil_div_gt (ceil_div c s) c s S). lia.
  - split.
    + destruct (1 <? n)%Z, (n * s <? c)%Z; reflexivity.
    + destruct (1 <? n)%Z, (n * s <? c)%Z; reflexivity.
Qed.

Lemma list_page_links_witness :
  lookup "$last"
    [("$self", "/users"); ("$first", "/users?page[number]=1");
     ("$last", "/users?page[number]=2"); ("$next", "/users?page[number]=2")]
  = Some ("/users" ++ page_query one_per_page 2%Z)
  /\ lookup "$next"
       [("$self", "/users"); ("$first", "/users?page[number]=1");
        ("$last", "/users?page[number]=2"); ("$next", "/users?page[number]=2")]
     = Some ("/users" ++ page_query one_per_page 2%Z)
  /\ lookup "$previous"
       [("$self", "/users"); ("$first", "/users?page[number]=1");
        ("$last", "/users?page[number]=2"); ("$next", "/users?page[number]=2")]
     = None.
Proof.
  pose proof (list_page_links page_query [] 1 "/users" one_per_page VUndef
                users
                (logged (FindAndCountAll
                           {| q_limit := Some 1%Z; q_offset := Some 0%Z;
                              q_where := None; q_attributes := None;
                              q_order := None; q_include := Some [] |}) users)
                [("$self", "/users"); ("$first", "/users?page[number]=1");
                 ("$last", "/users?page[number]=2");
                 ("$next", "/users?page[number]=2")]
                [Entity [("$self", "/users/1")] fred]
                {| count := 2; page_number := 1; page_size := 1;
                   page_count := 2 |}
                eq_refl eq_refl eq_refl)
    as (_ & L & _ & N & P).
  exact (conj L (conj N P)).
Defined.

Lemma filter_none {A : Type} (f : A -> bool) (l : list A) :
  (forall x, In x l -> f x = false) -> List.filter f l = [].
Proof.
  induction l as [|x l IH]; intros F; [reflexivity|]. cbn.
  rewrite (F x) by now left. apply IH. intros y I. apply F. now right.
Qed.

(** X8. A list that finds nothing: no elements, the count 0 and 0 pages,
    and a [$last] link that leads to the page 0, before the page of
    [$first]. *)
Theorem list_nothing_found
    (query_string : options -> Z -> string)
    (relationships : list (string * (value * string)))
    (fuel : nat) (url : string) (o : options) (filter : value) (d : db)
    (q : query) :
  DbResourceCollection.list_query relationships fuel o filter = Ok q ->
  (forall r, In r (rows d) -> matches q r = false) ->
  (0 < snd (page o))%Z ->
  (1 <= fst (page o))%Z ->
  fst (DbResourceCollection.list query_string relationships fuel url o filter d)
  = Ok (Collection
          (List.app
             [("$self", url);
              ("$first", url ++ query_string o 1%Z);
              ("$last", url ++ query_string o 0%Z)]
             (if (1 <? fst (page o))%Z
              then [("$previous", url ++ query_string o (fst (page o) - 1)%Z)]
              else []))
          []
          {| count := 0; page_number := fst (page o);
             page_size := snd (page o); page_count := 0 |}).
Proof.
  intros Q F S N.
  unfold DbResourceCollection.list, bind_io, lift. rewrite Q.
  unfold findAndCountAll. cbv zeta.
  rewrite (filter_none _ _ F), order_rows_nil. cbn.
  assert (C : ceil_div 0 (snd (page o)) = 0%Z).
  { unfold ceil_div. apply Z.div_small. lia. }
  assert (E : page_of q [] = []).
  { unfold page_of. destruct (q_offset q), (q_limit q); cbn;
      try rewrite skipn_nil; try rewrite firstn_nil; reflexivity. }
  rewrite C, E. cbn. unfold DbResourceCollection._getPageLinks.
  assert ((fst (page o) <? 0)%Z = false) as -> by (apply Z.ltb_ge; lia).
  now rewrite app_nil_r.
Qed.

Lemma list_nothing_found_witness :
  fst (DbResourceCollection.list page_query [] 1 "/users" first_page
         (VObj [("groupId", VNum 3)]) users)
  = Ok (Collection [("$self", "/users");
                    ("$first", "/users?page[number]=1");
                    ("$last", "/users?page[number]=0")]
                   []
                   {| count := 0; page_number := 1; page_size := 10;
                      page_count := 0 |}).
Proof.
  apply (list_nothing_found page_query [] 1 "/users" first_page
           (VObj [("groupId", VNum 3)]) users _ eq_refl).
  - intros r [<-|[<-|[]]]; reflexivity.
  - reflexivity.
  - discriminate.
Defined.

(** ** The elements of a list *)

Lemma append_empty (s : string) : s ++ "" = s.
Proof. induction s as [|c s IH]; cbn; [reflexivity|now rewrite IH]. Qed.

(** The template [url + '/<%=id%>'] on a row: the URL, a slash and the
    [id] of the row. *)
Lemma render_id (url : string) (data : props) :
  (forall c, In c (list_ascii_of_string url) -> c <> "<"%char) ->
  render (url ++ "/<%=id%>") None data
  = url ++ "/" ++ (if nullish (field data "id") then ""
                   else to_string (field data "id")).
Proof.
  intros F. rewrite render_text by exact F. cbn. now rewrite append_empty.
Qed.

Lemma lookup_filter_keys {V : Type} (keep : string -> bool) (k : string)
    (ps : list (string * V)) :
  lookup k (List.filter (fun kv => keep (fst kv)) ps)
  = if keep k then lookup k ps else None.
Proof.
  induction ps as [|[k0 v0] ps IH]; cbn; [now destruct (keep k)|].
  destruct (k =? k0) eqn:K.
  - apply String.eqb_eq in K. subst k0.
    destruct (keep k) eqn:E; cbn; [now rewrite String.eqb_refl|].
    rewrite IH. reflexivity.
  - destruct (keep k0) eqn:E; cbn; [|exact IH].
    now rewrite K.
Qed.

(** The [id] of a row goes through the projection on any fieldset. *)
Lemma project_keeps_id (fields : option (list string)) (r : row) :
  lookup "id" (project (push_id fields) r) = lookup "id" r.
Proof.
  destruct fields as [fs|]; [|reflexivity]. unfold push_id.
  destruct (existsb (String.eqb "id") fs) eqn:E; cbn.
  - rewrite (lookup_filter_keys (fun k => existsb (String.eqb k) fs)).
    now rewrite E.
  - rewrite (lookup_filter_keys (fun k => existsb (String.eqb k) (fs ++ ["id"]))).
    rewrite existsb_app. cbn. now rewrite orb_true_r.
Qed.

Lemma In_page_of (q : query) (rs : list row) (r : row) :
  In r (page_of q rs) -> In r rs.
Proof.
  unfold page_of. intros I.
  assert (A : forall n (l : list row) x, In x (firstn n l) -> In x l).
  { intros n l x J. rewrite <- (firstn_skipn n l). apply in_or_app. now left. }
  assert (B : forall n (l : list row) x, In x (skipn n l) -> In x l).
  { intros n l x J. rewrite <- (firstn_skipn n l). apply in_or_app. now right. }
  destruct (q_limit q), (q_offset q); eauto.
Qed.

(** X9. Every element of a list is a stored row that the query selects,
    projected on the fields asked for, and its self-link is the URL of the
    collection, a slash and the [id] of the row: the [id] is among the
    attributes of the element whatever the fieldset. *)
Theorem list_elements_linked_by_id
    (query_string : options -> Z -> string)
    (relationships : list (string * (value * string)))
    (fuel : nat) (url : string) (o : options) (filter : value) (d d' : db)
    (links : list (string * string)) (elements : list resource) (m : meta) :
  DbResourceCollection.includeRelationships relationships o = [] ->
  (forall c, In c (list_ascii_of_string url) -> c <> "<"%char) ->
  DbResourceCollection.list query_string relationships fuel url o filter d
  = (Ok (Collection links elements m), d') ->
  forall e, In e elements ->
    exists r q,
      In r (rows d)
      /\ DbResourceCollection.list_query relationships fuel o filter = Ok q
      /\ matches q r = true
      /\ e = Entity [("$self",
                      url ++ "/" ++ (if nullish (field r "id") then ""
                                     else to_string (field r "id")))]
                    (project (push_id (fieldsFor_self o)) r)
      /\ lookup "id" (project (push_id (fieldsFor_self o)) r) = lookup "id" r.
Proof.
  intros _ F H e I. apply list_Ok in H as (q & Q & A & _ & _ & _ & H).
  injection H as _ -> _. rewrite A in I.
  apply in_map_iff in I as (p & <- & I).
  apply in_map_iff in I as (r & <- & I).
  apply In_page_of in I. apply In_order_rows in I.
  apply filter_In in I as [I M].
  exists r, q. repeat split; try assumption.
  - unfold Resource. rewrite render_id by exact F.
    unfold field. now rewrite project_keeps_id.
  - apply project_keeps_id.
Qed.

Lemma list_elements_linked_by_id_witness :
  exists r q,
    In r (rows users)
    /\ DbResourceCollection.list_query [] 1 names_sorted VUndef = Ok q
    /\ matches q r = true
    /\ Entity [("$self", "/users/2")]
              [("id", VNum 2); ("name", VStr "Wilma Flintstone")]
       = Entity [("$self",
                  "/users" ++ "/" ++ (if nullish (field r "id") then ""
                                      else to_string (field r "id")))]
                (project (push_id (fieldsFor_self names_sorted)) r)
    /\ lookup "id" (project (push_id (fieldsFor_self names_sorted)) r)
       = lookup "id" r.
Proof.
  apply (list_elements_linked_by_id page_query [] 1 "/users" names_sorted
           VUndef users
           (snd (DbResourceCollection.list page_query [] 1 "/users"
                   names_sorted VUndef users))
           [("$self", "/users"); ("$first", "/users?page[number]=1");
            ("$last", "/users?page[number]=1")]
           [Entity [("$self", "/users/1")]
                   [("id", VNum 1); ("name", VStr "Fred Flintstone")];
            Entity [("$self", "/users/2")]
                   [("id", VNum 2); ("name", VStr "Wilma Flintstone")]]
           {| count := 2; page_number := 1; page_size := 10;
              page_count := 1 |}).
  - reflexivity.
  - intros c I. cbn in I.
    repeat (destruct I as [<-|I]; [discriminate|]). destruct I.
  - reflexivity.
  - right. now left.
Defined.

(** ** Operations in a row *)

Lemma filter_filter_negb {A : Type} (f : A -> bool) (l : list A) :
  List.filter f (List.filter (fun x => negb (f x)) l) = [].
Proof.
  apply filter_none. intros x I. apply filter_In in I as [_ N].
  now destruct (f x).
Qed.

Lemma filter_all {A : Type} (f : A -> bool) (l : list A) :
  (forall x, In x l -> f x = true) -> List.filter f l = l.
Proof.
  induction l as [|x l IH]; intros F; [reflexivity|]. cbn.
  rewrite (F x) by now left. f_equal. apply IH. intros y I. apply F. now right.
Qed.

(** X10. What [delete] has deleted is gone for [get] and for a second
    [delete]: with the same id and the same constraint, [get] answers
    [null], and [delete] again deletes nothing and leaves the table as it
    is. *)
Theorem delete_then_get_and_delete
    (relationships : list (string * (value * string)))
    (url : string) (id filter : value) (o : options) (d : db) :
  fst (DbResourceCollection.get relationships url id o filter
         (snd (DbResourceCollection.delete id filter d)))
  = Ok None
  /\ fst (DbResourceCollection.delete id filter
            (snd (DbResourceCollection.delete id filter d)))
     = Ok 0%Z
  /\ rows (snd (DbResourceCollection.delete id filter
                  (snd (DbResourceCollection.delete id filter d))))
     = rows (snd (DbResourceCollection.delete id filter d)).
Proof.
  set (w := DbResourceCollection.id_where id filter).
  assert (R : rows (snd (DbResourceCollection.delete id filter d))
              = List.filter (fun r => negb (where_sat r w)) (rows d))
    by reflexivity.
  assert (G : forall r,
             In r (rows (snd (DbResourceCollection.delete id filter d))) ->
             where_sat r w = false).
  { intros r I. rewrite R in I. apply filter_In in I as [_ N].
    now destruct (where_sat r w). }
  split; [now apply get_not_found|].
  assert (E : forall d0,
             DbResourceCollection.delete id filter d0
             = (Ok (Z.of_nat (length (List.filter (fun r => where_sat r w)
                                                  (rows d0)))),
                logged (Destroy w)
                  (with_rows (List.filter (fun r => negb (where_sat r w))
                                          (rows d0)) d0)))
    by reflexivity.
  rewrite (E (snd _)), R. cbn [fst snd rows logged with_rows]. split.
  - now rewrite (filter_filter_negb (fun r => where_sat r w)).
  - apply filter_all. intros r I. apply filter_In in I as [_ N]. exact N.
Qed.

Lemma falsy_own_props (v : value) : truthy v = false -> own_props v = [].
Proof.
  destruct v as [| |b|n|s| | | | |]; try discriminate; try reflexivity.
  destruct s; [reflexivity|discriminate].
Qed.

(** The clause [{id}] selects by the [id] alone. *)
Lemma where_id (r : row) (id : value) :
  where_sat r (VObj [("id", id)]) = cond_sat r "id" id.
Proof.
  cbn [where_sat]. change ("id" =? "$and") with false.
  change ("id" =? "$or") with false. change ("id" =? "$not") with false.
  apply andb_true_r.
Qed.

Lemma matches_get_unconstrained
    (relationships : list (string * (value * string)))
    (id : value) (o : options) (r : row) :
  matches (DbResourceCollection.get_query relationships id o VUndef) r
  = cond_sat r "id" id.
Proof. apply where_id. Qed.

Lemma find_app_none {A : Type} (f : A -> bool) (l : list A) (x : A) :
  (forall y, In y l -> f y = false) -> f x = true ->
  find f (l ++ [x])%list = Some x.
Proof.
  induction l as [|y l IH]; intros F T; cbn.
  - now rewrite T.
  - rewrite (F y) by now left. apply IH; [|exact T].
    intros z I. apply F. now right.
Qed.

Lemma chars_of_append (a b : string) (c : ascii) :
  In c (list_ascii_of_string (a ++ b)) ->
  In c (list_ascii_of_string a) \/ In c (list_ascii_of_string b).
Proof.
  induction a as [|x a IH]; cbn; [tauto|]. intros [E|I]; [tauto|].
  destruct (IH I); tauto.
Qed.

(** The decimal writing of a number holds digits and a sign, no [<]. *)
Lemma to_string_number (n : Z) (c : ascii) :
  In c (list_ascii_of_string (to_string (VNum n))) -> c <> "<"%char.
Proof.
  assert (U : forall d c', In c' (list_ascii_of_string
                                   (NilEmpty.string_of_uint d)) ->
                           c' <> "<"%char).
  { induction d; cbn; intros c' I; try (destruct I as [<-|I]);
      try discriminate; auto. }
  assert (Z0 : forall d c', In c' (list_ascii_of_string
                                    (NilZero.string_of_uint d)) ->
                            c' <> "<"%char).
  { intros d c' I. destruct d; try exact (U _ _ I).
    cbn in I. destruct I as [<-|[]]. discriminate. }
  cbn. destruct (Z.to_int n) as [d|d]; cbn; [apply Z0|].
  intros [<-|I]; [discriminate|exact (Z0 _ _ I)].
Qed.

(** A template without a tag is rendered as it stands. *)
Lemma render_plain (template : string) (data : props) :
  (forall c, In c (list_ascii_of_string template) -> c <> "<"%char) ->
  render template None data = template.
Proof.
  intros F. rewrite <- (append_empty template) at 1.
  rewrite render_text by exact F. cbn. apply append_empty.
Qed.

(** X11. What [create] has stored, [get] finds. The row [create] inserts
    is the entity of the resource it returns; when no row before had the
    [id] of this entity, a number [n], [get] with this [id], no constraint
    and options that include no relationship returns the entity, projected
    on the fields asked for, and its self-link is the URL, a slash and [n],
    for a URL that holds no [<]. *)
Theorem create_then_get
    (filtr_test : value -> value -> bool)
    (relationships : list (string * (value * string)))
    (url url' : string) (payload constraints : value) (o : options)
    (d d' : db) (res : resource) (n : Z) :
  include o = None ->
  (forall c, In c (list_ascii_of_string url') -> c <> "<"%char) ->
  DbResourceCollection.create filtr_test url payload constraints d
  = (Ok res, d') ->
  (forall attributes, res = Resource (url ++ "/<%=id>") attributes ->
                      lookup "id" attributes = Some (VNum n)) ->
  (forall r, In r (rows d) -> cond_sat r "id" (VNum n) = false) ->
  exists entity,
    res = Resource (url ++ "/<%=id>") entity
    /\ rows d' = (rows d ++ [entity])%list
    /\ fst (DbResourceCollection.get relationships url' (VNum n) o VUndef d')
       = Ok (Some (Entity [("$self", url' ++ "/" ++ to_string (VNum n))]
                          (project (push_id (fieldsFor_self o)) entity)))
    /\ lookup "id" (project (push_id (fieldsFor_self o)) entity)
       = Some (VNum n).
Proof.
  intros _ U H I F.
  unfold DbResourceCollection.create, bind_io, lift in H.
  destruct (attributes_of payload) as [a| |]; try discriminate.
  destruct (DbResourceCollection.check filtr_test constraints a d)
    as [[[]| |] d1] eqn:C; try discriminate.
  assert (d1 = d) as ->.
  { unfold DbResourceCollection.check in C.
    destruct (truthy constraints); [|now injection C].
    destruct (negb (filtr_test constraints a)); [discriminate|now injection C]. }
  unfold model_create, ret in H.
  set (entity := match lookup "id" (spread [] a) with
                 | Some _ => spread [] a
                 | None => ("id", VNum (next_id d)) :: spread [] a
                 end) in *.
  injection H as <- <-. exists entity. split; [reflexivity|].
  split; [reflexivity|]. specialize (I entity eq_refl).
  split; [|now rewrite project_keeps_id].
  unfold DbResourceCollection.get, bind_io, findOne.
  cbn [rows]. rewrite find_app_none.
  - cbn [option_map ret fst]. unfold Resource. rewrite render_plain;
      [reflexivity|].
    intros c J. apply chars_of_append in J as [J|J]; [exact (U c J)|].
    apply (chars_of_append "/") in J as [J|J];
      [|exact (to_string_number n c J)].
    cbn in J. destruct J as [<-|[]]. discriminate.
  - intros r J. rewrite matches_get_unconstrained. exact (F r J).
  - rewrite matches_get_unconstrained. cbn. unfold field. rewrite I. cbn.
    apply Z.eqb_refl.
Qed.

Lemma create_then_get_witness :
  exists entity,
    Resource ("/users" ++ "/<%=id>")
      [("id", VNum 3); ("name", VStr "Barney Rubble")]
    = Resource ("/users" ++ "/<%=id>") entity
    /\ rows (snd (DbResourceCollection.create filtr_equal "/users"
                    (VObj [("attributes",
                            VObj [("name", VStr "Barney Rubble")])])
                    VUndef users))
       = (rows users ++ [entity])%list
    /\ fst (DbResourceCollection.get [] "/users" (VNum 3) names_sorted VUndef
              (snd (DbResourceCollection.create filtr_equal "/users"
                      (VObj [("attributes",
                              VObj [("name", VStr "Barney Rubble")])])
                      VUndef users)))
       = Ok (Some (Entity [("$self", "/users" ++ "/" ++ to_string (VNum 3))]
                          (project (push_id (fieldsFor_self names_sorted))
                                   entity)))
    /\ lookup "id" (project (push_id (fieldsFor_self names_sorted)) entity)
       = Some (VNum 3).
Proof.
  apply (create_then_get filtr_equal [] "/users" "/users"
           (VObj [("attributes", VObj [("name", VStr "Barney Rubble")])])
           VUndef names_sorted users).
  - reflexivity.
  - intros c J. cbn in J.
    repeat (destruct J as [<-|J]; [discriminate|]). destruct J.
  - reflexivity.
  - intros attributes E. now injection E as <-.
  - intros r [<-|[<-|[]]]; reflexivity.
Defined.

Lemma check_passes (filtr_test : value -> value -> bool)
    (constraints attributes : value) (d : db) :
  (truthy constraints = true -> filtr_test constraints attributes = true) ->
  DbResourceCollection.check filtr_test constraints attributes d = (Ok tt, d).
Proof.
  intros P. unfold DbResourceCollection.check.
  destruct (truthy constraints); [|reflexivity].
  now rewrite P.
Qed.

Lemma map_unless {A : Type} (hit : A -> bool) (f : A -> A) (l : list A) :
  (forall x, In x l -> hit x = false) ->
  map (fun x => if hit x then f x else x) l = l.
Proof.
  intros F. rewrite <- (map_id l) at 2. apply map_ext_in.
  intros x I. now rewrite (F x I).
Qed.

Lemma model_update_none (attributes : props) (w : value) (d : db) :
  (forall r, In r (rows d) -> where_sat r w = false) ->
  model_update attributes w d
  = (Ok (if returning d then WithRows 0 [] else CountOnly 0),
     logged (Update attributes w) (with_rows (rows d) d)).
Proof.
  intros F. unfold model_update.
  rewrite (filter_none (fun r => where_sat r w) _ F).
  rewrite (map_unless (fun r => where_sat r w) _ _ F). reflexivity.
Qed.

(** X12. An [update] that selects no row answers [null] and writes
    nothing, whether the engine answers with the rows written or with the
    count alone. *)
Theorem update_nothing_selected
    (filtr_test : value -> value -> bool) (url : string)
    (id payload constraints attributes : value) (d : db) :
  attributes_of payload = Ok attributes ->
  (truthy constraints = true -> filtr_test constraints attributes = true) ->
  (forall r, In r (rows d) ->
             where_sat r (DbResourceCollection.id_where id constraints) = false) ->
  fst (DbResourceCollection.update filtr_test url id payload constraints d)
  = Ok None
  /\ rows (snd (DbResourceCollection.update filtr_test url id payload
                  constraints d))
     = rows d.
Proof.
  intros A P F.
  assert (E : exists d',
             DbResourceCollection.update filtr_test url id payload constraints d
             = (Ok None, d')
             /\ rows d' = rows d).
  { unfold DbResourceCollection.update, lift.
    unfold bind_io at 1. rewrite A.
    unfold bind_io at 1. rewrite (check_passes _ _ _ _ P).
    unfold bind_io at 1. rewrite (model_update_none _ _ _ F).
    destruct (returning d).
    - eexists. split; reflexivity.
    - unfold bind_io, findOne, ret. cbn [fst snd rows logged with_rows].
      eexists. split; reflexivity. }
  destruct E as (d' & -> & R). split; [reflexivity|exact R].
Qed.

Lemma update_nothing_selected_witness :
  fst (DbResourceCollection.update filtr_equal "/users/5" (VNum 5)
         (VObj [("attributes", VObj [("name", VStr "Fred Rubble")])])
         VUndef users_count_only)
  = Ok None
  /\ rows (snd (DbResourceCollection.update filtr_equal "/users/5" (VNum 5)
                  (VObj [("attributes", VObj [("name", VStr "Fred Rubble")])])
                  VUndef users_count_only))
     = rows users_count_only.
Proof.
  apply (update_nothing_selected filtr_equal "/users/5" (VNum 5)
           (VObj [("attributes", VObj [("name", VStr "Fred Rubble")])]) VUndef
           (VObj [("name", VStr "Fred Rubble")]) users_count_only).
  - reflexivity.
  - discriminate.
  - intros r [<-|[<-|[]]]; reflexivity.
Defined.

(** ** An update that moves the row *)

Lemma write_other (k : string) (attributes : props) :
  forall r, ~ In k (map fst attributes) ->
            lookup k (write attributes r) = lookup k r.
Proof.
  unfold write. induction attributes as [|[k0 v0] rest IH]; intros r N;
    [reflexivity|].
  cbn [fold_left fst snd]. rewrite IH by (cbn in N; tauto).
  apply lookup_assign_other. cbn in N. intros ->. tauto.
Qed.

Lemma write_field (k : string) (v : value) (attributes : props) :
  forall r, NoDup (map fst attributes) ->
            lookup k attributes = Some v ->
            lookup k (write attributes r) = Some v.
Proof.
  induction attributes as [|[k0 v0] rest IH]; intros r D L; [discriminate|].
  inversion D as [|? ? N D']; subst. cbn in L.
  change (write ((k0, v0) :: rest) r) with (write rest (assign k0 v0 r)).
  destruct (k =? k0) eqn:E.
  - apply String.eqb_eq in E. subst k0. injection L as ->.
    rewrite write_other by exact N. apply lookup_assign_same.
  - now apply IH.
Qed.

Lemma find_all_false {A : Type} (f : A -> bool) (l : list A) :
  (forall x, In x l -> f x = false) -> find f l = None.
Proof.
  induction l as [|x l IH]; intros F; [reflexivity|]. cbn.
  rewrite (F x) by now left. apply IH. intros y I. apply F. now right.
Qed.

(** X13. Behind an engine that answers an update with the count alone,
    [update] reads the row again by the [id] it was given. When the payload
    gives the row another [id], the row is written and then not found
    under the old one: the call throws a TypeError after the write. *)
Theorem update_of_id_throws_after_write
    (filtr_test : value -> value -> bool) (url : string) (i j : Z)
    (payload constraints attributes : value) (d : db) :
  returning d = false ->
  truthy constraints = false ->
  attributes_of payload = Ok attributes ->
  NoDup (map fst (own_props attributes)) ->
  lookup "id" (own_props attributes) = Some (VNum j) ->
  j <> i ->
  (exists r, In r (rows d) /\ cond_sat r "id" (VNum i) = true) ->
  fst (DbResourceCollection.update filtr_test url (VNum i) payload
         constraints d)
  = Throw TypeError
  /\ rows (snd (DbResourceCollection.update filtr_test url (VNum i) payload
                  constraints d))
     = map (fun r => if cond_sat r "id" (VNum i)
                     then write (own_props attributes) r else r)
           (rows d).
Proof.
  intros R C A D L N (r0 & I0 & H0).
  set (rs := map (fun r => if cond_sat r "id" (VNum i)
                           then write (own_props attributes) r else r)
                 (rows d)).
  assert (E : exists d',
             DbResourceCollection.update filtr_test url (VNum i) payload
               constraints d
             = (Throw TypeError, d')
             /\ rows d' = rs).
  { unfold DbResourceCollection.update, lift.
    unfold bind_io at 1. rewrite A.
    unfold bind_io at 1. rewrite check_passes by (rewrite C; discriminate).
    assert (W : DbResourceCollection.id_where (VNum i) constraints
                = VObj [("id", VNum i)]).
    { unfold DbResourceCollection.id_where, spread.
      now rewrite (falsy_own_props _ C). }
    rewrite W.
    assert (M : model_update (own_props attributes) (VObj [("id", VNum i)]) d
                = (Ok (CountOnly
                         (Z.of_nat
                            (length
                               (map (write (own_props attributes))
                                    (List.filter
                                       (fun r => cond_sat r "id" (VNum i))
                                       (rows d)))))),
                   logged (Update (own_props attributes) (VObj [("id", VNum i)]))
                          (with_rows rs d))).
    { unfold model_update. cbv zeta. rewrite R.
      rewrite (filter_ext (fun r => where_sat r (VObj [("id", VNum i)]))
                          (fun r => cond_sat r "id" (VNum i)))
        by (intros r; apply where_id).
      rewrite (map_ext (fun r => if where_sat r (VObj [("id", VNum i)])
                                 then write (own_props attributes) r else r)
                       (fun r => if cond_sat r "id" (VNum i)
                                 then write (own_props attributes) r else r))
        by (intros r; now rewrite where_id).
      reflexivity. }
    unfold bind_io at 1. rewrite M.
    unfold bind_io at 1. unfold bind_io at 1. unfold findOne.
    cbn [rows logged with_rows].
    rewrite find_all_false.
    2:{ intros r' I. unfold matches. cbn [q_where]. rewrite where_id.
        unfold rs in I. apply in_map_iff in I as (r & <- & I).
        destruct (cond_sat r "id" (VNum i)) eqn:H; [|exact H].
        cbn. unfold field.
        rewrite (write_field "id" (VNum j) _ r D L). cbn.
        now apply Z.eqb_neq. }
    cbn [option_map]. unfold ret at 1. cbn [fst snd].
    assert (Z : (Z.of_nat
                   (length
                      (map (write (own_props attributes))
                           (List.filter (fun r => cond_sat r "id" (VNum i))
                                        (rows d)))) =? 0)%Z = false).
    { apply Z.eqb_neq. rewrite length_map.
      assert (J : In r0 (List.filter (fun r => cond_sat r "id" (VNum i))
                                     (rows d)))
        by (apply filter_In; auto).
      destruct (List.filter _ (rows d)); [destruct J|cbn; lia]. }
    rewrite Z. eexists. split; reflexivity. }
  destruct E as (d' & -> & E). split; [reflexivity|exact E].
Qed.

Lemma update_of_id_throws_after_write_witness :
  fst (DbResourceCollection.update filtr_equal "/users/1" (VNum 1)
         (VObj [("attributes", VObj [("id", VNum 7)])]) VUndef
         users_count_only)
  = Throw TypeError
  /\ rows (snd (DbResourceCollection.update filtr_equal "/users/1" (VNum 1)
                  (VObj [("attributes", VObj [("id", VNum 7)])]) VUndef
                  users_count_only))
     = map (fun r => if cond_sat r "id" (VNum 1)
                     then write (own_props (VObj [("id", VNum 7)])) r else r)
           (rows users_count_only).
Proof.
  apply (update_of_id_throws_after_write filtr_equal "/users/1" 1 7
           (VObj [("attributes", VObj [("id", VNum 7)])]) VUndef
           (VObj [("id", VNum 7)]) users_count_only);
    try reflexivity.
  - repeat constructor. cbn. tauto.
  - discriminate.
  - exists fred. split; [now left|reflexivity].
Defined.

(** ** The sort order *)

(** X14. The order a list asks the engine for. Without a sort there is
    none. A sort that holds no [length], or a [length] that is no count, is
    walked through its keys: the sort keys in their order, each one
    ascending when its direction is 1 and descending for any other
    direction. A sort that holds a count under [length] is walked as an
    array: the order has as many entries as the count says, under the
    indices below it and not under the keys of the sort, each one
    descending unless the sort holds 1 under the index. *)
Theorem sort_options_keep_keys
    (relationships : list (string * (value * string)))
    (fuel : nat) (o : options) (filter : value) (q : query) :
  DbResourceCollection.list_query relationships fuel o filter = Ok q ->
  q_order q = DbResourceCollection._getSortOptions o
  /\ (sort o = None -> q_order q = None)
  /\ (forall s,
        sort o = Some s ->
        (forall n, lookup "length" s = Some n -> isLength n = false) ->
        exists order,
          q_order q = Some order
          /\ map fst order = map fst s
          /\ Forall2 (fun kd ko =>
                        (snd kd = 1%Z -> snd ko = "ASC")
                        /\ (snd kd <> 1%Z -> snd ko = "DESC")) s order)
  /\ (forall s n,
        sort o = Some s ->
        lookup "length" s = Some n ->
        isLength n = true ->
        q_order q
        = Some (map (fun i => (index_key i,
                               match lookup (index_key i) s with
                               | Some direction =>
                                   if (direction =? 1)%Z then "ASC" else "DESC"
                               | None => "DESC"
                               end))
                    (seq 0 (Z.to_nat n)))).
Proof.
  intros H. unfold DbResourceCollection.list_query in H.
  apply bind_Ok in H as (w & _ & H). injection H as <-. cbn [q_order].
  unfold DbResourceCollection._getSortOptions.
  split; [reflexivity|]. split; [now intros ->|]. split.
  - intros s -> L.
    assert (match lookup "length" s with
            | Some n => isLength n
            | None => false
            end = false) as ->.
    { destruct (lookup "length" s) as [n|]; [now apply L|reflexivity]. }
    eexists. split; [reflexivity|]. split.
    + rewrite List.map_map. reflexivity.
    + clear L. induction s as [|[k dir] s IH]; constructor; [|exact IH].
      cbn. destruct (Z.eqb_spec dir 1); split; intros; congruence.
  - intros s n -> L I. now rewrite L, I.
Qed.

Lemma sort_options_keep_keys_witness :
  DbResourceCollection._getSortOptions names_sorted
  = Some [("name", "ASC"); ("email", "DESC")]
  /\ DbResourceCollection._getSortOptions by_length = Some [("0", "DESC")].
Proof.
  destruct (sort_options_keep_keys [] 1 names_sorted VUndef _ eq_refl)
    as (A & _).
  destruct (sort_options_keep_keys [] 1 by_length VUndef _ eq_refl)
    as (_ & _ & _ & B).
  split.
  - symmetry. exact A.
  - exact (B [("length", 1%Z)] 1%Z eq_refl eq_refl eq_refl).
Defined.

(** ** Paging through a collection *)

Lemma firstn_plus {A : Type} (a b : nat) (l : list A) :
  firstn (a + b) l = (firstn a l ++ firstn b (skipn a l))%list.
Proof.
  revert l. induction a as [|a IH]; intros l; [reflexivity|].
  destruct l as [|x l]; cbn.
  - now rewrite firstn_nil.
  - now rewrite IH.
Qed.

(** The first [k] pages of [s] rows, one after the other, are the first
    [k * s] rows. *)
Lemma pages_concat {A : Type} (s k : nat) (l : list A) :
  concat (map (fun n => firstn s (skipn ((n - 1) * s) l)) (seq 1 k))
  = firstn (k * s) l.
Proof.
  induction k as [|k IH]; [reflexivity|].
  rewrite seq_S, map_app, concat_app, IH. cbn [map concat].
  rewrite app_nil_r. replace (1 + k - 1) with k by lia.
  replace (S k * s) with (k * s + s) by lia. now rewrite firstn_plus.
Qed.

Lemma list_query_on_page
    (relationships : list (string * (value * string)))
    (fuel : nat) (o : options) (filter : value) (q : query) (n : Z) :
  DbResourceCollection.list_query relationships fuel o filter = Ok q ->
  DbResourceCollection.list_query relationships fuel (on_page o n) filter
  = Ok {| q_limit := q_limit q;
          q_offset := Some ((n - 1) * snd (page o))%Z;
          q_where := q_where q;
          q_attributes := q_attributes q;
          q_order := q_order q;
          q_include := q_include q |}.
Proof.
  unfold DbResourceCollection.list_query. intros H.
  apply bind_Ok in H as (w & W & H). injection H as <-.
  cbn [opt_filter on_page]. rewrite W. reflexivity.
Qed.

Lemma length_insert_row (order : list (string * string)) (r : row)
    (rs : list row) :
  length (insert_row order r rs) = S (length rs).
Proof.
  induction rs as [|x rs IH]; cbn; [reflexivity|].
  destruct (row_compare order r x); cbn; now rewrite ?IH.
Qed.

Lemma length_order_rows (order : option (list (string * string)))
    (rs : list row) :
  length (order_rows order rs) = length rs.
Proof.
  destruct order as [keys|]; [|reflexivity]. cbn.
  induction rs as [|r rs IH]; cbn; [reflexivity|].
  now rewrite length_insert_row, IH.
Qed.

(** What [list] returns once its query is known. *)
Lemma list_returns
    (query_string : options -> Z -> string)
    (relationships : list (string * (value * string)))
    (fuel : nat) (url : string) (o : options) (filter : value) (d : db)
    (q : query) :
  DbResourceCollection.list_query relationships fuel o filter = Ok q ->
  exists links m,
    fst (DbResourceCollection.list query_string relationships fuel url o
           filter d)
    = Ok (Collection links
            (map (fun user => Resource (url ++ "/<%=id%>") user)
                 (map (project (q_attributes q))
                      (page_of q (order_rows (q_order q)
                                    (List.filter (matches q) (rows d))))))
            m).
Proof.
  intros Q. unfold DbResourceCollection.list, bind_io, lift. rewrite Q.
  unfold findAndCountAll, ret. cbv zeta. cbn [fst snd]. eauto.
Qed.

(** X19. The pages of a collection cover it: with a page size above zero
    and a table that stays as it is, the elements of the pages 1 to
    [ceil(count / size)], one page after the other, are the rows the query
    selects in the order it asks for, each one once. *)
Theorem list_pages_cover
    (query_string : options -> Z -> string)
    (relationships : list (string * (value * string)))
    (fuel : nat) (url : string) (o : options) (filter : value) (d : db)
    (q : query) :
  include o = None ->
  DbResourceCollection.list_query relationships fuel o filter = Ok q ->
  (0 < snd (page o))%Z ->
  concat
    (map (fun n =>
            match fst (DbResourceCollection.list query_string relationships
                         fuel url (on_page o (Z.of_nat n)) filter d) with
            | Ok r => resource_elements r
            | _ => []
            end)
         (seq 1 (Z.to_nat (ceil_div (Z.of_nat (length (List.filter (matches q)
                                                                    (rows d))))
                                    (snd (page o))))))
  = map (fun user => Resource (url ++ "/<%=id%>") user)
        (map (project (q_attributes q))
             (order_rows (q_order q) (List.filter (matches q) (rows d)))).
Proof.
  intros _ Q S.
  set (found := order_rows (q_order q) (List.filter (matches q) (rows d))).
  assert (Lf : length found = length (List.filter (matches q) (rows d)))
    by apply length_order_rows.
  rewrite <- Lf.
  set (s := Z.to_nat (snd (page o))).
  set (k := Z.to_nat (ceil_div (Z.of_nat (length found)) (snd (page o)))).
  assert (L : q_limit q = Some (snd (page o))).
  { unfold DbResourceCollection.list_query in Q.
    apply bind_Ok in Q as (w & _ & Q). now injection Q as <-. }
  assert (E : forall n, In n (seq 1 k) ->
                match fst (DbResourceCollection.list query_string relationships
                             fuel url (on_page o (Z.of_nat n)) filter d) with
                | Ok r => resource_elements r
                | _ => []
                end
                = map (fun user => Resource (url ++ "/<%=id%>") user)
                      (map (project (q_attributes q))
                           (firstn s (skipn ((n - 1) * s) found)))).
  { intros n I. apply in_seq in I.
    destruct (list_returns query_string relationships fuel url
                (on_page o (Z.of_nat n)) filter d _
                (list_query_on_page _ _ _ _ _ (Z.of_nat n) Q))
      as (links & m & ->).
    cbn [resource_elements q_attributes q_order]. unfold page_of, matches.
    cbn [q_offset q_limit q_where]. rewrite L.
    change (order_rows (q_order q) (List.filter _ (rows d))) with found.
    fold s.
    replace (Z.to_nat ((Z.of_nat n - 1) * snd (page o))) with ((n - 1) * s);
      [reflexivity|].
    unfold s. rewrite Z2Nat.inj_mul by lia. f_equal. lia. }
  rewrite (map_ext_in _ _ _ E).
  assert (C : concat (map (fun n => firstn s (skipn ((n - 1) * s) found))
                          (seq 1 k)) = found).
  { rewrite pages_concat. apply firstn_all2.
    pose proof (ceil_div_gt (ceil_div (Z.of_nat (length found)) (snd (page o)))
                  (Z.of_nat (length found)) (snd (page o)) S) as G.
    assert (P : (0 <= ceil_div (Z.of_nat (length found)) (snd (page o)))%Z).
    { unfold ceil_div. apply Z.div_pos; lia. }
    unfold k, s. nia. }
  transitivity
    (map (fun user => Resource (url ++ "/<%=id%>") user)
         (map (project (q_attributes q))
              (concat (map (fun n => firstn s (skipn ((n - 1) * s) found))
                           (seq 1 k)))));
    [|now rewrite C].
  rewrite !concat_map, !List.map_map. reflexivity.
Qed.

Lemma list_pages_cover_witness :
  concat
    (map (fun n =>
            match fst (DbResourceCollection.list page_query [] 1 "/users"
                         (on_page by_name_descending (Z.of_nat n)) VUndef
                         users) with
            | Ok r => resource_elements r
            | _ => []
            end)
         (seq 1 2))
  = [Resource ("/users" ++ "/<%=id%>") wilma;
     Resource ("/users" ++ "/<%=id%>") fred].
Proof.
  exact (list_pages_cover page_query [] 1 "/users" by_name_descending VUndef
           users _ eq_refl eq_refl eq_refl).
Defined.

(** The rows of a list come in the order asked for: sorted by name from
    the last, Wilma comes before Fred. *)
Example list_sort :
  fst (DbResourceCollection.list page_query [] 1 "/users"
         {| page := (1, 10)%Z; opt_filter := VUndef; fieldsFor_self := None;
            sort := Some [("name", (-1)%Z)]; include := None |}
         VUndef users)
  = Ok (Collection [("$self", "/users");
                    ("$first", "/users?page[number]=1");
                    ("$last", "/users?page[number]=1")]
                   [Entity [("$self", "/users/2")] wilma;
                    Entity [("$self", "/users/1")] fred]
                   {| count := 2; page_number := 1; page_size := 10;
                      page_count := 1 |}).
Proof. reflexivity. Qed.

(** ** What [create] stores *)

(** X22. A constraint only lets a [create] through or stops it: when the
    attributes of the payload pass the test, [create] does what it does
    without a constraint. The row sent to the model is the copy of the
    attributes of the payload, and no value of the constraint goes into
    it. *)
Theorem create_stores_payload_only
    (filtr_test : value -> value -> bool) (url : string)
    (payload constraints attributes : value) (d : db) :
  attributes_of payload = Ok attributes ->
  (truthy constraints = true -> filtr_test constraints attributes = true) ->
  DbResourceCollection.create filtr_test url payload constraints d
  = DbResourceCollection.create filtr_test url payload VUndef d
  /\ calls (snd (DbResourceCollection.create filtr_test url payload
                   constraints d))
     = Create (spread [] attributes) :: calls d
  /\ exists entity,
       fst (DbResourceCollection.create filtr_test url payload constraints d)
       = Ok (Resource (url ++ "/<%=id>") entity)
       /\ rows (snd (DbResourceCollection.create filtr_test url payload
                       constraints d))
          = (rows d ++ [entity])%list
       /\ forall k, k <> "id" ->
                    lookup k entity = lookup k (spread [] attributes).
Proof.
  intros A P.
  assert (E : forall c,
             (truthy c = true -> filtr_test c attributes = true) ->
             DbResourceCollection.create filtr_test url payload c d
             = (entity <~ model_create (spread [] attributes) ;;
                ret (Resource (url ++ "/<%=id>") entity)) d).
  { intros c Pc. unfold DbResourceCollection.create, lift.
    unfold bind_io at 1. rewrite A.
    unfold bind_io at 1. now rewrite (check_passes _ _ _ _ Pc). }
  rewrite (E constraints P), (E VUndef) by discriminate.
  split; [reflexivity|]. unfold bind_io, model_create, ret. cbn [fst snd calls rows].
  split; [reflexivity|]. eexists. split; [reflexivity|].
  split; [reflexivity|].
  intros k N. destruct (lookup "id" (spread [] attributes)); [reflexivity|].
  cbn. apply String.eqb_neq in N. now rewrite N.
Qed.

Lemma create_stores_payload_only_witness :
  DbResourceCollection.create filtr_equal "/users"
    (VObj [("attributes", VObj [("name", VStr "Barney Rubble");
                                ("groupId", VNum 2)])])
    (VObj [("groupId", VNum 2)]) users
  = DbResourceCollection.create filtr_equal "/users"
      (VObj [("attributes", VObj [("name", VStr "Barney Rubble");
                                  ("groupId", VNum 2)])])
      VUndef users.
Proof.
  exact (proj1 (create_stores_payload_only filtr_equal "/users"
                  (VObj [("attributes", VObj [("name", VStr "Barney Rubble");
                                              ("groupId", VNum 2)])])
                  (VObj [("groupId", VNum 2)])
                  (VObj [("name", VStr "Barney Rubble"); ("groupId", VNum 2)])
                  users eq_refl (fun _ => eq_refl))).
Defined.

(** ** The conversion of eager-loaded relations *)

Lemma mapM_instance_get (items : list loaded) :
  mapM instance_get items
  = if forallb (fun x => match x with Instance _ => true | _ => false end) items
    then Ok (map (fun x => match x with
                           | Instance dataValues => Object dataValues
                           | _ => x
                           end) items)
    else Throw TypeError.
Proof.
  induction items as [|x items IH]; [reflexivity|]. cbn.
  destruct x; cbn; try reflexivity. rewrite IH.
  now destruct (forallb _ items).
Qed.

Lemma mapM_instance_get_plain (items : list value) :
  mapM instance_get (map Plain items)
  = match items with [] => Ok [] | _ => Throw TypeError end.
Proof. now destruct items. Qed.

(** One turn: a [null] attribute is passed over, an instance or an array of
    instances is replaced by its data and its link is added, anything else
    has no [get] to call. *)
Lemma convert_key_spec (k link : string) (resource : converting) :
  convert_key k link resource
  = if is_null (attribute (loaded_attributes resource) k) then (Ok tt, resource)
    else if convertible (attribute (loaded_attributes resource) k) then
      (Ok tt,
       {| loaded_attributes :=
            assign k (converted (attribute (loaded_attributes resource) k))
                   (loaded_attributes resource);
          added_links := (added_links resource ++ [(k, link)])%list |})
    else (Throw TypeError, resource).
Proof.
  unfold convert_key.
  destruct (attribute (loaded_attributes resource) k) as [v|d|fs|items];
    cbn -[mapM].
  - destruct v as [| | | | |items| | | |]; cbn -[mapM]; try reflexivity.
    rewrite mapM_instance_get_plain. now destruct items.
  - reflexivity.
  - reflexivity.
  - rewrite mapM_instance_get. now destruct (forallb _ items).
Qed.

Lemma attribute_assign_other (k k' : string) (v : loaded)
    (attributes : list (string * loaded)) :
  k <> k' -> attribute (assign k v attributes) k' = attribute attributes k'.
Proof. intros N. unfold attribute. now rewrite lookup_assign_other. Qed.

Lemma not_null_present (attributes : list (string * loaded)) (k : string) :
  is_null (attribute attributes k) = false ->
  lookup k attributes = Some (attribute attributes k).
Proof.
  unfold attribute. destruct (lookup k attributes); [reflexivity|discriminate].
Qed.

(** X16. A conversion that returns has kept the keys of the attributes
    and every attribute that is not named by the links; a named attribute
    that is [null] is kept and gets no link; every other named attribute
    was an instance or an array of instances and is now the data of it, and
    its link was added: the links added are those of the named attributes
    that are not [null], in the order of the links. *)
Theorem convertFromInstance_converts (includeLinks : list (string * string)) :
  forall resource resource',
    NoDup (map fst includeLinks) ->
    _convertFromInstance includeLinks resource = (Ok tt, resource') ->
    map fst (loaded_attributes resource') = map fst (loaded_attributes resource)
    /\ (forall k, ~ In k (map fst includeLinks) ->
                  lookup k (loaded_attributes resource')
                  = lookup k (loaded_attributes resource))
    /\ (forall k v,
           In k (map fst includeLinks) ->
           lookup k (loaded_attributes resource) = Some v ->
           (is_null v = true ->
            lookup k (loaded_attributes resource') = Some v)
           /\ (is_null v = false ->
               convertible v = true
               /\ lookup k (loaded_attributes resource')
                  = Some (converted v)))
    /\ added_links resource'
       = (added_links resource
            ++ List.filter
                 (fun kl => negb (is_null (attribute (loaded_attributes resource)
                                                     (fst kl))))
                 includeLinks)%list.
Proof.
  induction includeLinks as [|[k link] rest IH]; intros resource resource' D H.
  - injection H as <-. cbn. rewrite app_nil_r. repeat split; try tauto.
  - inversion D as [|? ? N D']; subst.
    cbn [_convertFromInstance] in H. unfold bind_io in H.
    rewrite convert_key_spec in H.
    set (v0 := attribute (loaded_attributes resource) k) in *.
    destruct (is_null v0) eqn:Nu.
    + destruct (IH _ _ D' H) as (K & O & C & A).
      split; [exact K|]. split; [|split].
      * intros k' I. apply O. cbn in I. tauto.
      * intros k' v [<-|I] L; cbn [fst] in *.
        -- rewrite (O k N). unfold v0, attribute in Nu. rewrite L in Nu.
           split; [now intros _|]. intros E. congruence.
        -- now apply C.
      * cbn [List.filter fst]. fold v0. rewrite Nu. exact A.
    + destruct (convertible v0) eqn:Cv; [|discriminate].
      pose proof (not_null_present _ _ Nu) as P. fold v0 in P.
      destruct (IH _ _ D' H) as (K & O & C & A).
      cbn [loaded_attributes added_links] in K, O, C, A.
      split; [|split; [|split]].
      * rewrite K. now apply (keys_assign _ _ v0).
      * intros k' I. rewrite O by (cbn in I; tauto).
        apply lookup_assign_other. cbn in I. intros ->. tauto.
      * intros k' v [<-|I] L; cbn [fst] in *.
        -- rewrite (O k N), lookup_assign_same.
           assert (v = v0) as -> by congruence.
           split; [congruence|auto].
        -- apply C; [exact I|]. rewrite lookup_assign_other; [exact L|].
           intros ->. apply N. exact I.
      * cbn [List.filter fst]. fold v0. rewrite Nu. cbn [negb].
        rewrite A, <- app_assoc. cbn [app]. do 2 f_equal.
        apply filter_ext_in. intros [k' l'] I. cbn [fst].
        rewrite attribute_assign_other; [reflexivity|].
        intros ->. apply N. apply in_map_iff. now exists (k', l').
Qed.

Lemma convertFromInstance_converts_witness :
  lookup "group" (loaded_attributes
                    (snd (_convertFromInstance fred_links fred_loaded)))
  = Some (Object [("id", Plain (VNum 1)); ("name", Plain (VStr "Quarry"))])
  /\ lookup "manager" (loaded_attributes
                         (snd (_convertFromInstance fred_links fred_loaded)))
     = Some (Plain VNull)
  /\ added_links (snd (_convertFromInstance fred_links fred_loaded))
     = [("group", "/groups/<%=groupId%>"); ("posts", "/users/<%=id%>/posts")].
Proof.
  assert (D : NoDup (map fst fred_links)).
  { repeat constructor; cbn; intuition discriminate. }
  destruct (convertFromInstance_converts fred_links fred_loaded
              (snd (_convertFromInstance fred_links fred_loaded)) D eq_refl)
    as (_ & _ & C & A).
  split; [|split].
  - refine (proj2 (proj2 (C "group"
                             (Instance [("id", Plain (VNum 1));
                                        ("name", Plain (VStr "Quarry"))])
                             _ eq_refl) eq_refl)).
    cbn. tauto.
  - refine (proj1 (C "manager" (Plain VNull) _ eq_refl) eq_refl).
    cbn. tauto.
  - exact A.
Defined.

(** X17. A named attribute that is not [null] and is neither an instance
    nor an array of instances, such as a column that bears the name of a
    relationship or an attribute converted before, has no [get] to call: the
    conversion throws a TypeError. *)
Theorem convertFromInstance_refuses (includeLinks : list (string * string)) :
  forall resource k,
    NoDup (map fst includeLinks) ->
    In k (map fst includeLinks) ->
    is_null (attribute (loaded_attributes resource) k) = false ->
    convertible (attribute (loaded_attributes resource) k) = false ->
    fst (_convertFromInstance includeLinks resource) = Throw TypeError.
Proof.
  induction includeLinks as [|[k0 link] rest IH]; intros resource k D I Nu Cv;
    [destruct I|].
  inversion D as [|? ? N D']; subst.
  cbn [_convertFromInstance]. unfold bind_io. rewrite convert_key_spec.
  destruct (String.eqb_spec k0 k) as [->|Ne].
  - now rewrite Nu, Cv.
  - destruct I as [E|I]; [contradiction|].
    destruct (is_null (attribute (loaded_attributes resource) k0));
      [now apply (IH _ k)|].
    destruct (convertible (attribute (loaded_attributes resource) k0));
      [|reflexivity].
    apply (IH _ k); try assumption; cbn [loaded_attributes];
      now rewrite attribute_assign_other.
Qed.

Lemma convertFromInstance_refuses_witness :
  fst (_convertFromInstance [("name", "/names/<%=id%>")] fred_loaded)
  = Throw TypeError
  /\ fst (_convertFromInstance fred_links
            (snd (_convertFromInstance fred_links fred_loaded)))
     = Throw TypeError.
Proof.
  split.
  - apply (convertFromInstance_refuses _ fred_loaded "name");
      [repeat constructor; cbn; tauto|cbn; tauto|reflexivity|reflexivity].
  - apply (convertFromInstance_refuses _ _ "group");
      [repeat constructor; cbn; intuition discriminate
      |cbn; tauto|reflexivity|reflexivity].
Defined.

(** * A list call and the caller's filter object *)

(** [list] is the translation of the filter followed by [list_from]. *)
Lemma list_list_from (query_string : options -> Z -> string)
    (relationships : list (string * (value * string))) (fuel : nat)
    (url : string) (o : options) (filter : value) (d : db) :
  DbResourceCollection.list query_string relationships fuel url o filter d
  = match translateFilter fuel (opt_filter o) filter with
    | Ok where_ => list_from query_string relationships url o where_ d
    | Throw e => (Throw e, d)
    | OutOfFuel => (OutOfFuel, d)
    end.
Proof.
  unfold DbResourceCollection.list, DbResourceCollection.list_query.
  unfold bind_io at 1. unfold lift.
  destruct (translateFilter fuel (opt_filter o) filter); reflexivity.
Qed.











(** A list call on the store and a list call on the tree agree: the same
    resource, the same call on the model. *)
Example listH_list :
  listH page_query [] 1 "/users" first_page (HRef 1) (HRef 2)
    (like_wilma_constrained_store, users)
  = (fst (DbResourceCollection.list page_query [] 1 "/users"
            (filtered (VObj [("name", VObj [("$like", VStr "Wilma%")])]) None)
            (VObj [("groupId", VNum 2)]) users),
     (rewrite_at 1 "name" "wilma%" like_wilma_constrained_store
        ++ [CArr [HRef 1; HRef 2]; CObj [("$and", HRef 8)]],
      snd (DbResourceCollection.list page_query [] 1 "/users"
             (filtered (VObj [("name", VObj [("$like", VStr "Wilma%")])]) None)
             (VObj [("groupId", VNum 2)]) users)))%list.
Proof. vm_compute. reflexivity. Qed.
